(** * LendingEscrow: rental accounting engine for subscription tokens

    Shallow embedding of the Solidity contract [LendingEscrow] (pragma
    ^0.8.20, hence checked arithmetic) and of the properties stated about it.

    The source file holds two bodies of the contract:
    - the first one ([createListing] with duration bounds, [startSession]
      that pays at start and hands the units to the borrower, [endSession]
      gated by [block.timestamp >= endTime]): module [Simple];
    - the second one ([createListing] with three arguments, [endSession]
      open to the borrower or the owner at any time, with a recomputed
      settlement, [_distributePayment], [getActiveListings]): module
      [Prorated].

    Conventions.
    - [uint256] values are [Z] in [0, MAX_UINT256]; [+], [-], [*] are the
      checked operations [add], [sub], [mul], which fail with [Panic].
    - A Solidity [mapping] is a [gmap] read through [!!!]: an absent key reads
      as the all-zero struct, which is what the [Inhabited] instances provide.
    - A function body is a computation in the error monad [result]; a failed
      computation is a revert, and [execute] keeps the state of before the
      call in that case.
    - Event logs are write-only and are left out.  Accounts other than the
      contract are externally owned: an Ether or token transfer to them
      runs no code, so no call re-enters the contract and the [nonReentrant]
      guard never fires.
    - The emergency withdrawals and the token whitelist act on the ledger
      only; with minting, transfers and approvals by holders and with
      transfers of ownership they are the environment step of [Simple.step]. *)

From stdpp Require Import base gmap list strings.
From Stdlib Require Import ZArith Lia.

Local Open Scope Z_scope.

(** ** Errors and the error monad *)

Inductive error : Type :=
| ErrorString (msg : string)      (* a failed [require], with its message *)
| Panic                           (* checked arithmetic failed *)
| InsufficientBalance             (* ledger: [from] holds too little *)
| Unauthorized                    (* ledger: caller is no operator of [from] *)
| OutOfFunds                      (* Ether transfer beyond the balance *)
| OutOfGas.                       (* a loop ran past its bound *)

Inductive result (A : Type) : Type :=
| Ok (a : A)
| Err (e : error).
Arguments Ok {A} a.
Arguments Err {A} e.

Definition bind {A B : Type} (r : result A) (k : A -> result B) : result B :=
  match r with
  | Ok a => k a
  | Err e => Err e
  end.

Notation "x <- c ;; k" := (bind c (fun x => k))
  (at level 100, c at next level, right associativity).
Notation "c ;;; k" := (bind c (fun _ => k))
  (at level 100, right associativity).

Definition require (b : bool) (msg : string) : result unit :=
  if b then Ok tt else Err (ErrorString msg).

(** ** Checked [uint256] arithmetic *)

Definition MAX_UINT256 : Z := 2 ^ 256 - 1.

Definition uint256 (x : Z) : Prop := 0 <= x <= MAX_UINT256.

Definition add (a b : Z) : result Z :=
  if a + b <=? MAX_UINT256 then Ok (a + b) else Err Panic.

Definition sub (a b : Z) : result Z :=
  if b <=? a then Ok (a - b) else Err Panic.

Definition mul (a b : Z) : result Z :=
  if a * b <=? MAX_UINT256 then Ok (a * b) else Err Panic.

(** [for (uint256 i = start; i <= max; i++) body]: the body threads the
    local variables [acc]; [i++] is checked like every other addition. *)
Fixpoint for_loop {A : Type} (fuel : nat) (i max : Z)
    (body : Z -> A -> result A) (acc : A) : result A :=
  if max <? i then Ok acc
  else
    match fuel with
    | O => Err OutOfGas
    | S fuel' =>
        acc' <- body i acc ;;
        i' <- add i 1 ;;
        for_loop fuel' i' max body acc'
    end.

(** The fee computation shared by [startSession] of the first body and
    [_distributePayment] of the second:
      [platformAmount = (amount * platformFee) / 10000;]
      [lenderAmount = amount - platformAmount;] *)
Definition feeSplit (amount platformFee : Z) : result (Z * Z) :=
  p <- mul amount platformFee ;;
  let platformAmount := p / 10000 in
  lenderAmount <- sub amount platformAmount ;;
  Ok (platformAmount, lenderAmount).

Abbreviation address := Z.

(** ** The unit ledger (the ERC-1155 token contract) *)

Module Ledger.

(** Modelled from the spec: the token contract [SubscriptionToken] is not
    part of the sources.  Section 3: ledger balances are a quantity per
    (holder, unitBatchId); section 4.1: approval is a boolean per (owner,
    operator) pair. *)
Record t : Type := mk {
  balances : gmap (address * Z) Z;
  approvals : gmap (address * address) bool
}.

(** Modelled from the spec: [balanceOf(holder, batchId) -> quantity]; an
    entry never written reads as zero. *)
Definition balanceOf (l : t) (holder : address) (id : Z) : Z :=
  default 0 (balances l !! (holder, id)).

(** Modelled from the spec: the approval of [operator] by [owner]; not
    approved unless set. *)
Definition isApprovedForAll (l : t) (owner operator : address) : bool :=
  default false (approvals l !! (owner, operator)).

Definition setBalance (l : t) (holder : address) (id q : Z) : t :=
  mk (<[(holder, id) := q]> (balances l)) (approvals l).

(** Modelled from the spec: the transfer of [SubscriptionToken], which is
    not part of the sources.  Section 4.1: [transfer(from, to, batchId,
    quantity)] fails with [InsufficientBalance] if [balanceOf(from) <
    quantity], fails with [Unauthorized] if the caller is neither [from]
    nor an approved operator of [from]; either the full quantity moves or
    none does.  [caller] is the account that invokes the ledger, which is
    the engine itself for every call made by [LendingEscrow]. *)
Definition safeTransferFrom (l : t) (caller from to : address) (id q : Z)
  : result t :=
  if balanceOf l from id <? q then Err InsufficientBalance
  else if negb (caller =? from) && negb (isApprovedForAll l from caller)
  then Err Unauthorized
  else
    let l1 := setBalance l from id (balanceOf l from id - q) in
    Ok (setBalance l1 to id (balanceOf l1 to id + q)).

End Ledger.

(** ** Ether balances *)

Definition ethOf (eth : gmap address Z) (a : address) : Z :=
  default 0 (eth !! a).

Definition ethMove (eth : gmap address Z) (from to : address) (v : Z)
  : result (gmap address Z) :=
  if ethOf eth from <? v then Err OutOfFunds
  else
    let e1 := <[from := ethOf eth from - v]> eth in
    Ok (<[to := ethOf e1 to + v]> e1).

(** The transaction context: [msg.sender] and [block.timestamp].  The value
    sent with a payable call is an argument of that call. *)
Record Msg : Type := mkMsg {
  sender : address;
  timestamp : Z
}.

Inductive receipt : Type :=
| Success
| Reverted (e : error).

(** ** First contract body: the simple policy *)

Module Simple.

Module Listing.
Record t : Type := mk {
  lender : address;
  tokenId : Z;
  pricePerUnit : Z;
  availableUnits : Z;
  totalUnits : Z;
  minDuration : Z;
  maxDuration : Z;
  createdAt : Z;
  isActive : bool
}.
Definition zero : t := mk 0 0 0 0 0 0 0 0 false.
Definition set_isActive (l : t) (b : bool) : t :=
  mk (lender l) (tokenId l) (pricePerUnit l) (availableUnits l)
     (totalUnits l) (minDuration l) (maxDuration l) (createdAt l) b.
Definition set_availableUnits (l : t) (v : Z) : t :=
  mk (lender l) (tokenId l) (pricePerUnit l) v
     (totalUnits l) (minDuration l) (maxDuration l) (createdAt l) (isActive l).
End Listing.

Module Session.
Record t : Type := mk {
  borrower : address;
  listingId : Z;
  units : Z;
  startTime : Z;
  endTime : Z;
  totalPaid : Z;
  isActive : bool
}.
Definition zero : t := mk 0 0 0 0 0 0 false.
Definition set_isActive (s : t) (b : bool) : t :=
  mk (borrower s) (listingId s) (units s) (startTime s) (endTime s)
     (totalPaid s) b.
End Session.

#[global] Instance Listing_inhabited : Inhabited Listing.t :=
  populate Listing.zero.
#[global] Instance Session_inhabited : Inhabited Session.t :=
  populate Session.zero.

Definition BASIS_POINTS : Z := 10000.

(** Contract storage, with the state of the two collaborators the contract
    acts on: the token ledger and the Ether balances.  [this] is
    [address(this)]; [owner] and [paused] are the storage of [Ownable] and
    [Pausable]. *)
Record State : Type := mkState {
  this : address;
  owner : address;
  paused : bool;
  listingCounter : Z;
  sessionCounter : Z;
  platformFee : Z;
  minRentalDuration : Z;
  maxRentalDuration : Z;
  platformWallet : address;
  listings : gmap Z Listing.t;
  sessions : gmap Z Session.t;
  userListings : gmap address (list Z);
  userSessions : gmap address (list Z);
  token : Ledger.t;
  eth : gmap address Z
}.

Definition set_paused (st : State) (b : bool) : State :=
  mkState (this st) (owner st) b (listingCounter st) (sessionCounter st)
    (platformFee st) (minRentalDuration st) (maxRentalDuration st)
    (platformWallet st) (listings st) (sessions st) (userListings st)
    (userSessions st) (token st) (eth st).

Definition set_listingCounter (st : State) (n : Z) : State :=
  mkState (this st) (owner st) (paused st) n (sessionCounter st)
    (platformFee st) (minRentalDuration st) (maxRentalDuration st)
    (platformWallet st) (listings st) (sessions st) (userListings st)
    (userSessions st) (token st) (eth st).

Definition set_sessionCounter (st : State) (n : Z) : State :=
  mkState (this st) (owner st) (paused st) (listingCounter st) n
    (platformFee st) (minRentalDuration st) (maxRentalDuration st)
    (platformWallet st) (listings st) (sessions st) (userListings st)
    (userSessions st) (token st) (eth st).

Definition set_platformFee (st : State) (f : Z) : State :=
  mkState (this st) (owner st) (paused st) (listingCounter st)
    (sessionCounter st) f (minRentalDuration st) (maxRentalDuration st)
    (platformWallet st) (listings st) (sessions st) (userListings st)
    (userSessions st) (token st) (eth st).

Definition set_rentalDurations (st : State) (lo hi : Z) : State :=
  mkState (this st) (owner st) (paused st) (listingCounter st)
    (sessionCounter st) (platformFee st) lo hi
    (platformWallet st) (listings st) (sessions st) (userListings st)
    (userSessions st) (token st) (eth st).

Definition set_platformWallet (st : State) (w : address) : State :=
  mkState (this st) (owner st) (paused st) (listingCounter st)
    (sessionCounter st) (platformFee st) (minRentalDuration st)
    (maxRentalDuration st) w (listings st) (sessions st) (userListings st)
    (userSessions st) (token st) (eth st).

Definition set_listing (st : State) (id : Z) (l : Listing.t) : State :=
  mkState (this st) (owner st) (paused st) (listingCounter st)
    (sessionCounter st) (platformFee st) (minRentalDuration st)
    (maxRentalDuration st) (platformWallet st) (<[id := l]> (listings st))
    (sessions st) (userListings st) (userSessions st) (token st) (eth st).

Definition set_session (st : State) (id : Z) (s : Session.t) : State :=
  mkState (this st) (owner st) (paused st) (listingCounter st)
    (sessionCounter st) (platformFee st) (minRentalDuration st)
    (maxRentalDuration st) (platformWallet st) (listings st)
    (<[id := s]> (sessions st)) (userListings st) (userSessions st)
    (token st) (eth st).

Definition push_userListing (st : State) (a : address) (id : Z) : State :=
  mkState (this st) (owner st) (paused st) (listingCounter st)
    (sessionCounter st) (platformFee st) (minRentalDuration st)
    (maxRentalDuration st) (platformWallet st) (listings st) (sessions st)
    (<[a := default [] (userListings st !! a) ++ [id]]> (userListings st))
    (userSessions st) (token st) (eth st).

Definition push_userSession (st : State) (a : address) (id : Z) : State :=
  mkState (this st) (owner st) (paused st) (listingCounter st)
    (sessionCounter st) (platformFee st) (minRentalDuration st)
    (maxRentalDuration st) (platformWallet st) (listings st) (sessions st)
    (userListings st)
    (<[a := default [] (userSessions st !! a) ++ [id]]> (userSessions st))
    (token st) (eth st).

Definition set_token (st : State) (t : Ledger.t) : State :=
  mkState (this st) (owner st) (paused st) (listingCounter st)
    (sessionCounter st) (platformFee st) (minRentalDuration st)
    (maxRentalDuration st) (platformWallet st) (listings st) (sessions st)
    (userListings st) (userSessions st) t (eth st).

Definition set_eth (st : State) (e : gmap address Z) : State :=
  mkState (this st) (owner st) (paused st) (listingCounter st)
    (sessionCounter st) (platformFee st) (minRentalDuration st)
    (maxRentalDuration st) (platformWallet st) (listings st) (sessions st)
    (userListings st) (userSessions st) (token st) e.

(** What other accounts can change: the ledger, Ether balances, and the
    owner (by a transfer of ownership). *)
Definition set_env (st : State) (o : address) (t : Ledger.t)
    (e : gmap address Z) : State :=
  mkState (this st) o (paused st) (listingCounter st) (sessionCounter st)
    (platformFee st) (minRentalDuration st) (maxRentalDuration st)
    (platformWallet st) (listings st) (sessions st) (userListings st)
    (userSessions st) t e.

(** [subscriptionToken.safeTransferFrom(from, to, id, q, "")]: the engine is
    the caller of the ledger. *)
Definition tokenTransfer (st : State) (from to : address) (id q : Z)
  : result State :=
  t <- Ledger.safeTransferFrom (token st) (this st) from to id q ;;
  Ok (set_token st t).

(** [payable(to).transfer(v)] *)
Definition pay (st : State) (to : address) (v : Z) : result State :=
  e <- ethMove (eth st) (this st) to v ;;
  Ok (set_eth st e).

(** Modifiers *)
Definition onlyLender (st : State) (m : Msg) (listingId : Z) : result unit :=
  require (Listing.lender (listings st !!! listingId) =? sender m)
          "Not the lender".

Definition onlyActiveListing (st : State) (listingId : Z) : result unit :=
  require (Listing.isActive (listings st !!! listingId)) "Listing not active".

Definition onlyActiveSession (st : State) (sessionId : Z) : result unit :=
  require (Session.isActive (sessions st !!! sessionId)) "Session not active".

Definition whenNotPaused (st : State) : result unit :=
  require (negb (paused st)) "Pausable: paused".

Definition onlyOwner (st : State) (m : Msg) : result unit :=
  require (owner st =? sender m) "Ownable: caller is not the owner".

(** [constructor(_subscriptionToken, _platformWallet, _platformFee)].  The
    deployer becomes the owner; [self] is the address the contract gets;
    [tok] and [e] are the ledger and the Ether balances at deployment. *)
Definition constructor (self deployer _subscriptionToken _platformWallet : address)
    (_platformFee : Z) (tok : Ledger.t) (e : gmap address Z) : result State :=
  require (negb (_subscriptionToken =? 0)) "Invalid token address" ;;;
  require (negb (_platformWallet =? 0)) "Invalid platform wallet" ;;;
  require (_platformFee <? BASIS_POINTS) "Fee too high" ;;;
  Ok (mkState self deployer false 0 0 _platformFee 86400 (365 * 86400)
        _platformWallet ∅ ∅ ∅ ∅ tok e).

Definition createListing (st : State) (m : Msg)
    (tokenId pricePerUnit units minDuration maxDuration : Z) : result State :=
  whenNotPaused st ;;;
  require (0 <? units) "Must list at least one unit" ;;;
  require (0 <? pricePerUnit) "Price must be greater than 0" ;;;
  require (minRentalDuration st <=? minDuration) "Duration below minimum" ;;;
  require (maxDuration <=? maxRentalDuration st) "Duration exceeds maximum" ;;;
  require (minDuration <=? maxDuration) "Invalid duration range" ;;;
  (* Transfer tokens to this contract *)
  st1 <- tokenTransfer st (sender m) (this st) tokenId units ;;
  (* Create new listing *)
  listingId <- add (listingCounter st1) 1 ;;
  let st2 := set_listingCounter st1 listingId in
  let st3 := set_listing st2 listingId
               (Listing.mk (sender m) tokenId pricePerUnit units units
                           minDuration maxDuration (timestamp m) true) in
  Ok (push_userListing st3 (sender m) listingId).

Definition updateListing (st : State) (m : Msg)
    (listingId newPricePerUnit newAvailableUnits newMinDuration newMaxDuration : Z)
  : result State :=
  onlyLender st m listingId ;;;
  onlyActiveListing st listingId ;;;
  whenNotPaused st ;;;
  require (0 <? newPricePerUnit) "Price must be greater than 0" ;;;
  require (minRentalDuration st <=? newMinDuration) "Duration below minimum" ;;;
  require (newMaxDuration <=? maxRentalDuration st) "Duration exceeds maximum" ;;;
  require (newMinDuration <=? newMaxDuration) "Invalid duration range" ;;;
  let listing := listings st !!! listingId in
  (* never below the currently rented units *)
  rentedUnits <- sub (Listing.totalUnits listing) (Listing.availableUnits listing) ;;
  require (rentedUnits <=? newAvailableUnits)
          "Cannot have fewer units than currently rented" ;;;
  (* additional units are pulled from the lender *)
  st1 <- (if Listing.totalUnits listing <? newAvailableUnits then
            additionalUnits <- sub newAvailableUnits (Listing.totalUnits listing) ;;
            tokenTransfer st (sender m) (this st) (Listing.tokenId listing)
                          additionalUnits
          else Ok st) ;;
  avail <- sub newAvailableUnits rentedUnits ;;
  Ok (set_listing st1 listingId
        (Listing.mk (Listing.lender listing) (Listing.tokenId listing)
                    newPricePerUnit avail newAvailableUnits
                    newMinDuration newMaxDuration
                    (Listing.createdAt listing) (Listing.isActive listing))).

Definition cancelListing (st : State) (m : Msg) (listingId : Z) : result State :=
  onlyLender st m listingId ;;;
  onlyActiveListing st listingId ;;;
  let listing := listings st !!! listingId in
  (* Mark listing as inactive *)
  let st1 := set_listing st listingId (Listing.set_isActive listing false) in
  (* Return unrented tokens to lender *)
  if 0 <? Listing.availableUnits listing then
    tokenTransfer st1 (this st1) (sender m) (Listing.tokenId listing)
                  (Listing.availableUnits listing)
  else Ok st1.

(** [startSession] is payable: [value] is [msg.value], already credited to
    the contract when the body runs (see [run]). *)
Definition startSession (st : State) (m : Msg) (listingId units duration value : Z)
  : result State :=
  whenNotPaused st ;;;
  onlyActiveListing st listingId ;;;
  let listing := listings st !!! listingId in
  (* Validate inputs *)
  require (0 <? units) "Must rent at least one unit" ;;;
  require (units <=? Listing.availableUnits listing) "Not enough units available" ;;;
  require (Listing.minDuration listing <=? duration) "Duration below minimum" ;;;
  require (duration <=? Listing.maxDuration listing) "Duration exceeds maximum" ;;;
  (* Calculate total cost *)
  c <- mul (Listing.pricePerUnit listing) units ;;
  totalCost <- mul c duration ;;
  require (totalCost <=? value) "Insufficient payment" ;;;
  (* Calculate platform fee and lender amount *)
  fl <- feeSplit totalCost (platformFee st) ;;
  let feeAmount := fst fl in
  let lenderAmount := snd fl in
  (* Transfer payment to lender and platform *)
  st1 <- pay st (Listing.lender listing) lenderAmount ;;
  st2 <- (if 0 <? feeAmount then pay st1 (platformWallet st1) feeAmount
          else Ok st1) ;;
  (* Refund any excess payment *)
  st3 <- (if totalCost <? value then
            r <- sub value totalCost ;; pay st2 (sender m) r
          else Ok st2) ;;
  (* Create new session *)
  sessionId <- add (sessionCounter st3) 1 ;;
  let startTime := timestamp m in
  endTime <- add startTime duration ;;
  let st4 := set_session (set_sessionCounter st3 sessionId) sessionId
               (Session.mk (sender m) listingId units startTime endTime
                           totalCost true) in
  (* Update listing availability *)
  avail <- sub (Listing.availableUnits (listings st4 !!! listingId)) units ;;
  let st5 := set_listing st4 listingId
               (Listing.set_availableUnits (listings st4 !!! listingId) avail) in
  (* Transfer tokens to borrower *)
  st6 <- tokenTransfer st5 (this st5) (sender m) (Listing.tokenId listing) units ;;
  Ok (push_userSession st6 (sender m) sessionId).

Definition endSession (st : State) (m : Msg) (sessionId : Z) : result State :=
  onlyActiveSession st sessionId ;;;
  let session := sessions st !!! sessionId in
  require (Session.endTime session <=? timestamp m) "Session not yet ended" ;;;
  (* Mark session as inactive *)
  let st1 := set_session st sessionId (Session.set_isActive session false) in
  let listing := listings st1 !!! Session.listingId session in
  (* Return tokens to the lender: taken from msg.sender *)
  st2 <- tokenTransfer st1 (sender m) (Listing.lender listing)
                       (Listing.tokenId listing) (Session.units session) ;;
  (* Update listing availability if it's still active *)
  if Listing.isActive listing then
    avail <- add (Listing.availableUnits listing) (Session.units session) ;;
    Ok (set_listing st2 (Session.listingId session)
          (Listing.set_availableUnits listing avail))
  else Ok st2.

Definition updatePlatformFee (st : State) (m : Msg) (newFee : Z) : result State :=
  onlyOwner st m ;;;
  require (newFee <? BASIS_POINTS) "Fee too high" ;;;
  Ok (set_platformFee st newFee).

Definition updatePlatformWallet (st : State) (m : Msg) (newWallet : address)
  : result State :=
  onlyOwner st m ;;;
  require (negb (newWallet =? 0)) "Invalid address" ;;;
  Ok (set_platformWallet st newWallet).

Definition updateRentalDurationLimits (st : State) (m : Msg) (min max : Z)
  : result State :=
  onlyOwner st m ;;;
  require (0 <? min) "Minimum duration must be greater than 0" ;;;
  require (min <? max) "Max must be greater than min" ;;;
  Ok (set_rentalDurations st min max).

Definition pause (st : State) (m : Msg) : result State :=
  onlyOwner st m ;;;
  whenNotPaused st ;;;
  Ok (set_paused st true).

Definition unpause (st : State) (m : Msg) : result State :=
  onlyOwner st m ;;;
  require (paused st) "Pausable: not paused" ;;;
  Ok (set_paused st false).

Definition emergencyStop (st : State) (m : Msg) : result State :=
  onlyOwner st m ;;;
  whenNotPaused st ;;;
  Ok (set_paused st true).

(** The external entry points, with their arguments. *)
Inductive Call : Type :=
| CreateListing (tokenId pricePerUnit units minDuration maxDuration : Z)
| UpdateListing (listingId newPricePerUnit newAvailableUnits
                 newMinDuration newMaxDuration : Z)
| CancelListing (listingId : Z)
| StartSession (listingId units duration value : Z)
| EndSession (sessionId : Z)
| UpdatePlatformFee (newFee : Z)
| UpdatePlatformWallet (newWallet : address)
| UpdateRentalDurationLimits (min max : Z)
| Pause
| Unpause
| EmergencyStop.

(** Arguments are ABI-decoded [uint256] values. *)
Definition valid_call (c : Call) : Prop :=
  match c with
  | CreateListing a b c d e =>
      uint256 a /\ uint256 b /\ uint256 c /\ uint256 d /\ uint256 e
  | UpdateListing a b c d e =>
      uint256 a /\ uint256 b /\ uint256 c /\ uint256 d /\ uint256 e
  | CancelListing a => uint256 a
  | StartSession a b c v => uint256 a /\ uint256 b /\ uint256 c /\ uint256 v
  | EndSession a => uint256 a
  | UpdatePlatformFee a => uint256 a
  | UpdatePlatformWallet _ => True
  | UpdateRentalDurationLimits a b => uint256 a /\ uint256 b
  | Pause | Unpause | EmergencyStop => True
  end.

Definition run (st : State) (m : Msg) (c : Call) : result State :=
  match c with
  | CreateListing tokenId pricePerUnit units minDuration maxDuration =>
      createListing st m tokenId pricePerUnit units minDuration maxDuration
  | UpdateListing listingId p u lo hi => updateListing st m listingId p u lo hi
  | CancelListing listingId => cancelListing st m listingId
  | StartSession listingId units duration value =>
      e <- ethMove (eth st) (sender m) (this st) value ;;
      startSession (set_eth st e) m listingId units duration value
  | EndSession sessionId => endSession st m sessionId
  | UpdatePlatformFee newFee => updatePlatformFee st m newFee
  | UpdatePlatformWallet w => updatePlatformWallet st m w
  | UpdateRentalDurationLimits lo hi => updateRentalDurationLimits st m lo hi
  | Pause => pause st m
  | Unpause => unpause st m
  | EmergencyStop => emergencyStop st m
  end.

(** A transaction: all or nothing. *)
Definition execute (st : State) (m : Msg) (c : Call) : State * receipt :=
  match run st m c with
  | Ok st' => (st', Success)
  | Err e => (st, Reverted e)
  end.

(** One step of the system: a transaction on the contract, or activity of
    other accounts (minting, transfers and approvals by holders, plain
    payments, withdrawals by the owner, a transfer of ownership), which
    touches neither the listings nor the sessions. *)
Inductive step : State -> State -> Prop :=
| step_call st m c :
    uint256 (timestamp m) -> valid_call c -> step st (fst (execute st m c))
| step_env st o tok e :
    step st (set_env st o tok e).

Inductive reachable : State -> Prop :=
| reach_init self deployer tk wallet fee tok e st :
    uint256 fee ->
    constructor self deployer tk wallet fee tok e = Ok st -> reachable st
| reach_step st st' : reachable st -> step st st' -> reachable st'.

(** Units out on open sessions of listing [id]: the sum of [units] over the
    session ids [1 .. sessionCounter] that are active and reference [id]. *)
Definition sessionLoad (ss : gmap Z Session.t) (id sid : Z) : Z :=
  let s := ss !!! sid in
  if Session.isActive s && (Session.listingId s =? id)
  then Session.units s else 0.

Definition openUnits (st : State) (id : Z) : Z :=
  foldr (fun sid acc => sessionLoad (sessions st) id sid + acc) 0
        (seqZ 1 (sessionCounter st)).

End Simple.

(** ** Second contract body: settlement recomputed at the end *)

Module Prorated.

(** The struct literals of this body name five and six members. *)
Module Listing.
Record t : Type := mk {
  lender : address;
  tokenId : Z;
  pricePerUnit : Z;
  availableUnits : Z;
  isActive : bool
}.
Definition zero : t := mk 0 0 0 0 false.
Definition set_isActive (l : t) (b : bool) : t :=
  mk (lender l) (tokenId l) (pricePerUnit l) (availableUnits l) b.
Definition set_availableUnits (l : t) (v : Z) : t :=
  mk (lender l) (tokenId l) (pricePerUnit l) v (isActive l).
End Listing.

Module Session.
Record t : Type := mk {
  borrower : address;
  listingId : Z;
  units : Z;
  startTime : Z;
  endTime : Z;
  isActive : bool
}.
Definition zero : t := mk 0 0 0 0 0 false.
Definition set_isActive (s : t) (b : bool) : t :=
  mk (borrower s) (listingId s) (units s) (startTime s) (endTime s) b.
End Session.

#[global] Instance Listing_inhabited : Inhabited Listing.t :=
  populate Listing.zero.
#[global] Instance Session_inhabited : Inhabited Session.t :=
  populate Session.zero.

Record State : Type := mkState {
  this : address;
  owner : address;
  listingCounter : Z;
  sessionCounter : Z;
  platformFee : Z;
  platformWallet : address;
  listings : gmap Z Listing.t;
  sessions : gmap Z Session.t;
  userListings : gmap address (list Z);
  userSessions : gmap address (list Z);
  token : Ledger.t;
  eth : gmap address Z
}.

Definition set_listingCounter (st : State) (n : Z) : State :=
  mkState (this st) (owner st) n (sessionCounter st) (platformFee st)
    (platformWallet st) (listings st) (sessions st) (userListings st)
    (userSessions st) (token st) (eth st).

Definition set_sessionCounter (st : State) (n : Z) : State :=
  mkState (this st) (owner st) (listingCounter st) n (platformFee st)
    (platformWallet st) (listings st) (sessions st) (userListings st)
    (userSessions st) (token st) (eth st).

Definition set_platformFee (st : State) (f : Z) : State :=
  mkState (this st) (owner st) (listingCounter st) (sessionCounter st) f
    (platformWallet st) (listings st) (sessions st) (userListings st)
    (userSessions st) (token st) (eth st).

Definition set_platformWallet (st : State) (w : address) : State :=
  mkState (this st) (owner st) (listingCounter st) (sessionCounter st)
    (platformFee st) w (listings st) (sessions st) (userListings st)
    (userSessions st) (token st) (eth st).

Definition set_listing (st : State) (id : Z) (l : Listing.t) : State :=
  mkState (this st) (owner st) (listingCounter st) (sessionCounter st)
    (platformFee st) (platformWallet st) (<[id := l]> (listings st))
    (sessions st) (userListings st) (userSessions st) (token st) (eth st).

Definition set_session (st : State) (id : Z) (s : Session.t) : State :=
  mkState (this st) (owner st) (listingCounter st) (sessionCounter st)
    (platformFee st) (platformWallet st) (listings st)
    (<[id := s]> (sessions st)) (userListings st) (userSessions st)
    (token st) (eth st).

Definition push_userListing (st : State) (a : address) (id : Z) : State :=
  mkState (this st) (owner st) (listingCounter st) (sessionCounter st)
    (platformFee st) (platformWallet st) (listings st) (sessions st)
    (<[a := default [] (userListings st !! a) ++ [id]]> (userListings st))
    (userSessions st) (token st) (eth st).

Definition push_userSession (st : State) (a : address) (id : Z) : State :=
  mkState (this st) (owner st) (listingCounter st) (sessionCounter st)
    (platformFee st) (platformWallet st) (listings st) (sessions st)
    (userListings st)
    (<[a := default [] (userSessions st !! a) ++ [id]]> (userSessions st))
    (token st) (eth st).

Definition set_token (st : State) (t : Ledger.t) : State :=
  mkState (this st) (owner st) (listingCounter st) (sessionCounter st)
    (platformFee st) (platformWallet st) (listings st) (sessions st)
    (userListings st) (userSessions st) t (eth st).

Definition set_eth (st : State) (e : gmap address Z) : State :=
  mkState (this st) (owner st) (listingCounter st) (sessionCounter st)
    (platformFee st) (platformWallet st) (listings st) (sessions st)
    (userListings st) (userSessions st) (token st) e.

Definition tokenTransfer (st : State) (from to : address) (id q : Z)
  : result State :=
  t <- Ledger.safeTransferFrom (token st) (this st) from to id q ;;
  Ok (set_token st t).

Definition pay (st : State) (to : address) (v : Z) : result State :=
  e <- ethMove (eth st) (this st) to v ;;
  Ok (set_eth st e).

Definition onlyLender (st : State) (m : Msg) (listingId : Z) : result unit :=
  require (Listing.lender (listings st !!! listingId) =? sender m)
          "Not the lender".

Definition onlyActiveListing (st : State) (listingId : Z) : result unit :=
  require (Listing.isActive (listings st !!! listingId))
          "Listing is not active".

Definition onlyOwner (st : State) (m : Msg) : result unit :=
  require (owner st =? sender m) "Ownable: caller is not the owner".

Definition constructor (self deployer _subscriptionToken _platformWallet : address)
    (_platformFee : Z) (tok : Ledger.t) (e : gmap address Z) : result State :=
  require (negb (_subscriptionToken =? 0)) "Invalid token address" ;;;
  require (negb (_platformWallet =? 0)) "Invalid platform wallet" ;;;
  require (_platformFee <? 10000) "Fee too high" ;;;
  Ok (mkState self deployer 0 0 _platformFee _platformWallet ∅ ∅ ∅ ∅ tok e).

Definition createListing (st : State) (m : Msg) (tokenId pricePerUnit units : Z)
  : result State :=
  require (0 <? units) "Must list at least one unit" ;;;
  require (0 <? pricePerUnit) "Price must be greater than 0" ;;;
  (* Check token ownership and approval *)
  require (units <=? Ledger.balanceOf (token st) (sender m) tokenId)
          "Insufficient token balance" ;;;
  require (Ledger.isApprovedForAll (token st) (sender m) (this st))
          "Contract not approved to transfer tokens" ;;;
  (* Create new listing *)
  listingId <- add (listingCounter st) 1 ;;
  let st1 := set_listingCounter st listingId in
  let st2 := set_listing st1 listingId
               (Listing.mk (sender m) tokenId pricePerUnit units true) in
  Ok (push_userListing st2 (sender m) listingId).

Definition cancelListing (st : State) (m : Msg) (listingId : Z) : result State :=
  onlyLender st m listingId ;;;
  onlyActiveListing st listingId ;;;
  Ok (set_listing st listingId
        (Listing.set_isActive (listings st !!! listingId) false)).

Definition _distributePayment (st : State) (lender : address) (amount : Z)
  : result State :=
  fl <- feeSplit amount (platformFee st) ;;
  let platformAmount := fst fl in
  let lenderAmount := snd fl in
  (* Transfer to platform wallet *)
  st1 <- (if 0 <? platformAmount then pay st (platformWallet st) platformAmount
          else Ok st) ;;
  (* Transfer to lender *)
  if 0 <? lenderAmount then pay st1 lender lenderAmount else Ok st1.

Definition startSession (st : State) (m : Msg) (listingId units duration value : Z)
  : result State :=
  onlyActiveListing st listingId ;;;
  let listing := listings st !!! listingId in
  require (0 <? units) "Must borrow at least one unit" ;;;
  require (units <=? Listing.availableUnits listing) "Not enough units available" ;;;
  require (0 <? duration) "Duration must be greater than 0" ;;;
  (* Calculate total price and check payment *)
  c <- mul (Listing.pricePerUnit listing) units ;;
  totalPrice <- mul c duration ;;
  require (totalPrice <=? value) "Insufficient payment" ;;;
  (* Transfer tokens to escrow *)
  st1 <- tokenTransfer st (Listing.lender listing) (this st)
                       (Listing.tokenId listing) units ;;
  (* Update listing *)
  avail <- sub (Listing.availableUnits listing) units ;;
  let st2 := set_listing st1 listingId
               (Listing.set_availableUnits listing avail) in
  (* Create session *)
  sessionId <- add (sessionCounter st2) 1 ;;
  endTime <- add (timestamp m) duration ;;
  let st3 := set_session (set_sessionCounter st2 sessionId) sessionId
               (Session.mk (sender m) listingId units (timestamp m) endTime
                           true) in
  let st4 := push_userSession st3 (sender m) sessionId in
  (* Distribute payment *)
  st5 <- _distributePayment st4 (Listing.lender listing) totalPrice ;;
  (* Refund excess payment *)
  if totalPrice <? value then
    r <- sub value totalPrice ;; pay st5 (sender m) r
  else Ok st5.

Definition endSession (st : State) (m : Msg) (sessionId : Z) : result State :=
  let session := sessions st !!! sessionId in
  require (Session.isActive session) "Session is not active" ;;;
  require ((sender m =? Session.borrower session) || (sender m =? owner st))
          "Not authorized to end session" ;;;
  (* Mark session as inactive *)
  let st1 := set_session st sessionId (Session.set_isActive session false) in
  (* Get listing and token info *)
  let listing := listings st1 !!! Session.listingId session in
  (* Calculate actual duration used *)
  actualDuration <-
    (if Session.endTime session <? timestamp m
     then sub (Session.endTime session) (Session.startTime session)
     else sub (timestamp m) (Session.startTime session)) ;;
  (* Calculate refund (if any) *)
  pu <- mul (Listing.pricePerUnit listing) (Session.units session) ;;
  d <- sub (Session.endTime session) (Session.startTime session) ;;
  totalPaid <- mul pu d ;;
  amountOwed <- mul pu actualDuration ;;
  (* Return tokens to lender *)
  st2 <- tokenTransfer st1 (this st1) (Listing.lender listing)
                       (Listing.tokenId listing) (Session.units session) ;;
  (* Process refund if needed *)
  if amountOwed <? totalPaid then
    refundAmount <- sub totalPaid amountOwed ;;
    pr <- mul refundAmount (platformFee st2) ;;
    let platformRefund := pr / 10000 in
    lenderRefund <- sub refundAmount platformRefund ;;
    (* Transfer refunds *)
    st3 <- (if 0 <? lenderRefund then pay st2 (Listing.lender listing) lenderRefund
            else Ok st2) ;;
    if 0 <? platformRefund then pay st3 (platformWallet st3) platformRefund
    else Ok st3
  else Ok st2.

Definition updatePlatformFee (st : State) (m : Msg) (newFee : Z) : result State :=
  onlyOwner st m ;;;
  require (newFee <? 10000) "Fee too high" ;;;
  Ok (set_platformFee st newFee).

Definition updatePlatformWallet (st : State) (m : Msg) (newWallet : address)
  : result State :=
  onlyOwner st m ;;;
  require (negb (newWallet =? 0)) "Invalid address" ;;;
  Ok (set_platformWallet st newWallet).

(** [result[index] = v] on a memory array: out of bounds panics. *)
Definition store (res : list Listing.t) (index : Z) (v : Listing.t)
  : result (list Listing.t) :=
  if (0 <=? index) && (index <? Z.of_nat (length res))
  then Ok (<[Z.to_nat index := v]> res)
  else Err Panic.

(** [getActiveListings(offset, limit)], a view. *)
Definition getActiveListings (st : State) (offset limit : Z)
  : result (list Listing.t) :=
  s <- add offset limit ;;
  let max := if listingCounter st <? s then listingCounter st else s in
  start <- add offset 1 ;;
  let fuel := Z.to_nat (max + 1 - start) in
  (* Count active listings in range *)
  count <- for_loop fuel start max
             (fun i count =>
                if Listing.isActive (listings st !!! i) then add count 1
                else Ok count) 0 ;;
  (* Create and populate result array *)
  let res := replicate (Z.to_nat count) Listing.zero in
  r <- for_loop fuel start max
         (fun i '(res, index) =>
            if Listing.isActive (listings st !!! i) then
              res' <- store res index (listings st !!! i) ;;
              index' <- add index 1 ;;
              Ok (res', index')
            else Ok (res, index)) (res, 0) ;;
  Ok (fst r).

Inductive Call : Type :=
| CreateListing (tokenId pricePerUnit units : Z)
| CancelListing (listingId : Z)
| StartSession (listingId units duration value : Z)
| EndSession (sessionId : Z)
| UpdatePlatformFee (newFee : Z)
| UpdatePlatformWallet (newWallet : address).

Definition run (st : State) (m : Msg) (c : Call) : result State :=
  match c with
  | CreateListing tokenId pricePerUnit units =>
      createListing st m tokenId pricePerUnit units
  | CancelListing listingId => cancelListing st m listingId
  | StartSession listingId units duration value =>
      e <- ethMove (eth st) (sender m) (this st) value ;;
      startSession (set_eth st e) m listingId units duration value
  | EndSession sessionId => endSession st m sessionId
  | UpdatePlatformFee newFee => updatePlatformFee st m newFee
  | UpdatePlatformWallet w => updatePlatformWallet st m w
  end.

Definition execute (st : State) (m : Msg) (c : Call) : State * receipt :=
  match run st m c with
  | Ok st' => (st', Success)
  | Err e => (st, Reverted e)
  end.

End Prorated.

(** ** Notions used to state and prove the properties *)

(** The iterations of a [for] loop, as a fold over the visited indices. *)
Fixpoint foldlM {A : Type} (body : Z -> A -> result A) (acc : A) (ids : list Z)
  : result A :=
  match ids with
  | [] => Ok acc
  | i :: ids' => acc' <- body i acc ;; foldlM body acc' ids'
  end.

(** The two loop bodies of [Prorated.getActiveListings], and the listings
    it is expected to return for the indices [ids]. *)
Definition activeAt (st : Prorated.State) (i : Z) : bool :=
  Prorated.Listing.isActive (Prorated.listings st !!! i).

Definition countBody (st : Prorated.State) (i count : Z) : result Z :=
  if Prorated.Listing.isActive (Prorated.listings st !!! i)
  then add count 1 else Ok count.

Definition fillBody (st : Prorated.State) (i : Z)
    (a : list Prorated.Listing.t * Z) : result (list Prorated.Listing.t * Z) :=
  let '(res, index) := a in
  if Prorated.Listing.isActive (Prorated.listings st !!! i) then
    res' <- Prorated.store res index (Prorated.listings st !!! i) ;;
    index' <- add index 1 ;;
    Ok (res', index')
  else Ok (res, index).

Definition activeIn (st : Prorated.State) (ids : list Z)
  : list Prorated.Listing.t :=
  map (fun i => Prorated.listings st !!! i) (List.filter (activeAt st) ids).

(** [credited a b q] is [q] for the account [b] itself and [0] for every
    other account: the change of the balance of [a] when [q] is paid to
    [b].  [credited2] is the same for a ledger entry (holder, batch). *)
Definition credited (a b : address) (q : Z) : Z :=
  if a =? b then q else 0.

Definition credited2 (h : address) (i : Z) (h' : address) (i' : Z) (q : Z) : Z :=
  if (h =? h') && (i =? i') then q else 0.

(** ** A worked scenario

    The engine is account 100, its owner and platform wallet account 9 (fee
    500 basis points), the token contract account 50.  Lender 1 holds 12
    units of batch 7 and has approved the engine; borrower 2 holds Ether. *)

Module Scenario.

Definition ledger0 : Ledger.t :=
  Ledger.mk {[ (1, 7) := 12 ]} {[ (1, 100) := true ]}.

Definition ether0 : gmap address Z := {[ 2 := 1000000 ]}.

Definition lender : Msg := mkMsg 1 1000.
Definition borrower (now : Z) : Msg := mkMsg 2 now.

(** First body. *)
Definition s0 : Simple.State :=
  Simple.mkState 100 9 false 0 0 500 86400 (365 * 86400) 9 ∅ ∅ ∅ ∅
                 ledger0 ether0.

(** The lender lists 10 units at price 1 for one to two days. *)
Definition s1 : Simple.State :=
  fst (Simple.execute s0 lender (Simple.CreateListing 7 1 10 86400 172800)).

(** The borrower rents 2 units for one day at time 2000, paying 172800. *)
Definition s2 : Simple.State :=
  fst (Simple.execute s1 (borrower 2000) (Simple.StartSession 1 2 86400 172800)).

(** The borrower approves the engine on the ledger. *)
Definition approve_borrower (st : Simple.State) : Simple.State :=
  Simple.set_env st (Simple.owner st)
    (Ledger.mk (Ledger.balances (Simple.token st))
               (<[(2, 100) := true]> (Ledger.approvals (Simple.token st))))
    (Simple.eth st).

(** ... and closes the session when it is due. *)
Definition s3 : Simple.State :=
  fst (Simple.execute (approve_borrower s2) (borrower 88400) (Simple.EndSession 1)).

(** Variant: the lender cancels the listing while the session is open, then
    the borrower closes the session. *)
Definition s2c : Simple.State :=
  fst (Simple.execute s2 (mkMsg 1 3000) (Simple.CancelListing 1)).

Definition s4 : Simple.State :=
  fst (Simple.execute (approve_borrower s2c) (borrower 88400) (Simple.EndSession 1)).

(** Second body.  [funds] is the Ether the engine account holds at
    deployment. *)
Definition p0 (funds : Z) : Prorated.State :=
  Prorated.mkState 100 9 0 0 500 9 ∅ ∅ ∅ ∅
                   (Ledger.mk {[ (1, 7) := 10 ]} {[ (1, 100) := true ]})
                   {[ 2 := 1000; 100 := funds ]}.

Definition p1 (funds : Z) : Prorated.State :=
  fst (Prorated.execute (p0 funds) lender (Prorated.CreateListing 7 1 10)).

(** The borrower rents 2 units for 100 seconds at time 1000, paying 200. *)
Definition p2 (funds : Z) : Prorated.State :=
  fst (Prorated.execute (p1 funds) (borrower 1000)
                        (Prorated.StartSession 1 2 100 200)).

End Scenario.

(** Units out on the open sessions among [ids] that reference listing
    [id]; [Simple.openUnits] is this sum over [1 .. sessionCounter]. *)
Definition sumLoad (ss : gmap Z Simple.Session.t) (id : Z) (ids : list Z) : Z :=
  foldr (fun sid acc => Simple.sessionLoad ss id sid + acc) 0 ids.

(** The accounting invariant of the first body.  Counters and stored
    quantities are [uint256]; listings and sessions beyond the counters are
    untouched; an open session refers to a created listing; and for each
    listing the rented quantity [totalUnits - availableUnits] covers the
    units out on its open sessions, exactly so while the listing is active. *)
Record Inv (st : Simple.State) : Prop := mkInv {
  inv_lc : uint256 (Simple.listingCounter st);
  inv_sc : uint256 (Simple.sessionCounter st);
  inv_bounds : forall id,
    0 <= Simple.Listing.availableUnits (Simple.listings st !!! id)
      <= Simple.Listing.totalUnits (Simple.listings st !!! id) /\
    Simple.Listing.totalUnits (Simple.listings st !!! id) <= MAX_UINT256;
  inv_listing_range : forall id,
    Simple.Listing.isActive (Simple.listings st !!! id) = true ->
    1 <= id <= Simple.listingCounter st;
  inv_session_range : forall sid,
    Simple.Session.isActive (Simple.sessions st !!! sid) = true ->
    1 <= sid <= Simple.sessionCounter st /\
    1 <= Simple.Session.listingId (Simple.sessions st !!! sid)
      <= Simple.listingCounter st;
  inv_units : forall sid,
    0 <= Simple.Session.units (Simple.sessions st !!! sid);
  inv_rented : forall id,
    Simple.openUnits st id
      <= Simple.Listing.totalUnits (Simple.listings st !!! id)
         - Simple.Listing.availableUnits (Simple.listings st !!! id);
  inv_rented_active : forall id,
    Simple.Listing.isActive (Simple.listings st !!! id) = true ->
    Simple.Listing.totalUnits (Simple.listings st !!! id)
      - Simple.Listing.availableUnits (Simple.listings st !!! id)
    = Simple.openUnits st id
}.

From Stdlib Require Import Sorted.

(** ** Further entry points of the two bodies *)

(** The read-only queries of the first body. *)
Module SimpleQueries.

(** [getListingsByLender(lender)]: the array [userListings[lender]]. *)
Definition getListingsByLender (st : Simple.State) (lender : address) : list Z :=
  default [] (Simple.userListings st !! lender).

(** [getSessionsByBorrower(borrower)]: the array [userSessions[borrower]]. *)
Definition getSessionsByBorrower (st : Simple.State) (borrower : address) : list Z :=
  default [] (Simple.userSessions st !! borrower).

End SimpleQueries.

(** [for (uint256 i = start; i < bound; i++) body], the loop over the
    indices of an array. *)
Fixpoint for_below {A : Type} (fuel : nat) (i bound : Z)
    (body : Z -> A -> result A) (acc : A) : result A :=
  if i <? bound then
    match fuel with
    | O => Err OutOfGas
    | S fuel' =>
        acc' <- body i acc ;;
        i' <- add i 1 ;;
        for_below fuel' i' bound body acc'
    end
  else Ok acc.

Module ProratedQueries.

(** [sessionIds[i]] on a storage array: out of bounds panics. *)
Definition at_index (sessionIds : list Z) (i : Z) : result Z :=
  if (0 <=? i) && (i <? Z.of_nat (length sessionIds))
  then Ok (nth (Z.to_nat i) sessionIds 0)
  else Err Panic.

(** [result[index] = v] on a memory array of sessions. *)
Definition store (res : list Prorated.Session.t) (index : Z)
    (v : Prorated.Session.t) : result (list Prorated.Session.t) :=
  if (0 <=? index) && (index <? Z.of_nat (length res))
  then Ok (<[Z.to_nat index := v]> res)
  else Err Panic.

(** [getUserSessions(user)], a view: the active sessions among
    [userSessions[user]]. *)
Definition getUserSessions (st : Prorated.State) (user : address)
  : result (list Prorated.Session.t) :=
  let sessionIds := default [] (Prorated.userSessions st !! user) in
  let len := Z.of_nat (length sessionIds) in
  let fuel := length sessionIds in
  (* Count active sessions *)
  count <- for_below fuel 0 len
             (fun i count =>
                sid <- at_index sessionIds i ;;
                if Prorated.Session.isActive (Prorated.sessions st !!! sid)
                then add count 1 else Ok count) 0 ;;
  (* Create and populate result array *)
  let res := replicate (Z.to_nat count) Prorated.Session.zero in
  r <- for_below fuel 0 len
         (fun i '(res, index) =>
            sid <- at_index sessionIds i ;;
            if Prorated.Session.isActive (Prorated.sessions st !!! sid) then
              sid' <- at_index sessionIds i ;;
              res' <- store res index (Prorated.sessions st !!! sid') ;;
              index' <- add index 1 ;;
              Ok (res', index')
            else Ok (res, index)) (res, 0) ;;
  Ok (fst r).

End ProratedQueries.

(** Several steps of the first body in a row. *)
Definition steps : Simple.State -> Simple.State -> Prop := rtc Simple.step.

(** What the deployment and the administrative calls keep of the
    configuration. *)
Record Configured (st : Simple.State) : Prop := mkConfigured {
  cfg_fee : 0 <= Simple.platformFee st < Simple.BASIS_POINTS;
  cfg_wallet : Simple.platformWallet st <> 0;
  cfg_durations : 0 < Simple.minRentalDuration st < Simple.maxRentalDuration st
}.

(** What every listing and every session on record satisfies. *)
Record Recorded (st : Simple.State) : Prop := mkRecorded {
  rec_listing : forall id,
    1 <= id <= Simple.listingCounter st ->
    0 < Simple.Listing.pricePerUnit (Simple.listings st !!! id) /\
    0 < Simple.Listing.minDuration (Simple.listings st !!! id)
      <= Simple.Listing.maxDuration (Simple.listings st !!! id);
  rec_session : forall sid,
    1 <= sid <= Simple.sessionCounter st ->
    0 < Simple.Session.units (Simple.sessions st !!! sid) /\
    Simple.Session.startTime (Simple.sessions st !!! sid)
      < Simple.Session.endTime (Simple.sessions st !!! sid) /\
    0 < Simple.Session.totalPaid (Simple.sessions st !!! sid) /\
    1 <= Simple.Session.listingId (Simple.sessions st !!! sid)
      <= Simple.listingCounter st
}.

(** [st'] continues [st]: ids are not reused, what identifies a listing or a
    session on record does not change, and nothing inactive becomes active
    again. *)
Record Continues (st st' : Simple.State) : Prop := mkContinues {
  cont_lc : Simple.listingCounter st <= Simple.listingCounter st';
  cont_sc : Simple.sessionCounter st <= Simple.sessionCounter st';
  cont_listing : forall id,
    1 <= id <= Simple.listingCounter st ->
    let l := Simple.listings st !!! id in
    let l' := Simple.listings st' !!! id in
    Simple.Listing.lender l' = Simple.Listing.lender l /\
    Simple.Listing.tokenId l' = Simple.Listing.tokenId l /\
    Simple.Listing.createdAt l' = Simple.Listing.createdAt l /\
    (Simple.Listing.isActive l = false -> Simple.Listing.isActive l' = false);
  cont_session : forall sid,
    1 <= sid <= Simple.sessionCounter st ->
    let s := Simple.sessions st !!! sid in
    let s' := Simple.sessions st' !!! sid in
    Simple.Session.set_isActive s' false = Simple.Session.set_isActive s false /\
    (Simple.Session.isActive s = false -> Simple.Session.isActive s' = false)
}.

(** The per-account indices list the ids on record of that account, in the
    order of creation. *)
Definition ListingsIndexed (st : Simple.State) : Prop :=
  (forall a id,
     id ∈ SimpleQueries.getListingsByLender st a <->
     1 <= id <= Simple.listingCounter st /\
     Simple.Listing.lender (Simple.listings st !!! id) = a) /\
  (forall a, StronglySorted Z.lt (SimpleQueries.getListingsByLender st a)).

Definition SessionsIndexed (st : Simple.State) : Prop :=
  (forall a sid,
     sid ∈ SimpleQueries.getSessionsByBorrower st a <->
     1 <= sid <= Simple.sessionCounter st /\
     Simple.Session.borrower (Simple.sessions st !!! sid) = a) /\
  (forall a, StronglySorted Z.lt (SimpleQueries.getSessionsByBorrower st a)).

(** The open sessions of [user] that [getUserSessions] is expected to
    return. *)
Definition openSessionsOf (st : Prorated.State) (ids : list Z)
  : list Prorated.Session.t :=
  map (fun sid => Prorated.sessions st !!! sid)
      (List.filter
         (fun sid => Prorated.Session.isActive (Prorated.sessions st !!! sid))
         ids).

(** The bodies of the two loops of [getUserSessions], on a session id. *)
Definition countSession (st : Prorated.State) (sid count : Z) : result Z :=
  if Prorated.Session.isActive (Prorated.sessions st !!! sid)
  then add count 1 else Ok count.

Definition fillSession (st : Prorated.State) (sid : Z)
    (acc : list Prorated.Session.t * Z)
  : result (list Prorated.Session.t * Z) :=
  let '(res, index) := acc in
  if Prorated.Session.isActive (Prorated.sessions st !!! sid) then
    res' <- ProratedQueries.store res index (Prorated.sessions st !!! sid) ;;
    index' <- add index 1 ;;
    Ok (res', index')
  else Ok (res, index).

(** ** A second lender of the same batch

    After the rental of the scenario has been closed, account 3 obtains 5
    units of batch 7, approves the engine and lists them; then lender 1
    cancels the first listing. *)

Module Pool.

Definition second_lender (st : Simple.State) : Simple.State :=
  Simple.set_env st (Simple.owner st)
    (Ledger.mk (<[(3, 7) := 5]> (Ledger.balances (Simple.token st)))
               (<[(3, 100) := true]> (Ledger.approvals (Simple.token st))))
    (Simple.eth st).

Definition s5 : Simple.State :=
  fst (Simple.execute (second_lender Scenario.s3) (mkMsg 3 90000)
                      (Simple.CreateListing 7 1 5 86400 172800)).

Definition s6 : Simple.State :=
  fst (Simple.execute s5 (mkMsg 1 91000) (Simple.CancelListing 1)).

End Pool.
(** * Properties *)

(** ** The error monad and checked arithmetic *)

Section MonadFacts.
Context {A B : Type}.

Lemma bind_Ok (c : result A) (k : A -> result B) (b : B) :
  bind c k = Ok b -> exists a, c = Ok a /\ k a = Ok b.
Proof. destruct c as [a|e]; simpl; [eauto | discriminate]. Qed.

Lemma bind_Err (c : result A) (k : A -> result B) (e : error) :
  c = Err e -> bind c k = Err e.
Proof. intros ->; reflexivity. Qed.

Lemma bind_ret (c : result A) (k : A -> result B) (a : A) :
  c = Ok a -> bind c k = k a.
Proof. intros ->; reflexivity. Qed.

End MonadFacts.

Lemma require_Ok b msg u : require b msg = Ok u -> b = true.
Proof. destruct b; simpl; [reflexivity | discriminate]. Qed.

Lemma require_true msg : require true msg = Ok tt.
Proof. reflexivity. Qed.

Lemma require_false msg : require false msg = Err (ErrorString msg).
Proof. reflexivity. Qed.

Lemma add_Ok a b c : add a b = Ok c -> c = a + b /\ a + b <= MAX_UINT256.
Proof.
  unfold add; destruct (Z.leb_spec (a + b) MAX_UINT256); intros Heq;
    inversion Heq; auto.
Qed.

Lemma sub_Ok a b c : sub a b = Ok c -> c = a - b /\ b <= a.
Proof.
  unfold sub; destruct (Z.leb_spec b a); intros Heq; inversion Heq; auto.
Qed.

Lemma mul_Ok a b c : mul a b = Ok c -> c = a * b /\ a * b <= MAX_UINT256.
Proof.
  unfold mul; destruct (Z.leb_spec (a * b) MAX_UINT256); intros Heq;
    inversion Heq; auto.
Qed.

Lemma add_fits a b : a + b <= MAX_UINT256 -> add a b = Ok (a + b).
Proof. intros H; unfold add; destruct (Z.leb_spec (a + b) MAX_UINT256); [reflexivity | lia]. Qed.

Lemma sub_fits a b : b <= a -> sub a b = Ok (a - b).
Proof. intros H; unfold sub; destruct (Z.leb_spec b a); [reflexivity | lia]. Qed.

Lemma mul_fits a b : a * b <= MAX_UINT256 -> mul a b = Ok (a * b).
Proof. intros H; unfold mul; destruct (Z.leb_spec (a * b) MAX_UINT256); [reflexivity | lia]. Qed.

Lemma mul_overflow a b : MAX_UINT256 < a * b -> mul a b = Err Panic.
Proof. intros H; unfold mul; destruct (Z.leb_spec (a * b) MAX_UINT256); [lia | reflexivity]. Qed.

(** Decompose a successful computation into its successful steps. *)
Ltac inv_ok :=
  repeat match goal with
  | H : bind _ _ = Ok _ |- _ =>
      let a := fresh "v" in
      let E := fresh "E" in
      apply bind_Ok in H; destruct H as (a & E & H)
  | H : require _ _ = Ok _ |- _ => apply require_Ok in H
  | H : add _ _ = Ok _ |- _ => apply add_Ok in H; destruct H as [-> H]
  | H : sub _ _ = Ok _ |- _ => apply sub_Ok in H; destruct H as [-> H]
  | H : mul _ _ = Ok _ |- _ => apply mul_Ok in H; destruct H as [-> H]
  | H : Ok _ = Ok _ |- _ => injection H as H
  | H : Err _ = Ok _ |- _ => discriminate H
  end.

(** ** The fee split *)

Lemma feeSplit_Ok amount fee p l :
  feeSplit amount fee = Ok (p, l) ->
  p = amount * fee / 10000 /\ l = amount - p /\ p <= amount /\
  amount * fee <= MAX_UINT256.
Proof.
  unfold feeSplit; intros H; inv_ok.
  subst; repeat split; auto.
Qed.

Lemma fee_floor_le amount fee :
  0 <= amount -> 0 <= fee < 10000 -> 0 <= amount * fee / 10000 <= amount.
Proof.
  intros Ha Hf; split.
  - apply Z.div_pos; nia.
  - apply Z.div_le_upper_bound; nia.
Qed.

Lemma feeSplit_fits amount fee :
  0 <= amount -> 0 <= fee < 10000 -> amount * fee <= MAX_UINT256 ->
  feeSplit amount fee =
    Ok (amount * fee / 10000, amount - amount * fee / 10000).
Proof.
  intros Ha Hf Hm; unfold feeSplit.
  rewrite (mul_fits _ _ Hm); simpl.
  rewrite sub_fits; [reflexivity | apply fee_floor_le; assumption].
Qed.

(** C3, as stated, fails: a [uint256] total whose product with the fee rate
    leaves 256 bits makes the checked multiplication panic, and no split is
    computed. *)
Lemma feeSplit_overflow_counterexample :
  uint256 (2 ^ 255) /\ 0 <= 2 < 10000 /\ feeSplit (2 ^ 255) 2 = Err Panic.
Proof.
  split; [|split].
  - unfold uint256, MAX_UINT256; lia.
  - lia.
  - reflexivity.
Qed.

(** Closed numeric side conditions. *)
Ltac by_compute :=
  repeat match goal with
  | |- _ /\ _ => split
  | |- uint256 _ => unfold uint256
  | |- Simple.valid_call _ => unfold Simple.valid_call
  | |- True => exact I
  | |- _ <= _ => apply Z.leb_le; vm_compute; reflexivity
  | |- _ < _ => apply Z.ltb_lt; vm_compute; reflexivity
  | |- _ = _ => vm_compute; reflexivity
  end.

(** Turn the boolean tests left by [require] into propositions. *)
Ltac boolify :=
  repeat match goal with
  | H : (_ <? _) = true |- _ => apply Z.ltb_lt in H
  | H : (_ <=? _) = true |- _ => apply Z.leb_le in H
  | H : (_ =? _) = true |- _ => apply Z.eqb_eq in H
  | H : (_ <? _) = false |- _ => apply Z.ltb_ge in H
  | H : (_ <=? _) = false |- _ => apply Z.leb_gt in H
  | H : (_ =? _) = false |- _ => apply Z.eqb_neq in H
  | H : negb _ = true |- _ => apply negb_true_iff in H
  | H : negb _ = false |- _ => apply negb_false_iff in H
  | H : _ && _ = true |- _ => apply andb_true_iff in H; destruct H
  end.

(** ** Loops *)

Lemma seqZ_step (m n : Z) : 0 < n -> seqZ m n = m :: seqZ (m + 1) (n - 1).
Proof.
  intros Hn. rewrite (seqZ_cons m n) by lia.
  unfold Z.succ, Z.pred. reflexivity.
Qed.

Lemma seqZ_empty (m n : Z) : n <= 0 -> seqZ m n = [].
Proof. intros Hn. apply seqZ_nil; lia. Qed.

(** With fuel for every index of the range, and a bound below the largest
    [uint256], the loop runs to completion over [i .. max]. *)
Lemma for_loop_foldlM {A : Type} (body : Z -> A -> result A) (max : Z) :
  max < MAX_UINT256 ->
  forall (fuel : nat) (i : Z) (acc : A),
    (Z.to_nat (max + 1 - i) <= fuel)%nat ->
    for_loop fuel i max body acc = foldlM body acc (seqZ i (max + 1 - i)).
Proof.
  intros Hmax fuel; induction fuel as [|fuel IH]; intros i acc Hfuel; simpl.
  - destruct (Z.ltb_spec max i) as [Hlt|Hge].
    + rewrite seqZ_empty by lia. reflexivity.
    + lia.
  - destruct (Z.ltb_spec max i) as [Hlt|Hge].
    + rewrite seqZ_empty by lia. reflexivity.
    + rewrite (seqZ_step i (max + 1 - i)) by lia. simpl.
      destruct (body i acc) as [acc'|e]; simpl; [|reflexivity].
      rewrite add_fits by lia. simpl.
      rewrite IH by lia. f_equal. f_equal. lia.
Qed.

(** A loop whose bound is the largest [uint256] never completes: the
    increment after the last index overflows. *)
Lemma for_loop_max_err {A : Type} (body : Z -> A -> result A) :
  forall (fuel : nat) (i : Z) (acc : A),
    i <= MAX_UINT256 ->
    exists e, for_loop fuel i MAX_UINT256 body acc = Err e.
Proof.
  intros fuel; induction fuel as [|fuel IH]; intros i acc Hi; simpl.
  - destruct (Z.ltb_spec MAX_UINT256 i) as [Hlt|Hge]; [lia | eauto].
  - destruct (Z.ltb_spec MAX_UINT256 i) as [Hlt|Hge]; [lia |].
    destruct (body i acc) as [acc'|e]; simpl; [|eauto].
    unfold add. destruct (Z.leb_spec (i + 1) MAX_UINT256) as [Hle|Hgt]; simpl.
    + apply IH. lia.
    + eauto.
Qed.

Section ActiveListings.
Import Prorated.
Variable st : State.

Lemma activeIn_length ids : (length (activeIn st ids) <= length ids)%nat.
Proof.
  unfold activeIn. rewrite length_map.
  induction ids as [|i ids IH]; simpl; [lia|].
  destruct (activeAt st i); simpl; lia.
Qed.

Lemma count_loop ids : forall c : Z,
  c + Z.of_nat (length ids) <= MAX_UINT256 ->
  foldlM (countBody st) c ids = Ok (c + Z.of_nat (length (activeIn st ids))).
Proof.
  induction ids as [|i ids IH]; intros c Hc; simpl.
  - f_equal; lia.
  - simpl in Hc. unfold countBody at 1. unfold activeIn, activeAt in *.
    simpl. destruct (Listing.isActive (listings st !!! i)); simpl.
    + rewrite add_fits by lia. simpl. rewrite IH by lia. f_equal; lia.
    + rewrite IH by lia. reflexivity.
Qed.

Lemma store_next (pre : list Listing.t) (k : nat) (v : Listing.t) :
  store (pre ++ replicate (S k) Listing.zero) (Z.of_nat (length pre)) v =
  Ok ((pre ++ [v]) ++ replicate k Listing.zero).
Proof.
  unfold store.
  rewrite length_app, length_replicate.
  destruct (Z.leb_spec 0 (Z.of_nat (length pre))); [|lia].
  destruct (Z.ltb_spec (Z.of_nat (length pre))
              (Z.of_nat (length pre + S k))); [|lia].
  simpl. rewrite Nat2Z.id.
  rewrite insert_app_r_alt by lia.
  rewrite Nat.sub_diag. simpl. rewrite <- app_assoc. reflexivity.
Qed.

Lemma fill_loop ids : forall (pre : list Listing.t) (k : nat),
  (length (activeIn st ids) <= k)%nat ->
  Z.of_nat (length pre + k) <= MAX_UINT256 ->
  foldlM (fillBody st) (pre ++ replicate k Listing.zero, Z.of_nat (length pre)) ids =
  Ok (pre ++ activeIn st ids ++
        replicate (k - length (activeIn st ids)) Listing.zero,
      Z.of_nat (length pre + length (activeIn st ids))).
Proof.
  induction ids as [|i ids IH]; intros pre k Hk Hmax; simpl.
  - rewrite Nat.sub_0_r, Nat.add_0_r. reflexivity.
  - unfold activeIn, activeAt in *. simpl in *.
    destruct (Listing.isActive (listings st !!! i)) eqn:Hact; simpl in *.
    + destruct k as [|k]; [lia|].
      rewrite store_next. simpl.
      rewrite add_fits by lia. simpl.
      replace (Z.of_nat (length pre) + 1)
        with (Z.of_nat (length (pre ++ [listings st !!! i])))
        by (rewrite length_app; simpl; lia).
      rewrite IH; [| lia | rewrite length_app; simpl; lia].
      rewrite length_app; simpl. rewrite <- !app_assoc. simpl.
      f_equal. f_equal. lia.
    + apply IH; assumption.
Qed.

Lemma getActiveListings_total (offset limit : Z) :
  0 <= offset -> 0 <= limit -> 0 <= listingCounter st ->
  offset + limit < MAX_UINT256 ->
  getActiveListings st offset limit =
    Ok (activeIn st (seqZ (offset + 1)
                       (Z.min (offset + limit) (listingCounter st) - offset))).
Proof.
  intros Ho Hl Hc Hsum. unfold getActiveListings.
  rewrite add_fits by lia. simpl.
  rewrite add_fits by lia. simpl.
  set (max := if listingCounter st <? offset + limit
              then listingCounter st else offset + limit).
  assert (Hmax : max = Z.min (offset + limit) (listingCounter st)).
  { unfold max. destruct (Z.ltb_spec (listingCounter st) (offset + limit)); lia. }
  set (ids := seqZ (offset + 1) (max + 1 - (offset + 1))).
  assert (Hlen : Z.of_nat (length ids) <= limit).
  { unfold ids. rewrite length_seqZ. lia. }
  change (fun i count : Z =>
            if Listing.isActive (listings st !!! i) then add count 1
            else Ok count) with (countBody st).
  rewrite (for_loop_foldlM (countBody st) max) by lia.
  fold ids. rewrite count_loop by lia. simpl.
  change (fun (i : Z) '(res, index) =>
            if Listing.isActive (listings st !!! i)
            then res' <- store res index (listings st !!! i) ;;
                 index' <- add index 1 ;; Ok (res', index')
            else Ok (res, index)) with (fillBody st).
  rewrite (for_loop_foldlM (fillBody st) max) by lia.
  fold ids. rewrite Z.add_0_l, Nat2Z.id.
  pose proof (activeIn_length ids) as Hact.
  pose proof (fill_loop ids [] (length (activeIn st ids))) as Hfill.
  simpl in Hfill. change (Z.of_nat 0) with 0 in Hfill.
  rewrite Hfill by lia. clear Hfill.
  simpl. rewrite Nat.sub_diag. simpl. rewrite app_nil_r.
  unfold ids. do 3 f_equal. lia.
Qed.

(** The same up to the last offset and limit the checked additions allow. *)
Lemma getActiveListings_served (offset limit : Z) :
  0 <= offset -> 0 <= limit -> 0 <= listingCounter st ->
  offset + limit <= MAX_UINT256 -> offset < MAX_UINT256 ->
  Z.min (offset + limit) (listingCounter st) < MAX_UINT256 ->
  getActiveListings st offset limit =
    Ok (activeIn st (seqZ (offset + 1)
                       (Z.min (offset + limit) (listingCounter st) - offset))).
Proof.
  intros Ho Hl Hc Hsum Hoff Hlast. unfold getActiveListings.
  rewrite add_fits by lia. simpl.
  rewrite add_fits by lia. simpl.
  set (max := if listingCounter st <? offset + limit
              then listingCounter st else offset + limit).
  assert (Hmax : max = Z.min (offset + limit) (listingCounter st)).
  { unfold max. destruct (Z.ltb_spec (listingCounter st) (offset + limit)); lia. }
  set (ids := seqZ (offset + 1) (max + 1 - (offset + 1))).
  assert (Hlen : Z.of_nat (length ids) <= limit).
  { unfold ids. rewrite length_seqZ. lia. }
  change (fun i count : Z =>
            if Listing.isActive (listings st !!! i) then add count 1
            else Ok count) with (countBody st).
  rewrite (for_loop_foldlM (countBody st) max) by lia.
  fold ids. rewrite count_loop by lia. simpl.
  change (fun (i : Z) '(res, index) =>
            if Listing.isActive (listings st !!! i)
            then res' <- store res index (listings st !!! i) ;;
                 index' <- add index 1 ;; Ok (res', index')
            else Ok (res, index)) with (fillBody st).
  rewrite (for_loop_foldlM (fillBody st) max) by lia.
  fold ids. rewrite Z.add_0_l, Nat2Z.id.
  pose proof (activeIn_length ids) as Hact.
  pose proof (fill_loop ids [] (length (activeIn st ids))) as Hfill.
  simpl in Hfill. change (Z.of_nat 0) with 0 in Hfill.
  rewrite Hfill by lia. clear Hfill.
  simpl. rewrite Nat.sub_diag. simpl. rewrite app_nil_r.
  unfold ids. do 3 f_equal. lia.
Qed.

(** [offset + limit] and [offset + 1] are checked. *)
Lemma getActiveListings_overflow (offset limit : Z) :
  0 <= limit ->
  MAX_UINT256 < offset + limit \/ offset = MAX_UINT256 ->
  getActiveListings st offset limit = Err Panic.
Proof.
  intros Hl Hbig. unfold getActiveListings, add.
  destruct (Z.leb_spec (offset + limit) MAX_UINT256) as [Hle|Hgt]; simpl;
    [| reflexivity].
  destruct (Z.leb_spec (offset + 1) MAX_UINT256) as [Hle1|Hgt1]; simpl;
    [lia | reflexivity].
Qed.

(** With [2^256 - 1] listings on record and a page that reaches the last
    one, the loop increment overflows. *)
Lemma getActiveListings_last_id (offset limit : Z) :
  offset < MAX_UINT256 ->
  offset + limit <= MAX_UINT256 ->
  Z.min (offset + limit) (listingCounter st) = MAX_UINT256 ->
  exists e, getActiveListings st offset limit = Err e.
Proof.
  intros Hoff Hsum Hlast. unfold getActiveListings.
  rewrite add_fits by lia. simpl.
  rewrite add_fits by lia. simpl.
  assert (Hmax : (if listingCounter st <? offset + limit
                  then listingCounter st else offset + limit) = MAX_UINT256).
  { destruct (Z.ltb_spec (listingCounter st) (offset + limit)); lia. }
  rewrite Hmax.
  match goal with
  | |- context [for_loop ?f ?i MAX_UINT256 ?b 0] =>
      destruct (for_loop_max_err b f i 0) as [e He]; [lia |]; rewrite He
  end.
  simpl. eauto.
Qed.

End ActiveListings.

(** C10 (amended): for every offset and limit whose sum [offset + limit]
    does not exceed the largest 256-bit integer, with [offset] and the last
    id of the page, [min (offset + limit) listingCounter], below it,
    [getActiveListings(offset, limit)] returns an array in which every
    listing has [isActive = true] and is the listing of an id between
    [offset + 1] and [min (offset + limit) listingCounter]; the array has at
    most [limit] entries, and it is empty when [offset >= listingCounter].
    When [offset + limit] overflows, or [offset] is the largest 256-bit
    integer, the call reverts with an arithmetic panic; it reverts as well
    when the last id of the page is the largest 256-bit integer. *)
Theorem getActiveListings_page (st : Prorated.State) (offset limit : Z) :
  uint256 offset -> uint256 limit -> uint256 (Prorated.listingCounter st) ->
  (offset + limit <= MAX_UINT256 -> offset < MAX_UINT256 ->
   Z.min (offset + limit) (Prorated.listingCounter st) < MAX_UINT256 ->
   exists r,
     Prorated.getActiveListings st offset limit = Ok r /\
     (forall l, In l r ->
        Prorated.Listing.isActive l = true /\
        exists id,
          offset + 1 <= id <= Z.min (offset + limit) (Prorated.listingCounter st) /\
          l = Prorated.listings st !!! id) /\
     Z.of_nat (length r) <= limit /\
     (Prorated.listingCounter st <= offset -> r = [])) /\
  (MAX_UINT256 < offset + limit \/ offset = MAX_UINT256 ->
   Prorated.getActiveListings st offset limit = Err Panic) /\
  (offset < MAX_UINT256 -> offset + limit <= MAX_UINT256 ->
   Z.min (offset + limit) (Prorated.listingCounter st) = MAX_UINT256 ->
   exists e, Prorated.getActiveListings st offset limit = Err e).
Proof.
  intros [Ho _] [Hl _] [Hc _].
  split; [| split].
  - intros Hsum Hoff Hlast.
    set (n := Z.min (offset + limit) (Prorated.listingCounter st) - offset).
    exists (activeIn st (seqZ (offset + 1) n)).
    split; [apply getActiveListings_served; assumption |].
    split; [|split].
    + intros l Hin. unfold activeIn in Hin.
      apply in_map_iff in Hin. destruct Hin as (id & <- & Hid).
      apply filter_In in Hid. destruct Hid as [Hid Hact].
      apply list_elem_of_In, elem_of_seqZ in Hid.
      split; [exact Hact |].
      exists id. split; [unfold n in Hid; lia | reflexivity].
    + pose proof (activeIn_length st (seqZ (offset + 1) n)) as Hlen.
      rewrite length_seqZ in Hlen.
      assert (Hn : n <= limit) by (unfold n; lia). lia.
    + intros Hge. rewrite seqZ_empty by (unfold n; lia). reflexivity.
  - intros Hbig. apply getActiveListings_overflow; assumption.
  - intros Hoff Hsum Hlast. apply getActiveListings_last_id; assumption.
Qed.

Lemma getActiveListings_page_witness :
  (exists r,
     Prorated.getActiveListings (Scenario.p1 0) 0 10 = Ok r /\
     Z.of_nat (length r) <= 10) /\
  (exists r,
     Prorated.getActiveListings (Scenario.p1 0) 0 MAX_UINT256 = Ok r /\
     Z.of_nat (length r) <= MAX_UINT256) /\
  Prorated.getActiveListings (Scenario.p1 0) MAX_UINT256 0 = Err Panic.
Proof.
  split; [| split].
  - destruct (getActiveListings_page (Scenario.p1 0) 0 10) as [Hok _];
      [by_compute .. |].
    destruct Hok as (r & E & _ & Hlen & _); [by_compute .. |].
    exists r. split; assumption.
  - destruct (getActiveListings_page (Scenario.p1 0) 0 MAX_UINT256) as [Hok _];
      [by_compute .. |].
    destruct Hok as (r & E & _ & Hlen & _); [by_compute .. |].
    exists r. split; assumption.
  - destruct (getActiveListings_page (Scenario.p1 0) MAX_UINT256 0)
      as (_ & Hrev & _); [by_compute .. |].
    apply Hrev. right. reflexivity.
Defined.

(** C10, as stated, fails: with [offset] the largest [uint256] no listing
    exists at all, yet the call does not return the empty array: with
    [limit = 1] the sum [offset + limit] panics, and with [limit = 0] the
    first index [offset + 1] does. *)
Lemma getActiveListings_overflow_counterexample :
  uint256 MAX_UINT256 /\ uint256 1 /\ uint256 0 /\
  Prorated.listingCounter (Scenario.p0 0) <= MAX_UINT256 /\
  Prorated.getActiveListings (Scenario.p0 0) MAX_UINT256 1 = Err Panic /\
  Prorated.getActiveListings (Scenario.p0 0) MAX_UINT256 0 = Err Panic.
Proof. by_compute. Qed.

(** ** The ledger and Ether transfers *)

Lemma balanceOf_setBalance (l : Ledger.t) (h : address) (id q : Z)
    (h' : address) (id' : Z) :
  Ledger.balanceOf (Ledger.setBalance l h id q) h' id' =
  if (h' =? h) && (id' =? id) then q else Ledger.balanceOf l h' id'.
Proof.
  unfold Ledger.balanceOf, Ledger.setBalance; simpl.
  destruct (Z.eqb_spec h' h) as [->|Hh]; simpl.
  - destruct (Z.eqb_spec id' id) as [->|Hi].
    + rewrite lookup_insert_eq. reflexivity.
    + rewrite lookup_insert_ne by congruence. reflexivity.
  - rewrite lookup_insert_ne by congruence. reflexivity.
Qed.

(** A successful transfer moves exactly [q]: the sender's entry loses [q],
    the receiver's gains [q], every other entry and every approval stays. *)
Lemma safeTransferFrom_Ok (l l' : Ledger.t) (caller from to : address) (id q : Z) :
  Ledger.safeTransferFrom l caller from to id q = Ok l' ->
  q <= Ledger.balanceOf l from id /\
  (caller = from \/ Ledger.isApprovedForAll l from caller = true) /\
  Ledger.approvals l' = Ledger.approvals l /\
  forall h i,
    Ledger.balanceOf l' h i =
    Ledger.balanceOf l h i + credited2 h i to id q - credited2 h i from id q.
Proof.
  unfold Ledger.safeTransferFrom.
  destruct (Z.ltb_spec (Ledger.balanceOf l from id) q) as [|Hq]; [discriminate|].
  destruct (negb (caller =? from) && negb (Ledger.isApprovedForAll l from caller))
    eqn:Hauth; [discriminate|].
  intros H; injection H as <-.
  split; [exact Hq | split; [|split]].
  - apply andb_false_iff in Hauth.
    destruct Hauth as [Hc|Ha]; apply negb_false_iff in Hc || apply negb_false_iff in Ha.
    + left. apply Z.eqb_eq. exact Hc.
    + right. exact Ha.
  - reflexivity.
  - intros h i. rewrite !balanceOf_setBalance. unfold credited2.
    destruct (Z.eqb_spec h to), (Z.eqb_spec h from), (Z.eqb_spec i id);
      simpl; subst; try lia;
      repeat (rewrite ?Z.eqb_refl; simpl);
      repeat match goal with
      | Hne : ?a <> ?b |- context [?a =? ?b] =>
          destruct (Z.eqb_spec a b); [contradiction|]; simpl
      end; lia.
Qed.

Lemma safeTransferFrom_fits (l : Ledger.t) (caller from to : address) (id q : Z) :
  q <= Ledger.balanceOf l from id ->
  caller = from \/ Ledger.isApprovedForAll l from caller = true ->
  exists l', Ledger.safeTransferFrom l caller from to id q = Ok l'.
Proof.
  intros Hq Hauth. unfold Ledger.safeTransferFrom.
  destruct (Z.ltb_spec (Ledger.balanceOf l from id) q); [lia|].
  replace (negb (caller =? from) && negb (Ledger.isApprovedForAll l from caller))
    with false; [eauto|].
  destruct Hauth as [-> | ->].
  - rewrite Z.eqb_refl. reflexivity.
  - simpl. rewrite andb_false_r. reflexivity.
Qed.

Lemma safeTransferFrom_short (l : Ledger.t) (caller from to : address) (id q : Z) :
  Ledger.balanceOf l from id < q ->
  Ledger.safeTransferFrom l caller from to id q = Err InsufficientBalance.
Proof.
  intros Hq. unfold Ledger.safeTransferFrom.
  destruct (Z.ltb_spec (Ledger.balanceOf l from id) q); [reflexivity | lia].
Qed.

Lemma ethOf_insert (e : gmap address Z) (a b : address) (v : Z) :
  ethOf (<[a := v]> e) b = if b =? a then v else ethOf e b.
Proof.
  unfold ethOf. destruct (Z.eqb_spec b a) as [->|Hne].
  - rewrite lookup_insert_eq. reflexivity.
  - rewrite lookup_insert_ne by congruence. reflexivity.
Qed.

Lemma ethMove_Ok (e e' : gmap address Z) (from to : address) (v : Z) :
  ethMove e from to v = Ok e' ->
  v <= ethOf e from /\
  forall a, ethOf e' a = ethOf e a + credited a to v - credited a from v.
Proof.
  unfold ethMove.
  destruct (Z.ltb_spec (ethOf e from) v) as [|Hv]; [discriminate|].
  intros H; injection H as <-. split; [exact Hv|].
  intros a. rewrite !ethOf_insert. unfold credited.
  destruct (Z.eqb_spec a to), (Z.eqb_spec a from); subst;
    rewrite ?Z.eqb_refl; try lia.
  destruct (Z.eqb_spec to from); [contradiction | lia].
Qed.

Lemma ethMove_fits (e : gmap address Z) (from to : address) (v : Z) :
  v <= ethOf e from -> exists e', ethMove e from to v = Ok e'.
Proof.
  intros Hv. unfold ethMove.
  destruct (Z.ltb_spec (ethOf e from) v); [lia | eauto].
Qed.

(** ** First body: what a successful call does *)

Section SimpleShapes.
Import Simple.

Lemma tokenTransfer_Ok (st st' : State) (from to : address) (id q : Z) :
  tokenTransfer st from to id q = Ok st' ->
  exists tk,
    Ledger.safeTransferFrom (token st) (this st) from to id q = Ok tk /\
    st' = set_token st tk.
Proof.
  unfold tokenTransfer; intros H; inv_ok. subst. eauto.
Qed.

Lemma pay_Ok (st st' : State) (to : address) (v : Z) :
  pay st to v = Ok st' ->
  exists e, ethMove (eth st) (this st) to v = Ok e /\ st' = set_eth st e.
Proof.
  unfold pay; intros H; inv_ok. subst. eauto.
Qed.

Lemma createListing_Ok (st st' : State) (m : Msg)
    (tokenId pricePerUnit units minDuration maxDuration : Z) :
  createListing st m tokenId pricePerUnit units minDuration maxDuration = Ok st' ->
  paused st = false /\ 0 < units /\ 0 < pricePerUnit /\
  minRentalDuration st <= minDuration <= maxDuration /\
  maxDuration <= maxRentalDuration st /\
  listingCounter st + 1 <= MAX_UINT256 /\
  exists tk,
    Ledger.safeTransferFrom (token st) (this st) (sender m) (this st)
                            tokenId units = Ok tk /\
    st' = push_userListing
            (set_listing
               (set_listingCounter (set_token st tk) (listingCounter st + 1))
               (listingCounter st + 1)
               (Listing.mk (sender m) tokenId pricePerUnit units units
                           minDuration maxDuration (timestamp m) true))
            (sender m) (listingCounter st + 1).
Proof.
  unfold createListing, whenNotPaused; intros H; inv_ok.
  match goal with
  | Ht : tokenTransfer _ _ _ _ _ = Ok _ |- _ =>
      apply tokenTransfer_Ok in Ht; destruct Ht as (tk & Etk & ->)
  end.
  simpl in *. subst st'. boolify.
  repeat split; try lia; try assumption. eauto.
Qed.

Lemma updateListing_Ok (st st' : State) (m : Msg)
    (listingId newPricePerUnit newAvailableUnits newMinDuration newMaxDuration : Z) :
  updateListing st m listingId newPricePerUnit newAvailableUnits
                newMinDuration newMaxDuration = Ok st' ->
  let listing := listings st !!! listingId in
  let rentedUnits := Listing.totalUnits listing - Listing.availableUnits listing in
  Listing.lender listing = sender m /\
  Listing.isActive listing = true /\
  Listing.availableUnits listing <= Listing.totalUnits listing /\
  rentedUnits <= newAvailableUnits /\
  exists tk,
    st' = set_listing (set_token st tk) listingId
            (Listing.mk (Listing.lender listing) (Listing.tokenId listing)
                        newPricePerUnit (newAvailableUnits - rentedUnits)
                        newAvailableUnits newMinDuration newMaxDuration
                        (Listing.createdAt listing) (Listing.isActive listing)).
Proof.
  unfold updateListing, onlyLender, onlyActiveListing, whenNotPaused.
  intros H; inv_ok. subst st'. simpl.
  match goal with
  | Ht : (if _ <? newAvailableUnits then _ else _) = Ok _ |- _ =>
      rename Ht into Hpull
  end.
  boolify. repeat split; try assumption; try lia.
  destruct (_ <? newAvailableUnits) in Hpull.
  - inv_ok. apply tokenTransfer_Ok in Hpull. destruct Hpull as (tk & _ & ->).
    exists tk. reflexivity.
  - inv_ok. subst.
    match goal with
    | |- exists tk, _ = set_listing (set_token ?s tk) _ _ =>
        exists (token s); destruct s; reflexivity
    end.
Qed.

Lemma cancelListing_Ok (st st' : State) (m : Msg) (listingId : Z) :
  cancelListing st m listingId = Ok st' ->
  let listing := listings st !!! listingId in
  Listing.lender listing = sender m /\
  Listing.isActive listing = true /\
  exists tk,
    (if 0 <? Listing.availableUnits listing
     then Ledger.safeTransferFrom (token st) (this st) (this st) (sender m)
            (Listing.tokenId listing) (Listing.availableUnits listing) = Ok tk
     else tk = token st) /\
    st' = set_token
            (set_listing st listingId (Listing.set_isActive listing false)) tk.
Proof.
  unfold cancelListing, onlyLender, onlyActiveListing.
  intros H; inv_ok.
  match goal with
  | Ht : (_ =? _) = true |- _ => apply Z.eqb_eq in Ht
  end.
  simpl. repeat split; try assumption.
  destruct (0 <? _).
  - apply tokenTransfer_Ok in H. destruct H as (tk & Etk & ->). eauto.
  - inv_ok. subst. exists (token st). split; [reflexivity|].
    destruct st; reflexivity.
Qed.

Lemma endSession_Ok (st st' : State) (m : Msg) (sessionId : Z) :
  endSession st m sessionId = Ok st' ->
  let session := sessions st !!! sessionId in
  let listing := listings st !!! Session.listingId session in
  Session.isActive session = true /\
  Session.endTime session <= timestamp m /\
  exists tk,
    Ledger.safeTransferFrom (token st) (this st) (sender m)
      (Listing.lender listing) (Listing.tokenId listing)
      (Session.units session) = Ok tk /\
    let st2 := set_token
                 (set_session st sessionId (Session.set_isActive session false))
                 tk in
    if Listing.isActive listing then
      Listing.availableUnits listing + Session.units session <= MAX_UINT256 /\
      st' = set_listing st2 (Session.listingId session)
              (Listing.set_availableUnits listing
                 (Listing.availableUnits listing + Session.units session))
    else st' = st2.
Proof.
  unfold endSession, onlyActiveSession. intros H; inv_ok.
  match goal with
  | Ht : tokenTransfer _ _ _ _ _ = Ok _ |- _ =>
      apply tokenTransfer_Ok in Ht; destruct Ht as (tk & Etk & ->)
  end.
  match goal with
  | Ht : (_ <=? _) = true |- _ => apply Z.leb_le in Ht
  end.
  simpl in *. repeat split; try assumption.
  exists tk. split; [exact Etk|].
  destruct (Listing.isActive _).
  - inv_ok. subst. split; [assumption | reflexivity].
  - inv_ok. subst. reflexivity.
Qed.

End SimpleShapes.

Section SimpleStart.
Import Simple.

Lemma credited_zero (a b : address) : credited a b 0 = 0.
Proof. unfold credited; destruct (a =? b); reflexivity. Qed.

Lemma credited_plus (a b : address) (q r : Z) :
  credited a b q + credited a b r = credited a b (q + r).
Proof. unfold credited; destruct (a =? b); lia. Qed.

(** The three payments of [startSession], from the contract's balance. *)
Lemma start_payments (st st1 st2 st3 : State) (m : Msg)
    (lender : address) (lenderAmount feeAmount totalCost value : Z) :
  0 <= feeAmount ->
  pay st lender lenderAmount = Ok st1 ->
  (if 0 <? feeAmount then pay st1 (platformWallet st1) feeAmount else Ok st1)
    = Ok st2 ->
  (if totalCost <? value
   then r <- sub value totalCost ;; pay st2 (sender m) r
   else Ok st2) = Ok st3 ->
  totalCost <= value ->
  exists e,
    st3 = set_eth st e /\
    forall a,
      ethOf e a =
      ethOf (eth st) a + credited a lender lenderAmount
      + credited a (platformWallet st) feeAmount
      + credited a (sender m) (value - totalCost)
      - credited a (this st) (lenderAmount + feeAmount + (value - totalCost)).
Proof.
  intros Hfee H1 H2 H3 Hval.
  apply pay_Ok in H1. destruct H1 as (e1 & E1 & ->).
  apply ethMove_Ok in E1. destruct E1 as [_ E1].
  assert (exists e2, st2 = set_eth st e2 /\
            forall a, ethOf e2 a = ethOf e1 a
                      + credited a (platformWallet st) feeAmount
                      - credited a (this st) feeAmount) as (e2 & -> & E2).
  { destruct (Z.ltb_spec 0 feeAmount).
    - apply pay_Ok in H2. destruct H2 as (e2 & E2 & ->).
      apply ethMove_Ok in E2. destruct E2 as [_ E2].
      exists e2. split; [reflexivity | exact E2].
    - injection H2 as <-. exists e1. split; [reflexivity|].
      intros a. replace feeAmount with 0 by lia.
      rewrite !credited_zero. lia. }
  assert (exists e3, st3 = set_eth st e3 /\
            forall a, ethOf e3 a = ethOf e2 a
                      + credited a (sender m) (value - totalCost)
                      - credited a (this st) (value - totalCost)) as (e3 & -> & E3).
  { destruct (Z.ltb_spec totalCost value).
    - inv_ok. apply pay_Ok in H3. destruct H3 as (e3 & E3 & ->).
      apply ethMove_Ok in E3. destruct E3 as [_ E3].
      exists e3. split; [reflexivity | exact E3].
    - injection H3 as <-. exists e2. split; [reflexivity|].
      intros a. replace (value - totalCost) with 0 by lia.
      rewrite !credited_zero. lia. }
  exists e3. split; [reflexivity|].
  intros a. rewrite E3, E2, E1.
  rewrite <- !credited_plus. lia.
Qed.

Lemma startSession_Ok (st st' : State) (m : Msg) (listingId units duration value : Z) :
  startSession st m listingId units duration value = Ok st' ->
  let listing := listings st !!! listingId in
  let totalCost := Listing.pricePerUnit listing * units * duration in
  let feeAmount := totalCost * platformFee st / 10000 in
  paused st = false /\
  Listing.isActive listing = true /\
  0 < units <= Listing.availableUnits listing /\
  Listing.minDuration listing <= duration <= Listing.maxDuration listing /\
  totalCost <= MAX_UINT256 /\
  totalCost <= value /\
  sessionCounter st + 1 <= MAX_UINT256 /\
  timestamp m + duration <= MAX_UINT256 /\
  exists e tk,
    (0 <= feeAmount ->
     forall a,
       ethOf e a =
       ethOf (eth st) a + credited a (Listing.lender listing) (totalCost - feeAmount)
       + credited a (platformWallet st) feeAmount
       + credited a (sender m) (value - totalCost)
       - credited a (this st) value) /\
    Ledger.safeTransferFrom (token st) (this st) (this st) (sender m)
                            (Listing.tokenId listing) units = Ok tk /\
    st' = push_userSession
            (set_token
               (set_listing
                  (set_session
                     (set_sessionCounter (set_eth st e) (sessionCounter st + 1))
                     (sessionCounter st + 1)
                     (Session.mk (sender m) listingId units (timestamp m)
                                 (timestamp m + duration) totalCost true))
                  listingId
                  (Listing.set_availableUnits listing
                     (Listing.availableUnits listing - units)))
               tk)
            (sender m) (sessionCounter st + 1).
Proof.
  unfold startSession, whenNotPaused, onlyActiveListing. intros H; inv_ok.
  match goal with
  | Hf : feeSplit _ _ = Ok ?fl |- _ =>
      destruct fl as [fee lenderAmount]; apply feeSplit_Ok in Hf;
      destruct Hf as (-> & -> & Hfee_le & _)
  end.
  simpl fst in *; simpl snd in *.
  match goal with
  | H1 : pay st _ _ = Ok ?s1,
    H2 : (if 0 <? _ then _ else _) = Ok ?s2,
    H3 : (if _ <? value then _ else _) = Ok ?s3 |- _ =>
      rename H1 into Hp1; rename H2 into Hp2; rename H3 into Hp3;
      rename s1 into st1; rename s2 into st2; rename s3 into st3
  end.
  match goal with
  | Ht : tokenTransfer _ _ _ _ _ = Ok _ |- _ =>
      apply tokenTransfer_Ok in Ht; destruct Ht as (tk & Etk & ->)
  end.
  boolify.
  assert (Hshape : exists e, st3 = set_eth st e).
  { apply pay_Ok in Hp1. destruct Hp1 as (e1 & _ & ->).
    assert (exists e2, st2 = set_eth st e2) as (e2 & ->).
    { destruct (0 <? _) in Hp2.
      - apply pay_Ok in Hp2. destruct Hp2 as (e2 & _ & ->). eauto.
      - injection Hp2 as <-. eauto. }
    destruct (_ <? value) in Hp3.
    - inv_ok. apply pay_Ok in Hp3. destruct Hp3 as (e3 & _ & ->). eauto.
    - injection Hp3 as <-. eauto. }
  destruct Hshape as (e & ->). simpl in *. subst st'.
  repeat split; try assumption; try lia.
  exists e, tk. split; [|split; [exact Etk | reflexivity]].
  intros Hfee a.
  destruct (start_payments _ _ _ _ m _ _ _ _ value Hfee Hp1 Hp2 Hp3)
    as (e' & He' & Hflow); [lia|].
  assert (e' = e) as -> by (injection He' as ->; reflexivity).
  rewrite Hflow. f_equal. f_equal. lia.
Qed.

End SimpleStart.

(** ** First body: the accounting invariant *)

Section SumLoad.
Import Simple.
Implicit Types (ss : gmap Z Session.t) (ids : list Z).

Lemma openUnits_sumLoad (st : State) (id : Z) :
  openUnits st id = sumLoad (sessions st) id (seqZ 1 (sessionCounter st)).
Proof. reflexivity. Qed.

Lemma sumLoad_app ss id ids1 ids2 :
  sumLoad ss id (ids1 ++ ids2) = sumLoad ss id ids1 + sumLoad ss id ids2.
Proof.
  unfold sumLoad. induction ids1 as [|a ids1 IH]; simpl; [reflexivity | lia].
Qed.

Lemma sumLoad_ext ss ss' id ids :
  (forall sid, sid ∈ ids -> ss' !!! sid = ss !!! sid) ->
  sumLoad ss' id ids = sumLoad ss id ids.
Proof.
  unfold sumLoad. induction ids as [|a ids IH]; intros Hsame; simpl.
  - reflexivity.
  - unfold sessionLoad at 1 3. rewrite Hsame by (left).
    rewrite IH; [reflexivity|]. intros sid Hin. apply Hsame. right. exact Hin.
Qed.

Lemma sessionLoad_nonneg ss id sid :
  (forall s, 0 <= Session.units (ss !!! s)) -> 0 <= sessionLoad ss id sid.
Proof.
  intros Hu. unfold sessionLoad.
  destruct (_ && _); [apply Hu | lia].
Qed.

Lemma sumLoad_nonneg ss id ids :
  (forall s, 0 <= Session.units (ss !!! s)) -> 0 <= sumLoad ss id ids.
Proof.
  intros Hu. unfold sumLoad. induction ids as [|a ids IH]; simpl; [lia|].
  pose proof (sessionLoad_nonneg ss id a Hu). lia.
Qed.

(** No open session on [id] among [ids]: the sum vanishes. *)
Lemma sumLoad_none ss id ids :
  (forall sid, Session.isActive (ss !!! sid) = true ->
               Session.listingId (ss !!! sid) <> id) ->
  sumLoad ss id ids = 0.
Proof.
  intros Hno. unfold sumLoad. induction ids as [|a ids IH]; simpl; [reflexivity|].
  rewrite IH. unfold sessionLoad.
  destruct (Session.isActive (ss !!! a)) eqn:Ha; simpl; [|lia].
  destruct (Z.eqb_spec (Session.listingId (ss !!! a)) id) as [Heq|]; [|lia].
  exfalso. exact (Hno a Ha Heq).
Qed.

(** Changing one session changes the sum by the difference of its loads. *)
Lemma sumLoad_change ss ss' id ids k :
  NoDup ids -> k ∈ ids ->
  (forall sid, sid <> k -> ss' !!! sid = ss !!! sid) ->
  sumLoad ss' id ids =
  sumLoad ss id ids - sessionLoad ss id k + sessionLoad ss' id k.
Proof.
  intros Hnd Hin Hsame. induction ids as [|a ids IH]; [inversion Hin|].
  apply NoDup_cons in Hnd. destruct Hnd as [Hnotin Hnd].
  change (sumLoad ss' id (a :: ids))
    with (sessionLoad ss' id a + sumLoad ss' id ids).
  change (sumLoad ss id (a :: ids))
    with (sessionLoad ss id a + sumLoad ss id ids).
  destruct (decide (a = k)) as [->|Hne].
  - rewrite (sumLoad_ext ss ss' id ids); [lia|].
    intros sid Hsid. apply Hsame. intros ->. contradiction.
  - apply elem_of_cons in Hin. destruct Hin as [->|Hin]; [contradiction|].
    rewrite (IH Hnd Hin).
    unfold sessionLoad at 1 4. rewrite (Hsame a Hne). lia.
Qed.

Lemma seqZ_snoc (n : Z) : 0 <= n -> seqZ 1 (n + 1) = seqZ 1 n ++ [n + 1].
Proof.
  intros Hn. rewrite (seqZ_app 1 n 1) by lia.
  f_equal. rewrite Z.add_comm. reflexivity.
Qed.

End SumLoad.

Section InvariantSteps.
Import Simple.

(** Case split on whether [id] is the key just written. *)
Ltac at_key id k :=
  destruct (decide (id = k)) as [->|?];
  [ rewrite ?lookup_total_insert_eq
  | rewrite ?lookup_total_insert_ne by congruence ].

(** The invariant reads the counters, the listings and the sessions only. *)
Lemma Inv_frame (st st' : State) :
  listingCounter st' = listingCounter st ->
  sessionCounter st' = sessionCounter st ->
  listings st' = listings st ->
  sessions st' = sessions st ->
  Inv st -> Inv st'.
Proof.
  intros H1 H2 H3 H4 HI. constructor.
  - rewrite H1. apply HI.
  - rewrite H2. apply HI.
  - intros id. rewrite H3. apply HI.
  - intros id. rewrite H3, H1. apply HI.
  - intros sid. rewrite H4, H1, H2. apply HI.
  - intros sid. rewrite H4. apply HI.
  - intros id. rewrite openUnits_sumLoad, H2, H3, H4. apply (inv_rented st HI).
  - intros id. rewrite openUnits_sumLoad, H2, H3, H4.
    apply (inv_rented_active st HI).
Qed.

Lemma Inv_constructor self deployer tk wallet fee tok e st :
  constructor self deployer tk wallet fee tok e = Ok st -> Inv st.
Proof.
  unfold constructor. intros H; inv_ok. subst st.
  constructor; simpl; intros;
    rewrite ?lookup_total_empty in *; simpl in *;
    try discriminate; unfold uint256, MAX_UINT256; try lia;
    unfold openUnits; simpl; lia.
Qed.

Lemma openUnits_nonneg (st : State) (id : Z) : Inv st -> 0 <= openUnits st id.
Proof.
  intros HI. rewrite openUnits_sumLoad. apply sumLoad_nonneg. apply HI.
Qed.

Lemma Inv_createListing (st st' : State) (m : Msg)
    (tokenId pricePerUnit units minDuration maxDuration : Z) :
  Inv st -> uint256 units ->
  createListing st m tokenId pricePerUnit units minDuration maxDuration = Ok st' ->
  Inv st'.
Proof.
  intros HI [Hu0 Hu1] H.
  apply createListing_Ok in H.
  destruct H as (_ & Hu & _ & _ & _ & Hlc & tk & _ & ->).
  pose proof (inv_lc st HI) as [Hlc0 _].
  constructor; simpl.
  - unfold uint256; lia.
  - apply HI.
  - intros id. at_key id (listingCounter st + 1); simpl; [lia | apply HI].
  - intros id. at_key id (listingCounter st + 1); [lia|].
    intros Hact. apply (inv_listing_range st HI) in Hact. lia.
  - intros sid Hact. apply (inv_session_range st HI) in Hact. lia.
  - apply HI.
  - intros id. rewrite openUnits_sumLoad; simpl.
    at_key id (listingCounter st + 1); simpl; [|apply (inv_rented st HI)].
    rewrite sumLoad_none; [lia|].
    intros sid Hact. apply (inv_session_range st HI) in Hact. lia.
  - intros id. rewrite openUnits_sumLoad; simpl.
    at_key id (listingCounter st + 1); simpl;
      [|apply (inv_rented_active st HI)].
    intros _. rewrite sumLoad_none; [lia|].
    intros sid Hact. apply (inv_session_range st HI) in Hact. lia.
Qed.

Lemma Inv_updateListing (st st' : State) (m : Msg)
    (listingId newPricePerUnit newAvailableUnits newMinDuration newMaxDuration : Z) :
  Inv st -> uint256 newAvailableUnits ->
  updateListing st m listingId newPricePerUnit newAvailableUnits
                newMinDuration newMaxDuration = Ok st' ->
  Inv st'.
Proof.
  intros HI [Hn0 Hn1] H.
  apply updateListing_Ok in H. simpl in H.
  destruct H as (_ & Hact & Hle & Hrent & tk & ->).
  pose proof (inv_bounds st HI listingId) as (Hb & _).
  constructor; simpl.
  - apply HI.
  - apply HI.
  - intros id. at_key id listingId; simpl; [lia | apply HI].
  - intros id. at_key id listingId; simpl; [|apply HI].
    intros _. apply (inv_listing_range st HI). exact Hact.
  - apply HI.
  - apply HI.
  - intros id. rewrite openUnits_sumLoad; simpl.
    at_key id listingId; simpl; [|apply (inv_rented st HI)].
    pose proof (inv_rented st HI listingId) as Hr.
    rewrite openUnits_sumLoad in Hr. lia.
  - intros id. rewrite openUnits_sumLoad; simpl.
    at_key id listingId; simpl; [|apply (inv_rented_active st HI)].
    intros _. pose proof (inv_rented_active st HI listingId Hact) as Hr.
    rewrite openUnits_sumLoad in Hr. lia.
Qed.

Lemma Inv_cancelListing (st st' : State) (m : Msg) (listingId : Z) :
  Inv st -> cancelListing st m listingId = Ok st' -> Inv st'.
Proof.
  intros HI H.
  apply cancelListing_Ok in H. simpl in H.
  destruct H as (_ & Hact & tk & _ & ->).
  constructor; simpl.
  - apply HI.
  - apply HI.
  - intros id. at_key id listingId; simpl; apply HI.
  - intros id. at_key id listingId; simpl; [discriminate | apply HI].
  - apply HI.
  - apply HI.
  - intros id. rewrite openUnits_sumLoad; simpl.
    at_key id listingId; simpl; apply (inv_rented st HI).
  - intros id. rewrite openUnits_sumLoad; simpl.
    at_key id listingId; simpl;
      [discriminate | apply (inv_rented_active st HI)].
Qed.

(** The open units after a session is recorded under a fresh id. *)
Lemma openUnits_new_session (st : State) (s : Session.t) (id : Z) :
  Inv st ->
  sumLoad (<[sessionCounter st + 1 := s]> (sessions st)) id
          (seqZ 1 (sessionCounter st + 1)) =
  openUnits st id +
  (if Session.isActive s && (Session.listingId s =? id)
   then Session.units s else 0).
Proof.
  intros HI. pose proof (inv_sc st HI) as [Hsc _].
  rewrite seqZ_snoc, sumLoad_app by exact Hsc.
  rewrite (sumLoad_ext (sessions st)).
  - rewrite openUnits_sumLoad. f_equal.
    unfold sumLoad; simpl. unfold sessionLoad.
    rewrite lookup_total_insert_eq. lia.
  - intros sid Hin. apply elem_of_seqZ in Hin.
    rewrite lookup_total_insert_ne by lia. reflexivity.
Qed.

Lemma Inv_startSession (st st' : State) (m : Msg)
    (listingId units duration value : Z) :
  Inv st -> startSession st m listingId units duration value = Ok st' -> Inv st'.
Proof.
  intros HI H.
  apply startSession_Ok in H. simpl in H.
  destruct H as (_ & Hact & Hu & _ & _ & _ & Hsc & _ & e & tk & _ & _ & ->).
  pose proof (inv_sc st HI) as [Hsc0 _].
  pose proof (inv_bounds st HI listingId) as (Hb & Hb').
  pose proof (inv_listing_range st HI listingId Hact) as Hrange.
  constructor; simpl.
  - apply HI.
  - unfold uint256; lia.
  - intros id. at_key id listingId; simpl; [lia | apply HI].
  - intros id. at_key id listingId; simpl; [intros _; exact Hrange | apply HI].
  - intros sid. at_key sid (sessionCounter st + 1); simpl; [lia|].
    intros Ha. apply (inv_session_range st HI) in Ha. lia.
  - intros sid. at_key sid (sessionCounter st + 1); simpl; [lia | apply HI].
  - intros id. rewrite openUnits_sumLoad; simpl.
    rewrite openUnits_new_session by exact HI. simpl.
    pose proof (inv_rented st HI id).
    at_key id listingId; simpl.
    + pose proof (inv_rented_active st HI listingId Hact).
      rewrite Z.eqb_refl. lia.
    + destruct (Z.eqb_spec listingId id); [congruence | lia].
  - intros id. rewrite openUnits_sumLoad; simpl.
    rewrite openUnits_new_session by exact HI. simpl.
    at_key id listingId; simpl.
    + intros _. pose proof (inv_rented_active st HI listingId Hact).
      rewrite Z.eqb_refl. lia.
    + intros Ha. pose proof (inv_rented_active st HI id Ha).
      destruct (Z.eqb_spec listingId id); [congruence | lia].
Qed.

(** The open units after session [sid] is closed. *)
Lemma openUnits_closed_session (st : State) (sid id : Z) :
  Inv st ->
  Session.isActive (sessions st !!! sid) = true ->
  sumLoad (<[sid := Session.set_isActive (sessions st !!! sid) false]>
             (sessions st)) id (seqZ 1 (sessionCounter st)) =
  openUnits st id -
  (if Session.listingId (sessions st !!! sid) =? id
   then Session.units (sessions st !!! sid) else 0).
Proof.
  intros HI Hact.
  pose proof (inv_session_range st HI sid Hact) as [Hrange _].
  rewrite (sumLoad_change (sessions st) _ id _ sid).
  - rewrite openUnits_sumLoad. unfold sessionLoad.
    rewrite lookup_total_insert_eq, Hact. simpl. lia.
  - apply NoDup_seqZ.
  - apply elem_of_seqZ. lia.
  - intros s Hne. rewrite lookup_total_insert_ne by congruence. reflexivity.
Qed.

Lemma Inv_endSession (st st' : State) (m : Msg) (sessionId : Z) :
  Inv st -> endSession st m sessionId = Ok st' -> Inv st'.
Proof.
  intros HI H.
  apply endSession_Ok in H. simpl in H.
  destruct H as (Hact & _ & tk & _ & Hst).
  set (s := sessions st !!! sessionId) in *.
  set (lid := Session.listingId s) in *.
  pose proof (inv_units st HI sessionId) as Hunits. fold s in Hunits.
  pose proof (inv_bounds st HI lid) as (Hb & Hb').
  assert (Hclosed : forall id,
    sumLoad (<[sessionId := Session.set_isActive s false]> (sessions st)) id
            (seqZ 1 (sessionCounter st)) =
    openUnits st id - (if lid =? id then Session.units s else 0)).
  { intros id. apply openUnits_closed_session; assumption. }
  assert (Hnn : forall id,
    0 <= sumLoad (<[sessionId := Session.set_isActive s false]> (sessions st))
           id (seqZ 1 (sessionCounter st))).
  { intros id. apply sumLoad_nonneg. intros k.
    at_key k sessionId; simpl; [exact Hunits | apply HI]. }
  assert (Hsessions :
    (forall k, Session.isActive
                 (<[sessionId := Session.set_isActive s false]> (sessions st) !!! k)
               = true ->
               1 <= k <= sessionCounter st /\
               1 <= Session.listingId
                      (<[sessionId := Session.set_isActive s false]>
                         (sessions st) !!! k) <= listingCounter st) /\
    (forall k, 0 <= Session.units
                      (<[sessionId := Session.set_isActive s false]>
                         (sessions st) !!! k))).
  { split; intros k; at_key k sessionId; simpl;
      try discriminate; try exact Hunits; apply HI. }
  destruct Hsessions as [Hsr Hsu].
  destruct (Listing.isActive (listings st !!! lid)) eqn:Hlact.
  - destruct Hst as [Hmax ->].
    pose proof (inv_rented_active st HI lid Hlact) as Heq.
    pose proof (Hclosed lid) as Hc. rewrite Z.eqb_refl in Hc.
    pose proof (Hnn lid) as Hn.
    constructor; simpl.
    + apply HI.
    + apply HI.
    + intros id. at_key id lid; simpl; [lia | apply HI].
    + intros id. at_key id lid; simpl; [|apply HI].
      intros _. apply (inv_listing_range st HI). exact Hlact.
    + exact Hsr.
    + exact Hsu.
    + intros id. rewrite openUnits_sumLoad; simpl.
      at_key id lid; simpl; [lia|].
      rewrite Hclosed. pose proof (inv_rented st HI id).
      destruct (Z.eqb_spec lid id); [congruence | lia].
    + intros id. rewrite openUnits_sumLoad; simpl.
      at_key id lid; simpl; [intros _; lia|].
      intros Ha. rewrite Hclosed.
      pose proof (inv_rented_active st HI id Ha).
      destruct (Z.eqb_spec lid id); [congruence | lia].
  - subst st'.
    constructor; simpl.
    + apply HI.
    + apply HI.
    + apply HI.
    + apply HI.
    + exact Hsr.
    + exact Hsu.
    + intros id. rewrite openUnits_sumLoad; simpl.
      rewrite Hclosed. pose proof (inv_rented st HI id).
      destruct (lid =? id); lia.
    + intros id Ha. rewrite openUnits_sumLoad; simpl.
      rewrite Hclosed. pose proof (inv_rented_active st HI id Ha).
      destruct (Z.eqb_spec lid id) as [<-|]; [congruence | lia].
Qed.

Lemma Inv_run (st st' : State) (m : Msg) (c : Call) :
  Inv st -> valid_call c -> run st m c = Ok st' -> Inv st'.
Proof.
  intros HI Hv H. destruct c; simpl in H, Hv.
  - apply (Inv_createListing st st' m _ _ _ _ _ HI) in H; [exact H | tauto].
  - apply (Inv_updateListing st st' m _ _ _ _ _ HI) in H; [exact H | tauto].
  - exact (Inv_cancelListing _ _ _ _ HI H).
  - inv_ok. refine (Inv_startSession _ _ _ _ _ _ _ _ H).
    apply (Inv_frame st); try reflexivity. exact HI.
  - exact (Inv_endSession _ _ _ _ HI H).
  - unfold updatePlatformFee in H. inv_ok. subst.
    apply (Inv_frame st); try reflexivity. exact HI.
  - unfold updatePlatformWallet in H. inv_ok. subst.
    apply (Inv_frame st); try reflexivity. exact HI.
  - unfold updateRentalDurationLimits in H. inv_ok. subst.
    apply (Inv_frame st); try reflexivity. exact HI.
  - unfold pause in H. inv_ok. subst.
    apply (Inv_frame st); try reflexivity. exact HI.
  - unfold unpause in H. inv_ok. subst.
    apply (Inv_frame st); try reflexivity. exact HI.
  - unfold emergencyStop in H. inv_ok. subst.
    apply (Inv_frame st); try reflexivity. exact HI.
Qed.

Lemma Inv_step (st st' : State) : Inv st -> step st st' -> Inv st'.
Proof.
  intros HI Hstep. destruct Hstep as [st m c _ Hv | st o tok e].
  - unfold execute. destruct (run st m c) as [st'|err] eqn:Hrun; simpl.
    + exact (Inv_run _ _ _ _ HI Hv Hrun).
    + exact HI.
  - apply (Inv_frame st); try reflexivity. exact HI.
Qed.

Lemma reachable_Inv (st : State) : reachable st -> Inv st.
Proof.
  induction 1 as [? ? ? ? ? ? ? ? _ Hc | st st' _ IH Hstep].
  - exact (Inv_constructor _ _ _ _ _ _ _ _ Hc).
  - exact (Inv_step _ _ IH Hstep).
Qed.

End InvariantSteps.

(** ** The scenario is a run of the contract *)

Section ScenarioRuns.
Import Simple Scenario.

Lemma reachable_s0 : reachable s0.
Proof.
  apply (reach_init 100 9 50 9 500 ledger0 ether0); [by_compute | reflexivity].
Qed.

Lemma reachable_call (st : State) (m : Msg) (c : Call) :
  reachable st -> uint256 (timestamp m) -> valid_call c ->
  reachable (fst (execute st m c)).
Proof.
  intros Hr Ht Hc. apply (reach_step st); [exact Hr | apply step_call; assumption].
Qed.

Lemma reachable_approve (st : State) : reachable st -> reachable (approve_borrower st).
Proof. intros Hr. apply (reach_step st); [exact Hr | apply step_env]. Qed.

Lemma reachable_s1 : reachable s1.
Proof. apply reachable_call; [exact reachable_s0 | by_compute ..]. Qed.

Lemma reachable_s2 : reachable s2.
Proof. apply reachable_call; [exact reachable_s1 | by_compute ..]. Qed.

Lemma reachable_s3 : reachable s3.
Proof.
  apply reachable_call; [apply reachable_approve, reachable_s2 | by_compute ..].
Qed.

Lemma reachable_s2c : reachable s2c.
Proof. apply reachable_call; [exact reachable_s2 | by_compute ..]. Qed.

Lemma reachable_s4 : reachable s4.
Proof.
  apply reachable_call; [apply reachable_approve, reachable_s2c | by_compute ..].
Qed.

End ScenarioRuns.

(** ** First body: listings and sessions *)

Section SimpleClaims.
Import Simple.

Lemma execute_Ok (st st' : State) (m : Msg) (c : Call) :
  execute st m c = (st', Success) -> run st m c = Ok st'.
Proof.
  unfold execute. destruct (run st m c); intros H; inversion H; reflexivity.
Qed.

Lemma execute_of_run (st st' : State) (m : Msg) (c : Call) :
  run st m c = Ok st' -> execute st m c = (st', Success).
Proof. unfold execute. intros ->. reflexivity. Qed.

Lemma execute_of_err (st : State) (m : Msg) (c : Call) (e : error) :
  run st m c = Err e -> execute st m c = (st, Reverted e).
Proof. unfold execute. intros ->. reflexivity. Qed.

(** An open session is counted in the open units of its listing. *)
Lemma open_session_counted (st : State) (sid : Z) :
  Inv st ->
  Session.isActive (sessions st !!! sid) = true ->
  Session.units (sessions st !!! sid)
    <= openUnits st (Session.listingId (sessions st !!! sid)).
Proof.
  intros HI Hact.
  pose proof (openUnits_closed_session st sid
                (Session.listingId (sessions st !!! sid)) HI Hact) as Hc.
  rewrite Z.eqb_refl in Hc.
  assert (0 <= sumLoad
                 (<[sid := Session.set_isActive (sessions st !!! sid) false]>
                    (sessions st))
                 (Session.listingId (sessions st !!! sid))
                 (seqZ 1 (sessionCounter st))) as Hnn.
  { apply sumLoad_nonneg. intros k.
    destruct (decide (k = sid)) as [->|Hne].
    - rewrite lookup_total_insert_eq. simpl. apply HI.
    - rewrite lookup_total_insert_ne by congruence. apply HI. }
  lia.
Qed.

(** C9 (amended): in every reachable state and for every listing, [0 <=
    availableUnits <= totalUnits]; the rented quantity [totalUnits -
    availableUnits] is at least the sum of [units] over the open sessions of
    that listing, and equal to it while the listing is active.  Every
    transaction (createListing, updateListing, cancelListing, startSession,
    endSession and the administrative calls) preserves this. *)
Theorem availability_invariant (st : State) :
  reachable st ->
  let holds (s : State) :=
    forall id,
      let l := listings s !!! id in
      0 <= Listing.availableUnits l <= Listing.totalUnits l /\
      openUnits s id <= Listing.totalUnits l - Listing.availableUnits l /\
      (Listing.isActive l = true ->
       Listing.totalUnits l - Listing.availableUnits l = openUnits s id) in
  holds st /\
  forall m c, uint256 (timestamp m) -> valid_call c ->
              holds (fst (execute st m c)).
Proof.
  intros Hr.
  assert (Hinv : forall s, reachable s ->
            forall id,
              let l := listings s !!! id in
              0 <= Listing.availableUnits l <= Listing.totalUnits l /\
              openUnits s id <= Listing.totalUnits l - Listing.availableUnits l /\
              (Listing.isActive l = true ->
               Listing.totalUnits l - Listing.availableUnits l = openUnits s id)).
  { intros s Hs id. apply reachable_Inv in Hs. simpl.
    split; [apply (inv_bounds s Hs id) | split].
    - apply (inv_rented s Hs).
    - apply (inv_rented_active s Hs). }
  simpl. split.
  - apply Hinv. exact Hr.
  - intros m c Ht Hc. apply Hinv. apply reachable_call; assumption.
Qed.

Lemma availability_invariant_witness :
  Listing.totalUnits (listings Scenario.s2 !!! 1)
  - Listing.availableUnits (listings Scenario.s2 !!! 1)
  = openUnits Scenario.s2 1.
Proof.
  destruct (availability_invariant Scenario.s2 reachable_s2) as [H _].
  destruct (H 1) as (_ & _ & Hact).
  apply Hact. vm_compute. reflexivity.
Defined.

(** C9, as stated, fails: after the lender cancels a listing with a session
    still open and the borrower then closes that session, the inactive
    listing keeps [totalUnits - availableUnits = 2] while no session is
    open on it. *)
Lemma availability_invariant_counterexample :
  reachable Scenario.s4 /\
  Listing.totalUnits (listings Scenario.s4 !!! 1)
  - Listing.availableUnits (listings Scenario.s4 !!! 1) = 2 /\
  openUnits Scenario.s4 1 = 0.
Proof.
  split; [exact reachable_s4 | split; vm_compute; reflexivity].
Qed.

(** A due [endSession] succeeds for whoever calls it, provided the caller
    holds the units and has approved the engine: the units are taken from
    the caller. *)
Lemma endSession_due (st : State) (m : Msg) (sessionId : Z) :
  Inv st ->
  let session := sessions st !!! sessionId in
  let listing := listings st !!! Session.listingId session in
  Session.isActive session = true ->
  Session.endTime session <= timestamp m ->
  Session.units session
    <= Ledger.balanceOf (token st) (sender m) (Listing.tokenId listing) ->
  Ledger.isApprovedForAll (token st) (sender m) (this st) = true ->
  exists st',
    endSession st m sessionId = Ok st' /\
    sessions st' = <[sessionId := Session.set_isActive session false]> (sessions st) /\
    (forall h i,
       Ledger.balanceOf (token st') h i =
       Ledger.balanceOf (token st) h i
       + credited2 h i (Listing.lender listing) (Listing.tokenId listing)
                   (Session.units session)
       - credited2 h i (sender m) (Listing.tokenId listing)
                   (Session.units session)) /\
    eth st' = eth st /\
    listings st' =
      if Listing.isActive listing
      then <[Session.listingId session :=
               Listing.set_availableUnits listing
                 (Listing.availableUnits listing + Session.units session)]>
             (listings st)
      else listings st.
Proof.
  intros Hr session listing Hact Hdue Hbal Happr.
  destruct (safeTransferFrom_fits (token st) (this st) (sender m)
              (Listing.lender listing) (Listing.tokenId listing)
              (Session.units session) Hbal (or_intror Happr)) as (tk & Etk).
  pose proof (safeTransferFrom_Ok _ _ _ _ _ _ _ Etk) as (_ & _ & _ & Hmoved).
  assert (Hfit : Listing.isActive listing = true ->
                 Listing.availableUnits listing + Session.units session
                 <= MAX_UINT256).
  { intros Hl.
    pose proof (open_session_counted st sessionId Hr Hact) as Hcount.
    pose proof (inv_rented_active st Hr _ Hl) as Heq.
    pose proof (inv_bounds st Hr (Session.listingId session)) as (_ & Hmax).
    fold session in Hcount. fold listing in Heq, Hmax. lia. }
  unfold endSession, onlyActiveSession. fold session. rewrite Hact. simpl.
  destruct (Z.leb_spec (Session.endTime session) (timestamp m)); [|lia].
  simpl. unfold tokenTransfer. simpl. fold listing. rewrite Etk. simpl.
  destruct (Listing.isActive listing) eqn:Hl.
  - rewrite add_fits by (apply Hfit; reflexivity). simpl.
    eexists. split; [reflexivity|]. simpl. auto.
  - eexists. split; [reflexivity|]. simpl. auto.
Qed.

(** C1 (amended): for every session with [active = true], a call to
    [endSession] strictly before [endTime] fails with "Session not yet
    ended" and changes nothing; a call at or after [endTime] by the
    session's borrower, when the borrower holds the borrowed units and has
    approved the engine as operator, succeeds: it marks the session
    inactive, moves [units] from the borrower to the lender of the listing
    and, if the listing is still active, increments its [availableUnits] by
    [units]. *)
Theorem endSession_simple (st : State) (m : Msg) (sessionId : Z) :
  reachable st ->
  let session := sessions st !!! sessionId in
  let listing := listings st !!! Session.listingId session in
  Session.isActive session = true ->
  (timestamp m < Session.endTime session ->
   execute st m (EndSession sessionId)
   = (st, Reverted (ErrorString "Session not yet ended"))) /\
  (Session.endTime session <= timestamp m ->
   sender m = Session.borrower session ->
   Session.units session
     <= Ledger.balanceOf (token st) (sender m) (Listing.tokenId listing) ->
   Ledger.isApprovedForAll (token st) (sender m) (this st) = true ->
   exists st',
     execute st m (EndSession sessionId) = (st', Success) /\
     sessions st' = <[sessionId := Session.set_isActive session false]> (sessions st) /\
     (forall h i,
        Ledger.balanceOf (token st') h i =
        Ledger.balanceOf (token st) h i
        + credited2 h i (Listing.lender listing) (Listing.tokenId listing)
                    (Session.units session)
        - credited2 h i (Session.borrower session) (Listing.tokenId listing)
                    (Session.units session)) /\
     eth st' = eth st /\
     listings st' =
       if Listing.isActive listing
       then <[Session.listingId session :=
                Listing.set_availableUnits listing
                  (Listing.availableUnits listing + Session.units session)]>
              (listings st)
       else listings st).
Proof.
  intros Hr session listing Hact. apply reachable_Inv in Hr. split.
  - intros Hearly. apply execute_of_err. simpl.
    unfold endSession, onlyActiveSession. fold session. rewrite Hact. simpl.
    destruct (Z.leb_spec (Session.endTime session) (timestamp m)); [lia|].
    reflexivity.
  - intros Hdue Hcaller Hbal Happr.
    destruct (endSession_due st m sessionId Hr Hact Hdue Hbal Happr)
      as (st' & Hrun & Hs & Ht & He & Hl).
    exists st'. split; [apply execute_of_run; exact Hrun|].
    split; [exact Hs | split; [|split; [exact He | exact Hl]]].
    intros h i. rewrite <- Hcaller. apply Ht.
Qed.

Lemma endSession_simple_witness :
  execute (Scenario.approve_borrower Scenario.s2) (Scenario.borrower 5000)
          (EndSession 1)
  = (Scenario.approve_borrower Scenario.s2,
     Reverted (ErrorString "Session not yet ended")) /\
  exists st',
    execute (Scenario.approve_borrower Scenario.s2) (Scenario.borrower 88400)
            (EndSession 1) = (st', Success).
Proof.
  split.
  - apply (endSession_simple (Scenario.approve_borrower Scenario.s2)
             (Scenario.borrower 5000) 1).
    + apply reachable_approve, reachable_s2.
    + vm_compute. reflexivity.
    + vm_compute. reflexivity.
  - destruct (endSession_simple (Scenario.approve_borrower Scenario.s2)
                (Scenario.borrower 88400) 1) as [_ Hdue].
    + apply reachable_approve, reachable_s2.
    + vm_compute. reflexivity.
    + destruct Hdue as (st' & Hst' & _); [by_compute ..|].
      exists st'. exact Hst'.
Defined.

(** C1, as stated, fails: the borrower of the scenario calls [endSession]
    exactly at [endTime] without having approved the engine on the ledger,
    and the call reverts. *)
Lemma endSession_simple_counterexample :
  reachable Scenario.s2 /\
  Session.isActive (sessions Scenario.s2 !!! 1) = true /\
  Session.borrower (sessions Scenario.s2 !!! 1) = 2 /\
  Session.endTime (sessions Scenario.s2 !!! 1) <= 88400 /\
  execute Scenario.s2 (Scenario.borrower 88400) (EndSession 1)
  = (Scenario.s2, Reverted Unauthorized).
Proof.
  split; [exact reachable_s2 |].
  split; [vm_compute; reflexivity |].
  split; [vm_compute; reflexivity |].
  split; [by_compute |].
  unfold execute.
  assert (run Scenario.s2 (Scenario.borrower 88400) (EndSession 1)
          = Err Unauthorized) as -> by (vm_compute; reflexivity).
  reflexivity.
Qed.

End SimpleClaims.

Section ListingClaims.
Import Simple.

Lemma credited2_zero (h : address) (i : Z) (h' : address) (i' : Z) :
  credited2 h i h' i' 0 = 0.
Proof. unfold credited2. destruct (_ && _); reflexivity. Qed.

(** What [cancelListing] does on the ledger.  For an active listing whose
    available units the engine holds, [cancelListing] called by its lender
    sets [active = false] and moves exactly [availableUnits] from the engine
    to the lender; no other ledger entry, no session and no Ether balance
    changes.  When the engine holds fewer units than [availableUnits], the
    call reverts.  The engine's balance of a batch is one pool for all
    listings of that batch. *)
Lemma cancelListing_returns_available (st : State) (m : Msg) (listingId : Z) :
  reachable st ->
  let listing := listings st !!! listingId in
  Listing.isActive listing = true ->
  Listing.lender listing = sender m ->
  (Listing.availableUnits listing
     <= Ledger.balanceOf (token st) (this st) (Listing.tokenId listing) ->
   exists st',
     execute st m (CancelListing listingId) = (st', Success) /\
     listings st' = <[listingId := Listing.set_isActive listing false]> (listings st) /\
     sessions st' = sessions st /\
     eth st' = eth st /\
     forall h i,
       Ledger.balanceOf (token st') h i =
       Ledger.balanceOf (token st) h i
       + credited2 h i (sender m) (Listing.tokenId listing)
                   (Listing.availableUnits listing)
       - credited2 h i (this st) (Listing.tokenId listing)
                   (Listing.availableUnits listing)) /\
  (0 <= Ledger.balanceOf (token st) (this st) (Listing.tokenId listing)
     < Listing.availableUnits listing ->
   execute st m (CancelListing listingId) = (st, Reverted InsufficientBalance)).
Proof.
  intros Hr listing Hact Hlender. apply reachable_Inv in Hr.
  pose proof (inv_bounds st Hr listingId) as ([Havail _] & _). fold listing in Havail.
  split.
  - intros Hheld.
    destruct (Z.ltb_spec 0 (Listing.availableUnits listing)) as [Hpos|Hzero].
    + destruct (safeTransferFrom_fits (token st) (this st) (this st) (sender m)
                  (Listing.tokenId listing) (Listing.availableUnits listing)
                  Hheld (or_introl eq_refl)) as (tk & Etk).
      pose proof (safeTransferFrom_Ok _ _ _ _ _ _ _ Etk) as (_ & _ & _ & Hmoved).
      eexists. split.
      * apply execute_of_run. simpl.
        unfold cancelListing, onlyLender, onlyActiveListing. fold listing.
        rewrite Hlender, Z.eqb_refl, Hact. simpl.
        destruct (Z.ltb_spec 0 (Listing.availableUnits listing)); [|lia].
        unfold tokenTransfer. simpl. rewrite Etk. simpl. reflexivity.
      * simpl. repeat split. exact Hmoved.
    + exists (set_listing st listingId (Listing.set_isActive listing false)).
      split.
      * apply execute_of_run. simpl.
        unfold cancelListing, onlyLender, onlyActiveListing. fold listing.
        rewrite Hlender, Z.eqb_refl, Hact. simpl.
        destruct (Z.ltb_spec 0 (Listing.availableUnits listing)); [lia|].
        reflexivity.
      * simpl. repeat split. intros h i.
        replace (Listing.availableUnits listing) with 0 by lia.
        rewrite !credited2_zero. lia.
  - intros Hshort. apply execute_of_err. simpl.
    unfold cancelListing, onlyLender, onlyActiveListing. fold listing.
    rewrite Hlender, Z.eqb_refl, Hact. simpl.
    destruct (Z.ltb_spec 0 (Listing.availableUnits listing)); [|lia].
    unfold tokenTransfer. simpl.
    rewrite safeTransferFrom_short by lia. reflexivity.
Qed.

Lemma cancelListing_returns_available_example :
  (exists st',
     execute Scenario.s2 (mkMsg 1 3000) (CancelListing 1) = (st', Success) /\
     Ledger.balanceOf (token st') 1 7 = 10 /\
     Ledger.balanceOf (token st') 100 7 = 0 /\
     Ledger.balanceOf (token st') 2 7 = 2) /\
  execute Scenario.s3 (mkMsg 1 90000) (CancelListing 1)
  = (Scenario.s3, Reverted InsufficientBalance).
Proof.
  split.
  - destruct (cancelListing_returns_available Scenario.s2 (mkMsg 1 3000) 1)
      as [Hok _];
      [exact reachable_s2 | vm_compute; reflexivity | vm_compute; reflexivity |].
    destruct Hok as (st' & Hst' & _ & _ & _ & Hmoved); [by_compute|].
    exists st'. split; [exact Hst'|].
    rewrite !Hmoved. by_compute.
  - apply (cancelListing_returns_available Scenario.s3 (mkMsg 1 90000) 1);
      [exact reachable_s3 | vm_compute; reflexivity | vm_compute; reflexivity
      | by_compute].
Defined.

(** C4: the first body's [cancelListing] does not return the unrented units
    after an ordinary rental.  In the scenario the lender lists 10 units,
    the borrower rents 2 and returns them when due: [endSession] sends them
    to the lender and adds them to [availableUnits] all the same, so the
    listing is active with [availableUnits = 10], no session is open, and
    the engine holds 8.  [cancelListing] by the lender then reverts and the
    8 units stay with the engine.  Once a second lender has listed 5 units
    of the same batch, the first lender's [cancelListing] succeeds and takes
    10 units, 2 of them from the second lender's deposit (the first lender
    ends with 14 of the 12 units it ever held), and the second lender's own
    [cancelListing] reverts. *)
Theorem cancelListing_custody_defect :
  (reachable Scenario.s3 /\
   Listing.isActive (listings Scenario.s3 !!! 1) = true /\
   Listing.lender (listings Scenario.s3 !!! 1) = 1 /\
   Listing.availableUnits (listings Scenario.s3 !!! 1) = 10 /\
   sessionCounter Scenario.s3 = 1 /\
   Session.isActive (sessions Scenario.s3 !!! 1) = false /\
   Ledger.balanceOf (token Scenario.s3) 100 7 = 8 /\
   Ledger.balanceOf (token Scenario.s3) 1 7 = 4 /\
   execute Scenario.s3 (mkMsg 1 90000) (CancelListing 1)
   = (Scenario.s3, Reverted InsufficientBalance)) /\
  (reachable Pool.s5 /\
   Listing.isActive (listings Pool.s5 !!! 2) = true /\
   Listing.lender (listings Pool.s5 !!! 2) = 3 /\
   Listing.availableUnits (listings Pool.s5 !!! 2) = 5 /\
   Ledger.balanceOf (token Pool.s5) 100 7 = 13 /\
   execute Pool.s5 (mkMsg 1 91000) (CancelListing 1) = (Pool.s6, Success) /\
   Ledger.balanceOf (token Pool.s6) 1 7 = 14 /\
   Ledger.balanceOf (token Pool.s6) 100 7 = 3 /\
   execute Pool.s6 (mkMsg 3 92000) (CancelListing 2)
   = (Pool.s6, Reverted InsufficientBalance)).
Proof.
  split.
  - split; [exact reachable_s3 |].
    do 7 (split; [vm_compute; reflexivity |]).
    unfold execute.
    assert (run Scenario.s3 (mkMsg 1 90000) (CancelListing 1)
            = Err InsufficientBalance) as -> by (vm_compute; reflexivity).
    reflexivity.
  - split.
    { apply reachable_call; [| by_compute ..].
      apply (reach_step Scenario.s3); [exact reachable_s3 | apply step_env]. }
    do 4 (split; [vm_compute; reflexivity |]).
    split.
    { unfold Pool.s6, execute.
      destruct (run Pool.s5 (mkMsg 1 91000) (CancelListing 1)) eqn:E;
        [reflexivity | vm_compute in E; discriminate E]. }
    do 2 (split; [vm_compute; reflexivity |]).
    unfold execute.
    assert (run Pool.s6 (mkMsg 3 92000) (CancelListing 2)
            = Err InsufficientBalance) as -> by (vm_compute; reflexivity).
    reflexivity.
Qed.

(** C5: a successful [createListing] means that the lender held at least
    [units] of the batch and had approved the engine as operator, and it
    moves exactly [units] from the lender to the engine; when the lender
    holds fewer than [units], the call is rejected and the state, hence the
    listings and every ledger entry, is unchanged. *)
Theorem createListing_custody (st : State) (m : Msg)
    (tokenId pricePerUnit units minDuration maxDuration : Z) :
  sender m <> this st ->
  (forall st',
     execute st m (CreateListing tokenId pricePerUnit units minDuration maxDuration)
     = (st', Success) ->
     units <= Ledger.balanceOf (token st) (sender m) tokenId /\
     Ledger.isApprovedForAll (token st) (sender m) (this st) = true /\
     (forall h i,
        Ledger.balanceOf (token st') h i =
        Ledger.balanceOf (token st) h i
        + credited2 h i (this st) tokenId units
        - credited2 h i (sender m) tokenId units) /\
     listingCounter st' = listingCounter st + 1 /\
     listings st' =
       <[listingCounter st + 1 :=
           Listing.mk (sender m) tokenId pricePerUnit units units
                      minDuration maxDuration (timestamp m) true]> (listings st)) /\
  (Ledger.balanceOf (token st) (sender m) tokenId < units ->
   exists e,
     execute st m (CreateListing tokenId pricePerUnit units minDuration maxDuration)
     = (st, Reverted e)).
Proof.
  intros Hself. split.
  - intros st' H. apply execute_Ok in H. simpl in H.
    apply createListing_Ok in H.
    destruct H as (_ & _ & _ & _ & _ & _ & tk & Etk & ->).
    apply safeTransferFrom_Ok in Etk.
    destruct Etk as (Hbal & Hauth & _ & Hmoved).
    split; [exact Hbal | split; [|split; [exact Hmoved | split; reflexivity]]].
    destruct Hauth as [Heq | Happr]; [congruence | exact Happr].
  - intros Hshort. unfold execute.
    destruct (run st m _) as [st'|e] eqn:Hrun; [|eauto].
    simpl in Hrun. apply createListing_Ok in Hrun.
    destruct Hrun as (_ & _ & _ & _ & _ & _ & tk & Etk & _).
    apply safeTransferFrom_Ok in Etk. lia.
Qed.

Lemma createListing_custody_witness :
  Ledger.balanceOf (token Scenario.s1) 100 7 = 10 /\
  Ledger.balanceOf (token Scenario.s1) 1 7 = 2 /\
  exists e,
    execute Scenario.s1 (mkMsg 1 1500) (CreateListing 7 1 5 86400 172800)
    = (Scenario.s1, Reverted e).
Proof.
  destruct (createListing_custody Scenario.s0 Scenario.lender 7 1 10 86400 172800)
    as [Hok _]; [vm_compute; discriminate |].
  destruct (Hok Scenario.s1) as (_ & _ & Hmoved & _).
  { unfold Scenario.s1, execute.
    destruct (run Scenario.s0 Scenario.lender _) eqn:E;
      [reflexivity | vm_compute in E; discriminate E]. }
  split; [rewrite Hmoved; by_compute | split; [rewrite Hmoved; by_compute |]].
  apply (createListing_custody Scenario.s1 (mkMsg 1 1500) 7 1 5 86400 172800);
    [vm_compute; discriminate | by_compute].
Defined.

End ListingClaims.

Section StartClaims.
Import Simple.

(** C2: [startSession(listingId, units, duration)] with payment [value]
    succeeds only if the listing is active, [0 < units <= availableUnits],
    [minDuration <= duration <= maxDuration], [totalCost = pricePerUnit *
    units * duration] fits in 256 bits and [value >= totalCost].  On success
    the payment leaves the borrower, the fee split of [totalCost] reaches the
    lender and the platform wallet, the excess [value - totalCost] returns to
    the borrower, [availableUnits] drops by [units], a new session is
    recorded with [endTime = startTime + duration] and [totalPaid =
    totalCost], and [units] move from the engine to the borrower.  If a
    precondition fails, the call reverts and the state is unchanged. *)
Theorem startSession_atomic (st : State) (m : Msg)
    (listingId units duration value : Z) :
  uint256 units -> uint256 duration -> uint256 value ->
  uint256 (platformFee st) ->
  uint256 (Listing.pricePerUnit (listings st !!! listingId)) ->
  let listing := listings st !!! listingId in
  let totalCost := Listing.pricePerUnit listing * units * duration in
  let feeAmount := totalCost * platformFee st / 10000 in
  let ready :=
    Listing.isActive listing = true /\
    0 < units <= Listing.availableUnits listing /\
    Listing.minDuration listing <= duration <= Listing.maxDuration listing /\
    totalCost <= MAX_UINT256 /\
    totalCost <= value in
  (forall st',
     execute st m (StartSession listingId units duration value) = (st', Success) ->
     ready /\
     (forall a,
        ethOf (eth st') a =
        ethOf (eth st) a - credited a (sender m) value
        + credited a (Listing.lender listing) (totalCost - feeAmount)
        + credited a (platformWallet st) feeAmount
        + credited a (sender m) (value - totalCost)) /\
     listings st' =
       <[listingId := Listing.set_availableUnits listing
                        (Listing.availableUnits listing - units)]> (listings st) /\
     sessionCounter st' = sessionCounter st + 1 /\
     sessions st' =
       <[sessionCounter st + 1 :=
           Session.mk (sender m) listingId units (timestamp m)
                      (timestamp m + duration) totalCost true]> (sessions st) /\
     (forall h i,
        Ledger.balanceOf (token st') h i =
        Ledger.balanceOf (token st) h i
        + credited2 h i (sender m) (Listing.tokenId listing) units
        - credited2 h i (this st) (Listing.tokenId listing) units)) /\
  (~ ready ->
   exists e,
     execute st m (StartSession listingId units duration value)
     = (st, Reverted e)).
Proof.
  intros [Hu _] [Hd _] [Hv _] [Hf _] [Hp _] listing totalCost feeAmount ready.
  assert (Hsucc : forall st',
            run st m (StartSession listingId units duration value) = Ok st' ->
            ready /\
            (forall a,
               ethOf (eth st') a =
               ethOf (eth st) a - credited a (sender m) value
               + credited a (Listing.lender listing) (totalCost - feeAmount)
               + credited a (platformWallet st) feeAmount
               + credited a (sender m) (value - totalCost)) /\
            listings st' =
              <[listingId := Listing.set_availableUnits listing
                               (Listing.availableUnits listing - units)]>
                (listings st) /\
            sessionCounter st' = sessionCounter st + 1 /\
            sessions st' =
              <[sessionCounter st + 1 :=
                  Session.mk (sender m) listingId units (timestamp m)
                             (timestamp m + duration) totalCost true]>
                (sessions st) /\
            (forall h i,
               Ledger.balanceOf (token st') h i =
               Ledger.balanceOf (token st) h i
               + credited2 h i (sender m) (Listing.tokenId listing) units
               - credited2 h i (this st) (Listing.tokenId listing) units)).
  { intros st' H. simpl in H. inv_ok.
    match goal with
    | Hm : ethMove _ _ _ _ = Ok ?e |- _ =>
        apply ethMove_Ok in Hm; destruct Hm as [_ Hin]
    end.
    apply startSession_Ok in H. simpl in H.
    fold listing in H. fold totalCost in H. fold feeAmount in H.
    destruct H as (_ & Hact & Hunits & Hdur & Hcost & Hpay & _ & _
                   & e & tk & Hflow & Etk & ->).
    apply safeTransferFrom_Ok in Etk. destruct Etk as (_ & _ & _ & Hmoved).
    assert (0 <= feeAmount) as Hfee.
    { unfold feeAmount. apply Z.div_pos; [|lia].
      assert (0 <= totalCost) as Hc0.
      { unfold totalCost.
        repeat apply Z.mul_nonneg_nonneg; [exact Hp | exact Hu | exact Hd]. }
      apply Z.mul_nonneg_nonneg; [exact Hc0 | exact Hf]. }
    split; [unfold ready; tauto |].
    simpl. split; [|repeat split; exact Hmoved].
    intros a. rewrite (Hflow Hfee a), Hin. lia. }
  split.
  - intros st' H. apply Hsucc. apply execute_Ok. exact H.
  - intros Hnot. unfold execute.
    destruct (run st m _) as [st'|e] eqn:Hrun; [|eauto].
    exfalso. apply Hnot. apply (Hsucc st'). reflexivity.
Qed.

Lemma startSession_atomic_witness :
  (Listing.availableUnits (listings Scenario.s2 !!! 1) = 8 /\
   Session.endTime (sessions Scenario.s2 !!! 1) = 88400 /\
   Session.totalPaid (sessions Scenario.s2 !!! 1) = 172800 /\
   ethOf (eth Scenario.s2) 1 = 164160 /\
   ethOf (eth Scenario.s2) 9 = 8640 /\
   Ledger.balanceOf (token Scenario.s2) 2 7 = 2) /\
  exists e,
    execute Scenario.s2 (Scenario.borrower 2500) (StartSession 1 9 86400 777600)
    = (Scenario.s2, Reverted e).
Proof.
  split.
  - destruct (startSession_atomic Scenario.s1 (Scenario.borrower 2000)
                1 2 86400 172800) as [Hok _]; [by_compute ..|].
    destruct (Hok Scenario.s2) as (_ & Heth & Hl & _ & Hs & Htok).
    { unfold Scenario.s2, execute.
      destruct (run Scenario.s1 _ _) eqn:E;
        [reflexivity | vm_compute in E; discriminate E]. }
    rewrite Hl, Hs, !Heth, Htok.
    rewrite !lookup_total_insert_eq. by_compute.
  - apply (startSession_atomic Scenario.s2 (Scenario.borrower 2500)
             1 9 86400 777600); [by_compute ..|].
    intros (_ & [_ Havail] & _).
    vm_compute in Havail. apply Havail. reflexivity.
Defined.

End StartClaims.

(** ** Second body: payments and listing creation *)

Section ProratedPayments.
Import Prorated.

Lemma credited_bounds (a b : address) (q : Z) : 0 <= q -> 0 <= credited a b q <= q.
Proof. intros Hq. unfold credited. destruct (a =? b); lia. Qed.

(** [_distributePayment] hands out exactly [amount]: the floor of the fee to
    the platform wallet, the rest to the lender. *)
Lemma distributePayment_exact (st : State) (lender : address) (amount : Z) :
  0 <= amount -> 0 <= platformFee st < 10000 ->
  amount * platformFee st <= MAX_UINT256 ->
  amount <= ethOf (eth st) (this st) ->
  exists st',
    _distributePayment st lender amount = Ok st' /\
    forall a,
      ethOf (eth st') a =
      ethOf (eth st) a
      + credited a (platformWallet st) (amount * platformFee st / 10000)
      + credited a lender (amount - amount * platformFee st / 10000)
      - credited a (this st) amount.
Proof.
  intros Ha Hf Hm Hfunds. unfold _distributePayment.
  rewrite feeSplit_fits by assumption. simpl.
  pose proof (fee_floor_le amount (platformFee st) Ha Hf) as Hp.
  set (p := amount * platformFee st / 10000) in *.
  assert (exists st1,
            (if 0 <? p then pay st (platformWallet st) p else Ok st) = Ok st1 /\
            this st1 = this st /\
            forall a, ethOf (eth st1) a =
                      ethOf (eth st) a + credited a (platformWallet st) p
                      - credited a (this st) p) as (st1 & -> & Hthis & E1).
  { destruct (Z.ltb_spec 0 p).
    - destruct (ethMove_fits (eth st) (this st) (platformWallet st) p)
        as (e1 & E1); [lia|].
      unfold pay. rewrite E1. simpl. eexists. split; [reflexivity|].
      split; [reflexivity|]. simpl. apply ethMove_Ok in E1. apply E1.
    - exists st. split; [reflexivity | split; [reflexivity|]].
      intros a. replace p with 0 by lia. rewrite !credited_zero. lia. }
  simpl.
  assert (amount - p <= ethOf (eth st1) (this st1)) as Hleft.
  { rewrite Hthis, E1.
    pose proof (credited_bounds (this st) (platformWallet st) p (proj1 Hp)).
    unfold credited at 2. rewrite Z.eqb_refl. lia. }
  destruct (Z.ltb_spec 0 (amount - p)).
  - destruct (ethMove_fits (eth st1) (this st1) lender (amount - p) Hleft)
      as (e2 & E2).
    unfold pay. rewrite E2. simpl. eexists. split; [reflexivity|].
    simpl. apply ethMove_Ok in E2. destruct E2 as [_ E2].
    intros a. rewrite E2, E1, Hthis.
    pose proof (credited_plus a (this st) p (amount - p)) as Hc.
    replace (p + (amount - p)) with amount in Hc by lia. lia.
  - exists st1. split; [reflexivity|].
    intros a. rewrite E1.
    replace (amount - p) with 0 by lia. rewrite credited_zero.
    replace (credited a (this st) amount) with (credited a (this st) p)
      by (f_equal; lia).
    lia.
Qed.

(** Listing creation checks the lender's balance and approval by explicit
    [require] and leaves the ledger as it is: the units move at
    [startSession]. *)
Lemma createListing_prorated_checks (st st' : State) (m : Msg)
    (tokenId pricePerUnit units : Z) :
  createListing st m tokenId pricePerUnit units = Ok st' ->
  units <= Ledger.balanceOf (token st) (sender m) tokenId /\
  Ledger.isApprovedForAll (token st) (sender m) (this st) = true /\
  token st' = token st /\
  listingCounter st' = listingCounter st + 1.
Proof.
  unfold createListing. intros H; inv_ok. subst st'. boolify.
  simpl. auto.
Qed.

End ProratedPayments.

(** ** Closing a session, in both bodies *)

Section ProratedShapes.
Import Prorated.

Lemma prorated_tokenTransfer_Ok (st st' : State) (from to : address) (id q : Z) :
  tokenTransfer st from to id q = Ok st' ->
  exists tk,
    Ledger.safeTransferFrom (token st) (this st) from to id q = Ok tk /\
    st' = set_token st tk.
Proof.
  unfold tokenTransfer; intros H; inv_ok. subst. eauto.
Qed.

Lemma prorated_pay_Ok (st st' : State) (to : address) (v : Z) :
  pay st to v = Ok st' ->
  exists e, ethMove (eth st) (this st) to v = Ok e /\ st' = set_eth st e.
Proof.
  unfold pay; intros H; inv_ok. subst. eauto.
Qed.

(** An optional payment leaves listings, sessions and the owner alone. *)
Lemma prorated_pay_if (st st' : State) (b : bool) (to : address) (v : Z) :
  (if b then pay st to v else Ok st) = Ok st' ->
  sessions st' = sessions st /\ listings st' = listings st /\
  owner st' = owner st /\ token st' = token st.
Proof.
  destruct b; intros H.
  - apply prorated_pay_Ok in H. destruct H as (e & _ & ->). auto.
  - injection H as <-. auto.
Qed.

Lemma prorated_endSession_Ok (st st' : State) (m : Msg) (sessionId : Z) :
  endSession st m sessionId = Ok st' ->
  let session := sessions st !!! sessionId in
  Session.isActive session = true /\
  (sender m = Session.borrower session \/ sender m = owner st) /\
  sessions st' = <[sessionId := Session.set_isActive session false]> (sessions st) /\
  listings st' = listings st.
Proof.
  unfold endSession. intros H; inv_ok.
  match goal with
  | Ht : tokenTransfer _ _ _ _ _ = Ok _ |- _ =>
      apply prorated_tokenTransfer_Ok in Ht; destruct Ht as (tk & _ & ->)
  end.
  match goal with
  | Ha : _ || _ = true |- _ => apply orb_true_iff in Ha; rename Ha into Hauth
  end.
  simpl. split; [assumption | split].
  - destruct Hauth as [Ha|Ha]; apply Z.eqb_eq in Ha; auto.
  - destruct (_ <? _) in H.
    + inv_ok.
      match goal with
      | H1 : (if _ then pay _ _ _ else _) = Ok ?s3 |- _ =>
          apply prorated_pay_if in H1; destruct H1 as (Hs1 & Hl1 & _)
      end.
      apply prorated_pay_if in H. destruct H as (Hs & Hl & _).
      rewrite Hs, Hs1, Hl, Hl1. simpl. auto.
    + injection H as <-. simpl. auto.
Qed.

Lemma prorated_pay_if_eth (st st' : State) (b : bool) (to : address) (v : Z) :
  (if b then pay st to v else Ok st) = Ok st' ->
  this st' = this st /\ platformWallet st' = platformWallet st /\
  forall a, a <> to -> a <> this st -> ethOf (eth st') a = ethOf (eth st) a.
Proof.
  destruct b; intros H.
  - apply prorated_pay_Ok in H. destruct H as (e & E & ->).
    apply ethMove_Ok in E. destruct E as [_ E].
    simpl. repeat split. intros a Hto Hthis. rewrite E. unfold credited.
    destruct (Z.eqb_spec a to); [contradiction|].
    destruct (Z.eqb_spec a (this st)); [contradiction | lia].
  - injection H as <-. auto.
Qed.

(** Whatever the settlement, [endSession] of the second body pays nobody but
    the lender and the platform wallet: an account that is neither of them
    (nor the engine), such as the borrower, keeps its Ether balance. *)
Lemma prorated_endSession_pays_lender_and_platform
    (st st' : State) (m : Msg) (sessionId : Z) :
  endSession st m sessionId = Ok st' ->
  forall a,
    a <> Listing.lender
           (listings st !!! Session.listingId (sessions st !!! sessionId)) ->
    a <> platformWallet st -> a <> this st ->
    ethOf (eth st') a = ethOf (eth st) a.
Proof.
  unfold endSession. intros H a Hl Hw Ht; inv_ok.
  match goal with
  | Hx : tokenTransfer _ _ _ _ _ = Ok _ |- _ =>
      apply prorated_tokenTransfer_Ok in Hx; destruct Hx as (tk & _ & ->)
  end.
  destruct (_ <? _) in H.
  - inv_ok.
    match goal with
    | H1 : (if _ then pay _ _ _ else _) = Ok ?s3 |- _ =>
        apply prorated_pay_if_eth in H1;
        destruct H1 as (Hthis1 & Hwallet1 & Heth1)
    end.
    apply prorated_pay_if_eth in H. destruct H as (_ & _ & Heth2).
    simpl in *. rewrite Heth2, Heth1; congruence.
  - injection H as <-. reflexivity.
Qed.

End ProratedShapes.

(** C7: in both bodies, [endSession] on a session that is not active fails
    with the "not active" error and leaves the state as it was; and a
    successful [endSession] leaves the session closed, so that a second call,
    by any caller at any time, fails in that way without any transfer: the
    state after the failed second call is the state after the first call. *)
Theorem endSession_twice :
  (forall (st : Simple.State) (m : Msg) (sessionId : Z),
     Simple.Session.isActive (Simple.sessions st !!! sessionId) = false ->
     Simple.execute st m (Simple.EndSession sessionId)
     = (st, Reverted (ErrorString "Session not active"))) /\
  (forall (st st' : Simple.State) (m m' : Msg) (sessionId : Z),
     Simple.execute st m (Simple.EndSession sessionId) = (st', Success) ->
     Simple.execute st' m' (Simple.EndSession sessionId)
     = (st', Reverted (ErrorString "Session not active"))) /\
  (forall (st : Prorated.State) (m : Msg) (sessionId : Z),
     Prorated.Session.isActive (Prorated.sessions st !!! sessionId) = false ->
     Prorated.execute st m (Prorated.EndSession sessionId)
     = (st, Reverted (ErrorString "Session is not active"))) /\
  (forall (st st' : Prorated.State) (m m' : Msg) (sessionId : Z),
     Prorated.execute st m (Prorated.EndSession sessionId) = (st', Success) ->
     Prorated.execute st' m' (Prorated.EndSession sessionId)
     = (st', Reverted (ErrorString "Session is not active"))).
Proof.
  assert (Hs : forall (st : Simple.State) (m : Msg) (sessionId : Z),
     Simple.Session.isActive (Simple.sessions st !!! sessionId) = false ->
     Simple.execute st m (Simple.EndSession sessionId)
     = (st, Reverted (ErrorString "Session not active"))).
  { intros st m sid Hclosed. unfold Simple.execute. simpl.
    unfold Simple.endSession, Simple.onlyActiveSession.
    rewrite Hclosed. reflexivity. }
  assert (Hp : forall (st : Prorated.State) (m : Msg) (sessionId : Z),
     Prorated.Session.isActive (Prorated.sessions st !!! sessionId) = false ->
     Prorated.execute st m (Prorated.EndSession sessionId)
     = (st, Reverted (ErrorString "Session is not active"))).
  { intros st m sid Hclosed. unfold Prorated.execute. simpl.
    unfold Prorated.endSession. rewrite Hclosed. reflexivity. }
  split; [exact Hs | split; [|split; [exact Hp |]]].
  - intros st st' m m' sid H. apply Hs.
    apply execute_Ok in H. simpl in H.
    apply endSession_Ok in H. simpl in H.
    destruct H as (_ & _ & tk & _ & Hst).
    destruct (Simple.Listing.isActive _) in Hst.
    + destruct Hst as [_ ->]. simpl. rewrite lookup_total_insert_eq. reflexivity.
    + subst st'. simpl. rewrite lookup_total_insert_eq. reflexivity.
  - intros st st' m m' sid H. apply Hp.
    unfold Prorated.execute in H.
    destruct (Prorated.run st m _) as [s|] eqn:Hrun; [|discriminate].
    injection H as <-. simpl in Hrun.
    apply prorated_endSession_Ok in Hrun. simpl in Hrun.
    destruct Hrun as (_ & _ & -> & _).
    rewrite lookup_total_insert_eq. reflexivity.
Qed.

Lemma endSession_twice_witness :
  Simple.execute Scenario.s3 (Scenario.borrower 90000) (Simple.EndSession 1)
  = (Scenario.s3, Reverted (ErrorString "Session not active")) /\
  Prorated.execute
    (fst (Prorated.execute (Scenario.p2 120) (Scenario.borrower 1100)
                           (Prorated.EndSession 1)))
    (Scenario.borrower 1200) (Prorated.EndSession 1)
  = (fst (Prorated.execute (Scenario.p2 120) (Scenario.borrower 1100)
                           (Prorated.EndSession 1)),
     Reverted (ErrorString "Session is not active")).
Proof.
  destruct endSession_twice as (_ & Hs & _ & Hp). split.
  - apply (Hs (Scenario.approve_borrower Scenario.s2) Scenario.s3
              (Scenario.borrower 88400)).
    unfold Scenario.s3, Simple.execute.
    destruct (Simple.run _ _ _) eqn:E;
      [reflexivity | vm_compute in E; discriminate E].
  - apply (Hp (Scenario.p2 120) _ (Scenario.borrower 1100)).
    unfold Prorated.execute.
    destruct (Prorated.run _ _ _) eqn:E;
      [reflexivity | vm_compute in E; discriminate E].
Defined.

(** In the second body, only the borrower or the owner closes a session:
    any other caller is rejected and nothing changes. *)
Lemma endSession_prorated_authorized (st : Prorated.State) (m : Msg) (sessionId : Z) :
  Prorated.Session.isActive (Prorated.sessions st !!! sessionId) = true ->
  (forall st',
     Prorated.execute st m (Prorated.EndSession sessionId) = (st', Success) ->
     sender m = Prorated.Session.borrower (Prorated.sessions st !!! sessionId) \/
     sender m = Prorated.owner st) /\
  (sender m <> Prorated.Session.borrower (Prorated.sessions st !!! sessionId) ->
   sender m <> Prorated.owner st ->
   Prorated.execute st m (Prorated.EndSession sessionId)
   = (st, Reverted (ErrorString "Not authorized to end session"))).
Proof.
  intros Hact. split.
  - intros st' H. unfold Prorated.execute in H.
    destruct (Prorated.run st m _) as [s|] eqn:Hrun; [|discriminate].
    simpl in Hrun. apply prorated_endSession_Ok in Hrun. simpl in Hrun. tauto.
  - intros Hb Ho. unfold Prorated.execute. simpl.
    unfold Prorated.endSession. rewrite Hact. simpl.
    destruct (Z.eqb_spec (sender m)
                (Prorated.Session.borrower (Prorated.sessions st !!! sessionId)));
      [contradiction|].
    destruct (Z.eqb_spec (sender m) (Prorated.owner st)); [contradiction|].
    reflexivity.
Qed.

(** C8 fails on the first body, whose [endSession] has no check of the
    caller: in the scenario the lender, who is neither the borrower (account
    2) nor the owner (account 9), closes the borrower's session when it is
    due.  The two units stay with the borrower, the lender's own units are
    "returned" to the lender, and the listing shows 10 available units
    again. *)
Theorem endSession_simple_any_caller :
  Simple.reachable Scenario.s2 /\
  Simple.Session.isActive (Simple.sessions Scenario.s2 !!! 1) = true /\
  Simple.Session.borrower (Simple.sessions Scenario.s2 !!! 1) = 2 /\
  Simple.owner Scenario.s2 = 9 /\
  let after := Simple.execute Scenario.s2 (mkMsg 1 88400) (Simple.EndSession 1) in
  snd after = Success /\
  Simple.Session.isActive (Simple.sessions (fst after) !!! 1) = false /\
  Ledger.balanceOf (Simple.token (fst after)) 2 7 = 2 /\
  Ledger.balanceOf (Simple.token (fst after)) 100 7 = 8 /\
  Simple.Listing.availableUnits (Simple.listings (fst after) !!! 1) = 10.
Proof. split; [exact reachable_s2 |]. cbv zeta. by_compute. Qed.

(** The scenario of the second body starts from a deployment. *)
Lemma p0_deployed (funds : Z) :
  Prorated.constructor 100 9 50 9 500
    (Ledger.mk {[ (1, 7) := 10 ]} {[ (1, 100) := true ]})
    {[ 2 := 1000; 100 := funds ]}
  = Ok (Scenario.p0 funds).
Proof. reflexivity. Qed.

(** C6 fails on the second body.  In the scenario the borrower paid 200 for
    100 seconds (190 to the lender, 10 to the platform) and closes the
    session after 40 seconds, so that 120 is unused.  When the engine
    account holds 120, [endSession] pays 114 more to the lender and 6 more
    to the platform, and nothing to the borrower; when the engine account
    holds nothing, the call reverts. *)
Theorem endSession_prorated_refund :
  let before := Scenario.p2 120 in
  let after := Prorated.execute before (Scenario.borrower 1040)
                                (Prorated.EndSession 1) in
  (ethOf (Prorated.eth before) 1 = 190 /\
   ethOf (Prorated.eth before) 9 = 10 /\
   ethOf (Prorated.eth before) 2 = 800) /\
  snd after = Success /\
  ethOf (Prorated.eth (fst after)) 1 = 304 /\
  ethOf (Prorated.eth (fst after)) 9 = 16 /\
  ethOf (Prorated.eth (fst after)) 2 = 800 /\
  ethOf (Prorated.eth (fst after)) 100 = 0 /\
  snd (Prorated.execute (Scenario.p2 0) (Scenario.borrower 1040)
                        (Prorated.EndSession 1)) = Reverted OutOfFunds.
Proof. cbv zeta. by_compute. Qed.

(** ** The fee split on amounts of any size *)

(** C3 (amended): for every non-negative [total] and fee rate
    [feeBasisPoints < 10000] whose product [total * feeBasisPoints] does not
    exceed the largest 256-bit integer, the split computes [platformAmount =
    floor (total * feeBasisPoints / 10000)] and [lenderAmount = total -
    platformAmount]; both are non-negative and they add up to [total]
    exactly.  For larger totals the checked multiplication fails and the
    whole operation reverts: the split itself and [_distributePayment]
    panic, and [startSession] of either body, whose cost is [total], is
    reverted with the state unchanged. *)
Theorem feeSplit_exact (total feeBasisPoints : Z) :
  0 <= total -> 0 <= feeBasisPoints < 10000 ->
  (total * feeBasisPoints <= MAX_UINT256 ->
   exists platformAmount lenderAmount,
     feeSplit total feeBasisPoints = Ok (platformAmount, lenderAmount) /\
     platformAmount = total * feeBasisPoints / 10000 /\
     lenderAmount = total - platformAmount /\
     0 <= platformAmount /\ 0 <= lenderAmount /\
     platformAmount + lenderAmount = total) /\
  (MAX_UINT256 < total * feeBasisPoints ->
   feeSplit total feeBasisPoints = Err Panic /\
   (forall (st : Prorated.State) (lender : address),
      Prorated.platformFee st = feeBasisPoints ->
      Prorated._distributePayment st lender total = Err Panic) /\
   (forall (st : Simple.State) (m : Msg) (listingId units duration value : Z),
      Simple.platformFee st = feeBasisPoints ->
      Simple.Listing.pricePerUnit (Simple.listings st !!! listingId)
        * units * duration = total ->
      exists e,
        Simple.execute st m (Simple.StartSession listingId units duration value)
        = (st, Reverted e)) /\
   (forall (st : Prorated.State) (m : Msg) (listingId units duration value : Z),
      Prorated.platformFee st = feeBasisPoints ->
      Prorated.Listing.pricePerUnit (Prorated.listings st !!! listingId)
        * units * duration = total ->
      exists e,
        Prorated.execute st m
          (Prorated.StartSession listingId units duration value)
        = (st, Reverted e))).
Proof.
  intros Ht Hf. split.
  - intros Hm.
    exists (total * feeBasisPoints / 10000),
           (total - total * feeBasisPoints / 10000).
    pose proof (fee_floor_le total feeBasisPoints Ht Hf).
    split; [apply feeSplit_fits; assumption |].
    repeat split; lia.
  - intros Hbig.
    assert (Hsplit : feeSplit total feeBasisPoints = Err Panic).
    { unfold feeSplit. rewrite mul_overflow by exact Hbig. reflexivity. }
    split; [exact Hsplit |]. split; [| split].
    + intros st lender Hfee. unfold Prorated._distributePayment.
      rewrite Hfee, Hsplit. reflexivity.
    + intros st m listingId units duration value Hfee Hcost.
      unfold Simple.execute.
      destruct (Simple.run st m _) as [s|e] eqn:Hrun; [exfalso | eauto].
      simpl in Hrun. inv_ok. unfold Simple.startSession in Hrun. inv_ok.
      match goal with
      | Hs : feeSplit _ _ = Ok ?fl |- _ =>
          destruct fl as [p l]; apply feeSplit_Ok in Hs;
          destruct Hs as (_ & _ & _ & Hfit)
      end.
      simpl in Hfit. rewrite Hcost, Hfee in Hfit. lia.
    + intros st m listingId units duration value Hfee Hcost.
      unfold Prorated.execute.
      destruct (Prorated.run st m _) as [s|e] eqn:Hrun; [exfalso | eauto].
      simpl in Hrun. inv_ok. unfold Prorated.startSession in Hrun. inv_ok.
      match goal with
      | Ht : Prorated.tokenTransfer _ _ _ _ _ = Ok _ |- _ =>
          apply prorated_tokenTransfer_Ok in Ht; destruct Ht as (tk & _ & ->)
      end.
      match goal with
      | Hd : Prorated._distributePayment _ _ _ = Ok _ |- _ =>
          unfold Prorated._distributePayment in Hd; inv_ok
      end.
      match goal with
      | Hs : feeSplit _ _ = Ok ?fl |- _ =>
          destruct fl as [p l]; apply feeSplit_Ok in Hs;
          destruct Hs as (_ & _ & _ & Hfit)
      end.
      simpl in Hfit. rewrite Hcost, Hfee in Hfit. lia.
Qed.

Lemma feeSplit_exact_witness :
  feeSplit 14 500 = Ok (0, 14) /\
  feeSplit 172800 500 = Ok (8640, 164160) /\
  feeSplit (2 ^ 255) 2 = Err Panic.
Proof.
  split; [| split].
  - destruct (feeSplit_exact 14 500) as [Hok _]; [lia | lia |].
    destruct Hok as (p & l & E & -> & -> & _); [unfold MAX_UINT256; lia |].
    exact E.
  - destruct (feeSplit_exact 172800 500) as [Hok _]; [lia | lia |].
    destruct Hok as (p & l & E & -> & -> & _); [unfold MAX_UINT256; lia |].
    exact E.
  - destruct (feeSplit_exact (2 ^ 255) 2) as [_ Hrev]; [lia | lia |].
    destruct Hrev as [E _]; [unfold MAX_UINT256; lia | exact E].
Defined.

(** * Further properties of the code *)

(** ** The fee split, once more *)

(** X1: with a fee rate below 10000, the split of a positive amount leaves
    the lender a positive share, the platform strictly less than the whole,
    and the platform amount is the floor of [total * fee / 10000]. *)
Theorem feeSplit_lender_positive (total fee platformAmount lenderAmount : Z) :
  0 < total -> 0 <= fee < 10000 ->
  feeSplit total fee = Ok (platformAmount, lenderAmount) ->
  0 < lenderAmount <= total /\
  0 <= platformAmount < total /\
  platformAmount * 10000 <= total * fee < (platformAmount + 1) * 10000.
Proof.
  intros Ht Hf H. apply feeSplit_Ok in H.
  destruct H as (-> & -> & _ & _).
  pose proof (Z.mul_div_le (total * fee) 10000 ltac:(lia)) as Hlo.
  pose proof (Z.mul_succ_div_gt (total * fee) 10000 ltac:(lia)) as Hhi.
  assert (0 <= total * fee / 10000) by (apply Z.div_pos; nia).
  assert (total * fee / 10000 < total) by nia.
  repeat split; lia.
Qed.

Lemma feeSplit_lender_positive_witness :
  0 < 10 - 10 * 9999 / 10000 <= 10 /\ 0 <= 10 * 9999 / 10000 < 10.
Proof.
  destruct (feeSplit_lender_positive 10 9999 (10 * 9999 / 10000)
              (10 - 10 * 9999 / 10000)) as (Hl & Hp & _);
    [lia | lia | reflexivity |].
  split; assumption.
Defined.

(** ** First body: configuration and records *)

Section Records.
Import Simple.

Ltac on_key id k :=
  destruct (decide (id = k)) as [->|?];
  [ rewrite ?lookup_total_insert_eq
  | rewrite ?lookup_total_insert_ne by congruence ].

Lemma updateListing_checks (st st' : State) (m : Msg)
    (listingId newPricePerUnit newAvailableUnits newMinDuration newMaxDuration : Z) :
  updateListing st m listingId newPricePerUnit newAvailableUnits
                newMinDuration newMaxDuration = Ok st' ->
  paused st = false /\ 0 < newPricePerUnit /\
  minRentalDuration st <= newMinDuration <= newMaxDuration /\
  newMaxDuration <= maxRentalDuration st.
Proof.
  unfold updateListing, onlyLender, onlyActiveListing, whenNotPaused.
  intros H. inv_ok. boolify. repeat split; assumption.
Qed.

(** The configuration is written by the administrative calls only. *)
Lemma config_frame (st st' : State) :
  platformFee st' = platformFee st ->
  platformWallet st' = platformWallet st ->
  minRentalDuration st' = minRentalDuration st ->
  maxRentalDuration st' = maxRentalDuration st ->
  Configured st -> Configured st'.
Proof.
  intros H1 H2 H3 H4 [Hf Hw Hd]. constructor; rewrite ?H1, ?H2, ?H3, ?H4; assumption.
Qed.

Lemma Configured_run (st st' : State) (m : Msg) (c : Call) :
  Configured st -> valid_call c -> run st m c = Ok st' -> Configured st'.
Proof.
  intros HC Hv H. destruct c; simpl in H, Hv.
  - apply createListing_Ok in H.
    destruct H as (_ & _ & _ & _ & _ & _ & tk & _ & ->).
    apply (config_frame st); try reflexivity. exact HC.
  - apply updateListing_Ok in H. simpl in H.
    destruct H as (_ & _ & _ & _ & tk & ->).
    apply (config_frame st); try reflexivity. exact HC.
  - apply cancelListing_Ok in H. simpl in H.
    destruct H as (_ & _ & tk & _ & ->).
    apply (config_frame st); try reflexivity. exact HC.
  - inv_ok. apply startSession_Ok in H. simpl in H.
    destruct H as (_ & _ & _ & _ & _ & _ & _ & _ & e & tk & _ & _ & ->).
    apply (config_frame st); try reflexivity. exact HC.
  - apply endSession_Ok in H. simpl in H.
    destruct H as (_ & _ & tk & _ & Hst).
    destruct (Listing.isActive _) in Hst.
    + destruct Hst as [_ ->]. apply (config_frame st); try reflexivity. exact HC.
    + subst st'. apply (config_frame st); try reflexivity. exact HC.
  - unfold updatePlatformFee in H. inv_ok. subst st'. boolify.
    destruct HC as [Hf Hw Hd]. destruct Hv as [Hv0 _].
    constructor; simpl; try assumption. unfold BASIS_POINTS in *. lia.
  - unfold updatePlatformWallet in H. inv_ok. subst st'. boolify.
    destruct HC as [Hf Hw Hd]. constructor; simpl; assumption.
  - unfold updateRentalDurationLimits in H. inv_ok. subst st'. boolify.
    destruct HC as [Hf Hw Hd]. constructor; simpl; try assumption. lia.
  - unfold pause in H. inv_ok. subst st'.
    apply (config_frame st); try reflexivity. exact HC.
  - unfold unpause in H. inv_ok. subst st'.
    apply (config_frame st); try reflexivity. exact HC.
  - unfold emergencyStop in H. inv_ok. subst st'.
    apply (config_frame st); try reflexivity. exact HC.
Qed.

Lemma Configured_step (st st' : State) :
  Configured st -> step st st' -> Configured st'.
Proof.
  intros HC Hstep. destruct Hstep as [st m c _ Hv | st o tok e].
  - unfold execute. destruct (run st m c) as [s|err] eqn:Hrun; simpl.
    + exact (Configured_run _ _ _ _ HC Hv Hrun).
    + exact HC.
  - apply (config_frame st); try reflexivity. exact HC.
Qed.

Lemma reachable_Configured (st : State) : reachable st -> Configured st.
Proof.
  induction 1 as [? ? ? ? ? ? ? ? [Hf0 _] Hc | st st' _ IH Hstep].
  - unfold constructor in Hc. inv_ok. subst st. boolify.
    constructor; simpl; unfold BASIS_POINTS in *; first [assumption | lia].
  - exact (Configured_step _ _ IH Hstep).
Qed.

(** X2: in every reachable state the platform fee is below 10000 basis
    points, the platform wallet is not the zero address, and the global
    duration limits satisfy [0 < minRentalDuration < maxRentalDuration]:
    the constructor and the three update calls keep it so. *)
Theorem configuration_invariant (st : State) :
  reachable st ->
  0 <= platformFee st < 10000 /\
  platformWallet st <> 0 /\
  0 < minRentalDuration st < maxRentalDuration st.
Proof.
  intros Hr. apply reachable_Configured in Hr. destruct Hr as [Hf Hw Hd].
  unfold BASIS_POINTS in Hf. auto.
Qed.

Lemma configuration_invariant_witness :
  0 <= platformFee Scenario.s3 < 10000 /\ platformWallet Scenario.s3 <> 0.
Proof.
  destruct (configuration_invariant Scenario.s3 reachable_s3) as (Hf & Hw & _).
  split; assumption.
Defined.

Lemma Recorded_frame (st st' : State) :
  listingCounter st' = listingCounter st ->
  sessionCounter st' = sessionCounter st ->
  listings st' = listings st ->
  sessions st' = sessions st ->
  Recorded st -> Recorded st'.
Proof.
  intros H1 H2 H3 H4 [Hl Hs]. constructor.
  - intros id. rewrite H1, H3. apply Hl.
  - intros sid. rewrite H1, H2, H4. apply Hs.
Qed.

Lemma Recorded_run (st st' : State) (m : Msg) (c : Call) :
  Inv st -> Configured st -> Recorded st ->
  valid_call c -> run st m c = Ok st' -> Recorded st'.
Proof.
  intros HI HC [Hl Hs] Hv H.
  pose proof (inv_lc st HI) as [Hlc0 _].
  pose proof (inv_sc st HI) as [Hsc0 _].
  destruct HC as [_ _ Hdur].
  destruct c; simpl in H, Hv.
  - apply createListing_Ok in H.
    destruct H as (_ & Hu & Hp & Hmin & _ & _ & tk & _ & ->).
    constructor; simpl.
    + intros id Hid. on_key id (listingCounter st + 1); simpl; [lia|].
      apply Hl. lia.
    + intros sid Hsid. specialize (Hs sid Hsid). lia.
  - pose proof (updateListing_checks _ _ _ _ _ _ _ _ H) as (_ & Hp & Hmin & _).
    apply updateListing_Ok in H. simpl in H.
    destruct H as (_ & _ & _ & _ & tk & ->).
    constructor; simpl.
    + intros id Hid. on_key id listingId; simpl; [lia | apply Hl; exact Hid].
    + exact Hs.
  - apply cancelListing_Ok in H. simpl in H.
    destruct H as (_ & _ & tk & _ & ->).
    constructor; simpl.
    + intros id Hid. on_key id listingId; simpl; apply Hl; exact Hid.
    + exact Hs.
  - inv_ok. apply startSession_Ok in H. simpl in H.
    destruct H as (_ & Hact & Hu & Hd & _ & _ & _ & _ & e & tk & _ & _ & ->).
    pose proof (inv_listing_range st HI listingId Hact) as Hrange.
    pose proof (Hl listingId Hrange) as (Hp & Hmin).
    constructor; simpl.
    + intros id Hid. on_key id listingId; simpl; apply Hl; exact Hid.
    + intros sid Hsid. on_key sid (sessionCounter st + 1); simpl.
      * repeat split; try lia.
        apply Z.mul_pos_pos; [apply Z.mul_pos_pos|]; lia.
      * apply Hs. lia.
  - apply endSession_Ok in H. simpl in H.
    destruct H as (Hact & _ & tk & _ & Hst).
    pose proof (inv_session_range st HI sessionId Hact) as [Hsr _].
    assert (Hs' : forall sid,
      1 <= sid <= sessionCounter st ->
      let ss := <[sessionId := Session.set_isActive (sessions st !!! sessionId) false]>
                  (sessions st) in
      0 < Session.units (ss !!! sid) /\
      Session.startTime (ss !!! sid) < Session.endTime (ss !!! sid) /\
      0 < Session.totalPaid (ss !!! sid) /\
      1 <= Session.listingId (ss !!! sid) <= listingCounter st).
    { intros sid Hsid. simpl. on_key sid sessionId; simpl; apply Hs; assumption. }
    destruct (Listing.isActive _) in Hst.
    + destruct Hst as [_ ->]. constructor; simpl; [|exact Hs'].
      intros id Hid.
      on_key id (Session.listingId (sessions st !!! sessionId)); simpl;
        apply Hl; exact Hid.
    + subst st'. constructor; simpl; [exact Hl | exact Hs'].
  - unfold updatePlatformFee in H. inv_ok. subst st'.
    apply (Recorded_frame st); try reflexivity. constructor; assumption.
  - unfold updatePlatformWallet in H. inv_ok. subst st'.
    apply (Recorded_frame st); try reflexivity. constructor; assumption.
  - unfold updateRentalDurationLimits in H. inv_ok. subst st'.
    apply (Recorded_frame st); try reflexivity. constructor; assumption.
  - unfold pause in H. inv_ok. subst st'.
    apply (Recorded_frame st); try reflexivity. constructor; assumption.
  - unfold unpause in H. inv_ok. subst st'.
    apply (Recorded_frame st); try reflexivity. constructor; assumption.
  - unfold emergencyStop in H. inv_ok. subst st'.
    apply (Recorded_frame st); try reflexivity. constructor; assumption.
Qed.

Lemma reachable_Recorded (st : State) : reachable st -> Recorded st.
Proof.
  induction 1 as [? ? ? ? ? ? ? ? _ Hc | st st' Hr IH Hstep].
  - unfold constructor in Hc. inv_ok. subst st.
    constructor; simpl; intros; lia.
  - destruct Hstep as [st m c _ Hv | st o tok e].
    + unfold execute. destruct (run st m c) as [s|err] eqn:Hrun; simpl.
      * exact (Recorded_run _ _ _ _ (reachable_Inv _ Hr)
                 (reachable_Configured _ Hr) IH Hv Hrun).
      * exact IH.
    + apply (Recorded_frame st); try reflexivity. exact IH.
Qed.

(** X3: in every reachable state, every listing on record has a positive
    price and duration bounds [0 < minDuration <= maxDuration], and every
    session on record has [units > 0], [startTime < endTime], a positive
    [totalPaid], and refers to a listing on record. *)
Theorem records_invariant (st : State) :
  reachable st ->
  (forall id,
     1 <= id <= listingCounter st ->
     0 < Listing.pricePerUnit (listings st !!! id) /\
     0 < Listing.minDuration (listings st !!! id)
       <= Listing.maxDuration (listings st !!! id)) /\
  (forall sid,
     1 <= sid <= sessionCounter st ->
     0 < Session.units (sessions st !!! sid) /\
     Session.startTime (sessions st !!! sid) < Session.endTime (sessions st !!! sid) /\
     0 < Session.totalPaid (sessions st !!! sid) /\
     1 <= Session.listingId (sessions st !!! sid) <= listingCounter st).
Proof.
  intros Hr. apply reachable_Recorded in Hr. destruct Hr as [Hl Hs].
  split; assumption.
Qed.

Lemma records_invariant_witness :
  0 < Session.units (sessions Scenario.s3 !!! 1) /\
  Session.startTime (sessions Scenario.s3 !!! 1)
    < Session.endTime (sessions Scenario.s3 !!! 1).
Proof.
  destruct (records_invariant Scenario.s3 reachable_s3) as [_ Hs].
  destruct (Hs 1) as (Hu & Ht & _); [by_compute|].
  split; assumption.
Defined.

End Records.

(** ** First body: records are kept, indices are exact *)

Section History.
Import Simple.

Ltac on_key id k :=
  destruct (decide (id = k)) as [->|?];
  [ rewrite ?lookup_total_insert_eq
  | rewrite ?lookup_total_insert_ne by (congruence || lia) ].

Lemma Continues_refl (st : State) : Continues st st.
Proof. constructor; simpl; auto; lia. Qed.

Lemma Continues_trans (st1 st2 st3 : State) :
  Continues st1 st2 -> Continues st2 st3 -> Continues st1 st3.
Proof.
  intros [Hl1 Hs1 HL1 HS1] [Hl2 Hs2 HL2 HS2]. constructor; try lia.
  - intros id Hid. simpl.
    destruct (HL1 id Hid) as (A1 & B1 & C1 & D1).
    destruct (HL2 id ltac:(lia)) as (A2 & B2 & C2 & D2).
    repeat split; try congruence. auto.
  - intros sid Hsid. simpl.
    destruct (HS1 sid Hsid) as (A1 & B1).
    destruct (HS2 sid ltac:(lia)) as (A2 & B2).
    split; [congruence | auto].
Qed.

(** Nothing on record changes when the maps and counters stay. *)
Lemma Continues_frame (st st' : State) :
  listingCounter st' = listingCounter st ->
  sessionCounter st' = sessionCounter st ->
  listings st' = listings st ->
  sessions st' = sessions st ->
  Continues st st'.
Proof.
  intros H1 H2 H3 H4. constructor; rewrite ?H1, ?H2, ?H3, ?H4; simpl; auto; lia.
Qed.

Lemma Continues_run (st st' : State) (m : Msg) (c : Call) :
  run st m c = Ok st' -> Continues st st'.
Proof.
  intros H. destruct c; simpl in H.
  - apply createListing_Ok in H.
    destruct H as (_ & _ & _ & _ & _ & _ & tk & _ & ->).
    constructor; simpl; try lia.
    + intros id Hid. on_key id (listingCounter st + 1); [lia | auto].
    + auto.
  - apply updateListing_Ok in H. simpl in H.
    destruct H as (_ & _ & _ & _ & tk & ->).
    constructor; simpl; try lia; [|auto].
    intros id Hid. on_key id listingId; simpl; auto.
  - apply cancelListing_Ok in H. simpl in H.
    destruct H as (_ & _ & tk & _ & ->).
    constructor; simpl; try lia; [|auto].
    intros id Hid. on_key id listingId; simpl; auto.
  - inv_ok. apply startSession_Ok in H. simpl in H.
    destruct H as (_ & _ & _ & _ & _ & _ & _ & _ & e & tk & _ & _ & ->).
    constructor; simpl; try lia.
    + intros id Hid. on_key id listingId; simpl; auto.
    + intros sid Hsid. on_key sid (sessionCounter st + 1); [lia | auto].
  - apply endSession_Ok in H. simpl in H.
    destruct H as (_ & _ & tk & _ & Hst).
    assert (Hs : forall sid,
      Session.set_isActive
        (<[sessionId := Session.set_isActive (sessions st !!! sessionId) false]>
           (sessions st) !!! sid) false
      = Session.set_isActive (sessions st !!! sid) false /\
      (Session.isActive (sessions st !!! sid) = false ->
       Session.isActive
         (<[sessionId := Session.set_isActive (sessions st !!! sessionId) false]>
            (sessions st) !!! sid) = false)).
    { intros sid. on_key sid sessionId; simpl; auto. }
    destruct (Listing.isActive _) eqn:Hact in Hst.
    + destruct Hst as [_ ->]. constructor; simpl; try lia.
      * intros id Hid.
        on_key id (Session.listingId (sessions st !!! sessionId)); simpl; auto;
          repeat split; auto; congruence.
      * intros sid _. apply Hs.
    + subst st'. constructor; simpl; try lia; [auto|].
      intros sid _. apply Hs.
  - unfold updatePlatformFee in H. inv_ok. subst st'.
    apply Continues_frame; reflexivity.
  - unfold updatePlatformWallet in H. inv_ok. subst st'.
    apply Continues_frame; reflexivity.
  - unfold updateRentalDurationLimits in H. inv_ok. subst st'.
    apply Continues_frame; reflexivity.
  - unfold pause in H. inv_ok. subst st'. apply Continues_frame; reflexivity.
  - unfold unpause in H. inv_ok. subst st'. apply Continues_frame; reflexivity.
  - unfold emergencyStop in H. inv_ok. subst st'.
    apply Continues_frame; reflexivity.
Qed.

Lemma Continues_step (st st' : State) : step st st' -> Continues st st'.
Proof.
  intros Hstep. destruct Hstep as [st m c _ _ | st o tok e].
  - unfold execute. destruct (run st m c) as [s|err] eqn:Hrun; simpl.
    + exact (Continues_run _ _ _ _ Hrun).
    + apply Continues_refl.
  - apply Continues_frame; reflexivity.
Qed.

Lemma Continues_steps (st st' : State) : steps st st' -> Continues st st'.
Proof.
  induction 1 as [st | st1 st2 st3 Hstep _ IH].
  - apply Continues_refl.
  - exact (Continues_trans _ _ _ (Continues_step _ _ Hstep) IH).
Qed.

(** X4: over any sequence of transactions and outside activity, the two
    counters never decrease; a listing on record keeps its lender, token id
    and creation time, and a session on record keeps every field but
    [isActive]; a cancelled listing and a closed session are never
    active again. *)
Theorem history_is_kept (st st' : State) :
  steps st st' ->
  listingCounter st <= listingCounter st' /\
  sessionCounter st <= sessionCounter st' /\
  (forall id,
     1 <= id <= listingCounter st ->
     Listing.lender (listings st' !!! id) = Listing.lender (listings st !!! id) /\
     Listing.tokenId (listings st' !!! id) = Listing.tokenId (listings st !!! id) /\
     Listing.createdAt (listings st' !!! id)
       = Listing.createdAt (listings st !!! id) /\
     (Listing.isActive (listings st !!! id) = false ->
      Listing.isActive (listings st' !!! id) = false)) /\
  (forall sid,
     1 <= sid <= sessionCounter st ->
     Session.set_isActive (sessions st' !!! sid) false
       = Session.set_isActive (sessions st !!! sid) false /\
     (Session.isActive (sessions st !!! sid) = false ->
      Session.isActive (sessions st' !!! sid) = false)).
Proof.
  intros H. apply Continues_steps in H. destruct H as [Hl Hs HL HS].
  repeat split; try assumption; try apply HL; try apply HS; assumption.
Qed.

Lemma steps_s1_s4 : steps Scenario.s1 Scenario.s4.
Proof.
  unfold steps.
  apply (rtc_l _ _ Scenario.s2); [apply step_call; by_compute |].
  apply (rtc_l _ _ Scenario.s2c); [apply step_call; by_compute |].
  apply (rtc_l _ _ (Scenario.approve_borrower Scenario.s2c)); [apply step_env |].
  apply rtc_once. apply step_call; by_compute.
Qed.

Lemma history_is_kept_witness :
  Listing.lender (listings Scenario.s4 !!! 1)
    = Listing.lender (listings Scenario.s1 !!! 1) /\
  listingCounter Scenario.s1 <= listingCounter Scenario.s4.
Proof.
  destruct (history_is_kept Scenario.s1 Scenario.s4 steps_s1_s4)
    as (Hlc & _ & HL & _).
  destruct (HL 1) as (Hlender & _); [by_compute|].
  split; assumption.
Defined.

End History.

Section Indices.
Import Simple SimpleQueries.

Ltac on_key id k :=
  destruct (decide (id = k)) as [->|?];
  [ rewrite ?lookup_total_insert_eq
  | rewrite ?lookup_total_insert_ne by (congruence || lia) ].

Lemma StronglySorted_snoc (l : list Z) (x : Z) :
  StronglySorted Z.lt l -> Forall (fun y => y < x) l ->
  StronglySorted Z.lt (l ++ [x]).
Proof.
  induction 1 as [|y l Hs IH Hy]; intros Hall; simpl.
  - constructor; constructor.
  - apply Forall_cons in Hall. destruct Hall as [Hyx Hall].
    constructor; [apply IH; exact Hall |].
    apply Forall_app. split; [exact Hy | constructor; [exact Hyx | constructor]].
Qed.

Lemma getListingsByLender_push (st : State) (a : address) (id : Z) (b : address) :
  getListingsByLender (push_userListing st a id) b =
  if decide (b = a) then getListingsByLender st a ++ [id]
  else getListingsByLender st b.
Proof.
  unfold getListingsByLender. simpl.
  destruct (decide (b = a)) as [->|Hne].
  - rewrite lookup_insert_eq. reflexivity.
  - rewrite lookup_insert_ne by congruence. reflexivity.
Qed.

Lemma getSessionsByBorrower_push (st : State) (a : address) (id : Z) (b : address) :
  getSessionsByBorrower (push_userSession st a id) b =
  if decide (b = a) then getSessionsByBorrower st a ++ [id]
  else getSessionsByBorrower st b.
Proof.
  unfold getSessionsByBorrower. simpl.
  destruct (decide (b = a)) as [->|Hne].
  - rewrite lookup_insert_eq. reflexivity.
  - rewrite lookup_insert_ne by congruence. reflexivity.
Qed.

Lemma ListingsIndexed_frame (st st' : State) :
  listingCounter st' = listingCounter st ->
  userListings st' = userListings st ->
  (forall id, Listing.lender (listings st' !!! id)
              = Listing.lender (listings st !!! id)) ->
  ListingsIndexed st -> ListingsIndexed st'.
Proof.
  intros H1 H2 H3 [Hin Hsort]. unfold ListingsIndexed, getListingsByLender in *.
  rewrite H1, H2. split; [|exact Hsort].
  intros a id. rewrite H3. apply Hin.
Qed.

Lemma SessionsIndexed_frame (st st' : State) :
  sessionCounter st' = sessionCounter st ->
  userSessions st' = userSessions st ->
  (forall sid, Session.borrower (sessions st' !!! sid)
               = Session.borrower (sessions st !!! sid)) ->
  SessionsIndexed st -> SessionsIndexed st'.
Proof.
  intros H1 H2 H3 [Hin Hsort]. unfold SessionsIndexed, getSessionsByBorrower in *.
  rewrite H1, H2. split; [|exact Hsort].
  intros a sid. rewrite H3. apply Hin.
Qed.

(** A new id [n + 1] enters the index of account [who] and of nobody else. *)
Lemma index_push (n : Z) (who : address)
    (old new : address -> list Z) (owner_old owner_new : Z -> address) :
  0 <= n ->
  (forall a id, id ∈ old a <-> 1 <= id <= n /\ owner_old id = a) ->
  (forall a, StronglySorted Z.lt (old a)) ->
  (forall b, new b = if decide (b = who) then old who ++ [n + 1] else old b) ->
  owner_new (n + 1) = who ->
  (forall id, id <> n + 1 -> owner_new id = owner_old id) ->
  (forall a id, id ∈ new a <-> 1 <= id <= n + 1 /\ owner_new id = a) /\
  (forall a, StronglySorted Z.lt (new a)).
Proof.
  intros Hn Hin Hsort Hnew Hwho Hother. split.
  - intros a id. rewrite Hnew. destruct (decide (a = who)) as [->|Hne].
    + rewrite elem_of_app, list_elem_of_singleton, Hin. split.
      * intros [[Hr Ho] | ->]; [|split; [lia | exact Hwho]].
        split; [lia|]. rewrite Hother by lia. exact Ho.
      * intros [Hr Ho]. destruct (decide (id = n + 1)) as [->|Hd]; [right; reflexivity|].
        left. split; [lia|]. rewrite <- Hother by exact Hd. exact Ho.
    + rewrite Hin. split.
      * intros [Hr Ho]. split; [lia|]. rewrite Hother by lia. exact Ho.
      * intros [Hr Ho]. destruct (decide (id = n + 1)) as [->|Hd]; [congruence|].
        split; [lia|]. rewrite <- Hother by exact Hd. exact Ho.
  - intros a. rewrite Hnew. destruct (decide (a = who)) as [->|Hne]; [|apply Hsort].
    apply StronglySorted_snoc; [apply Hsort|].
    apply Forall_forall. intros y Hy. apply Hin in Hy. lia.
Qed.

Lemma ListingsIndexed_run (st st' : State) (m : Msg) (c : Call) :
  Inv st -> ListingsIndexed st -> run st m c = Ok st' -> ListingsIndexed st'.
Proof.
  intros HI HL H. pose proof (inv_lc st HI) as [Hlc0 _].
  destruct c; simpl in H.
  - apply createListing_Ok in H.
    destruct H as (_ & _ & _ & _ & _ & _ & tk & _ & ->).
    destruct HL as [Hin Hsort].
    match goal with
    | |- ListingsIndexed ?s =>
        exact (index_push (listingCounter st) (sender m)
                 (getListingsByLender st) (getListingsByLender s)
                 (fun id => Listing.lender (listings st !!! id))
                 (fun id => Listing.lender (listings s !!! id))
                 Hlc0 Hin Hsort
                 (fun b => getListingsByLender_push _ _ _ b)
                 (f_equal Listing.lender
                    (lookup_total_insert_eq (listings st) _ _))
                 (fun id Hid =>
                    f_equal Listing.lender
                      (lookup_total_insert_ne (listings st) _ id _
                         (not_eq_sym Hid))))
    end.
  - apply updateListing_Ok in H. simpl in H.
    destruct H as (_ & _ & _ & _ & tk & ->).
    apply (ListingsIndexed_frame st); try reflexivity; [|exact HL].
    intros id. simpl. on_key id listingId; reflexivity.
  - apply cancelListing_Ok in H. simpl in H.
    destruct H as (_ & _ & tk & _ & ->).
    apply (ListingsIndexed_frame st); try reflexivity; [|exact HL].
    intros id. simpl. on_key id listingId; reflexivity.
  - inv_ok. apply startSession_Ok in H. simpl in H.
    destruct H as (_ & _ & _ & _ & _ & _ & _ & _ & e & tk & _ & _ & ->).
    apply (ListingsIndexed_frame st); try reflexivity; [|exact HL].
    intros id. simpl. on_key id listingId; reflexivity.
  - apply endSession_Ok in H. simpl in H.
    destruct H as (_ & _ & tk & _ & Hst).
    destruct (Listing.isActive _) in Hst.
    + destruct Hst as [_ ->].
      apply (ListingsIndexed_frame st); try reflexivity; [|exact HL].
      intros id. simpl.
      on_key id (Session.listingId (sessions st !!! sessionId)); reflexivity.
    + subst st'. apply (ListingsIndexed_frame st); try reflexivity. exact HL.
  - unfold updatePlatformFee in H. inv_ok. subst st'.
    apply (ListingsIndexed_frame st); try reflexivity. exact HL.
  - unfold updatePlatformWallet in H. inv_ok. subst st'.
    apply (ListingsIndexed_frame st); try reflexivity. exact HL.
  - unfold updateRentalDurationLimits in H. inv_ok. subst st'.
    apply (ListingsIndexed_frame st); try reflexivity. exact HL.
  - unfold pause in H. inv_ok. subst st'.
    apply (ListingsIndexed_frame st); try reflexivity. exact HL.
  - unfold unpause in H. inv_ok. subst st'.
    apply (ListingsIndexed_frame st); try reflexivity. exact HL.
  - unfold emergencyStop in H. inv_ok. subst st'.
    apply (ListingsIndexed_frame st); try reflexivity. exact HL.
Qed.

Lemma SessionsIndexed_run (st st' : State) (m : Msg) (c : Call) :
  Inv st -> SessionsIndexed st -> run st m c = Ok st' -> SessionsIndexed st'.
Proof.
  intros HI HS H. pose proof (inv_sc st HI) as [Hsc0 _].
  destruct c; simpl in H.
  - apply createListing_Ok in H.
    destruct H as (_ & _ & _ & _ & _ & _ & tk & _ & ->).
    apply (SessionsIndexed_frame st); try reflexivity. exact HS.
  - apply updateListing_Ok in H. simpl in H.
    destruct H as (_ & _ & _ & _ & tk & ->).
    apply (SessionsIndexed_frame st); try reflexivity. exact HS.
  - apply cancelListing_Ok in H. simpl in H.
    destruct H as (_ & _ & tk & _ & ->).
    apply (SessionsIndexed_frame st); try reflexivity. exact HS.
  - inv_ok. apply startSession_Ok in H. simpl in H.
    destruct H as (_ & _ & _ & _ & _ & _ & _ & _ & e & tk & _ & _ & ->).
    destruct HS as [Hin Hsort].
    match goal with
    | |- SessionsIndexed ?s =>
        exact (index_push (sessionCounter st) (sender m)
                 (getSessionsByBorrower st) (getSessionsByBorrower s)
                 (fun sid => Session.borrower (sessions st !!! sid))
                 (fun sid => Session.borrower (sessions s !!! sid))
                 Hsc0 Hin Hsort
                 (fun b => getSessionsByBorrower_push _ _ _ b)
                 (f_equal Session.borrower
                    (lookup_total_insert_eq (sessions st) _ _))
                 (fun sid Hsid =>
                    f_equal Session.borrower
                      (lookup_total_insert_ne (sessions st) _ sid _
                         (not_eq_sym Hsid))))
    end.
  - apply endSession_Ok in H. simpl in H.
    destruct H as (_ & _ & tk & _ & Hst).
    assert (Hb : forall sid,
      Session.borrower
        (<[sessionId := Session.set_isActive (sessions st !!! sessionId) false]>
           (sessions st) !!! sid)
      = Session.borrower (sessions st !!! sid)).
    { intros sid. on_key sid sessionId; reflexivity. }
    destruct (Listing.isActive _) in Hst.
    + destruct Hst as [_ ->].
      apply (SessionsIndexed_frame st); try reflexivity; [exact Hb | exact HS].
    + subst st'.
      apply (SessionsIndexed_frame st); try reflexivity; [exact Hb | exact HS].
  - unfold updatePlatformFee in H. inv_ok. subst st'.
    apply (SessionsIndexed_frame st); try reflexivity. exact HS.
  - unfold updatePlatformWallet in H. inv_ok. subst st'.
    apply (SessionsIndexed_frame st); try reflexivity. exact HS.
  - unfold updateRentalDurationLimits in H. inv_ok. subst st'.
    apply (SessionsIndexed_frame st); try reflexivity. exact HS.
  - unfold pause in H. inv_ok. subst st'.
    apply (SessionsIndexed_frame st); try reflexivity. exact HS.
  - unfold unpause in H. inv_ok. subst st'.
    apply (SessionsIndexed_frame st); try reflexivity. exact HS.
  - unfold emergencyStop in H. inv_ok. subst st'.
    apply (SessionsIndexed_frame st); try reflexivity. exact HS.
Qed.

Lemma reachable_indexed (st : State) :
  reachable st -> ListingsIndexed st /\ SessionsIndexed st.
Proof.
  induction 1 as [? ? ? ? ? ? ? ? _ Hc | st st' Hr [IHl IHs] Hstep].
  - unfold constructor in Hc. inv_ok. subst st.
    unfold ListingsIndexed, SessionsIndexed, getListingsByLender,
      getSessionsByBorrower. simpl.
    split;
      (split;
       [ intros a id; rewrite lookup_empty; simpl;
         split; [intros Hin; inversion Hin | lia]
       | intros a; rewrite lookup_empty; simpl; constructor ]).
  - destruct Hstep as [st m c _ _ | st o tok e].
    + unfold execute. destruct (run st m c) as [s|err] eqn:Hrun; simpl.
      * split.
        -- exact (ListingsIndexed_run _ _ _ _ (reachable_Inv _ Hr) IHl Hrun).
        -- exact (SessionsIndexed_run _ _ _ _ (reachable_Inv _ Hr) IHs Hrun).
      * split; assumption.
    + split.
      * apply (ListingsIndexed_frame st); try reflexivity. exact IHl.
      * apply (SessionsIndexed_frame st); try reflexivity. exact IHs.
Qed.

(** X5: in every reachable state, [getListingsByLender(a)] lists exactly
    the ids [1 .. listingCounter] of the listings whose lender is [a], and
    [getSessionsByBorrower(a)] exactly the ids [1 .. sessionCounter] of the
    sessions whose borrower is [a]; both are in strictly increasing order,
    so no id occurs twice. *)
Theorem indices_are_exact (st : State) :
  reachable st ->
  (forall a id,
     id ∈ getListingsByLender st a <->
     1 <= id <= listingCounter st /\ Listing.lender (listings st !!! id) = a) /\
  (forall a, StronglySorted Z.lt (getListingsByLender st a)) /\
  (forall a sid,
     sid ∈ getSessionsByBorrower st a <->
     1 <= sid <= sessionCounter st /\
     Session.borrower (sessions st !!! sid) = a) /\
  (forall a, StronglySorted Z.lt (getSessionsByBorrower st a)).
Proof.
  intros Hr. destruct (reachable_indexed st Hr) as [[Hl Hls] [Hs Hss]].
  split; [exact Hl | split; [exact Hls | split; [exact Hs | exact Hss]]].
Qed.

Lemma indices_are_exact_witness :
  1 ∈ getListingsByLender Scenario.s3 1 /\ 1 ∈ getSessionsByBorrower Scenario.s3 2.
Proof.
  destruct (indices_are_exact Scenario.s3 reachable_s3) as (Hl & _ & Hs & _).
  split.
  - apply Hl. by_compute.
  - apply Hs. by_compute.
Defined.

End Indices.

(** ** First body: updating, pausing, and how calls compose *)

Section SimpleMore.
Import Simple.

Lemma updateListing_ledger (st st' : State) (m : Msg)
    (listingId newPricePerUnit newAvailableUnits newMinDuration newMaxDuration : Z) :
  updateListing st m listingId newPricePerUnit newAvailableUnits
                newMinDuration newMaxDuration = Ok st' ->
  let listing := listings st !!! listingId in
  eth st' = eth st /\ sessions st' = sessions st /\
  if Listing.totalUnits listing <? newAvailableUnits
  then Ledger.safeTransferFrom (token st) (this st) (sender m) (this st)
         (Listing.tokenId listing)
         (newAvailableUnits - Listing.totalUnits listing) = Ok (token st')
  else token st' = token st.
Proof.
  unfold updateListing, onlyLender, onlyActiveListing, whenNotPaused.
  intros H. inv_ok. subst st'. simpl.
  match goal with
  | Ht : (if _ <? newAvailableUnits then _ else _) = Ok _ |- _ =>
      rename Ht into Hpull
  end.
  destruct (_ <? newAvailableUnits).
  - inv_ok. apply tokenTransfer_Ok in Hpull. destruct Hpull as (tk & Etk & ->).
    simpl. auto.
  - inv_ok. subst. auto.
Qed.

(** X6: a successful [updateListing] keeps the rented quantity: the new
    [totalUnits] is the requested one and [availableUnits] is that minus the
    units currently rented.  Raising the total pulls exactly the difference
    from the lender into the engine; lowering it moves nothing on the
    ledger, so the units taken off the listing stay with the engine.
    Sessions and Ether are untouched.  A total below the rented quantity is
    rejected with its own message. *)
Theorem updateListing_keeps_rented (st : State) (m : Msg)
    (listingId newPricePerUnit newAvailableUnits newMinDuration newMaxDuration : Z) :
  let listing := listings st !!! listingId in
  let rentedUnits := Listing.totalUnits listing - Listing.availableUnits listing in
  let added := Z.max 0 (newAvailableUnits - Listing.totalUnits listing) in
  (forall st',
     execute st m (UpdateListing listingId newPricePerUnit newAvailableUnits
                                 newMinDuration newMaxDuration) = (st', Success) ->
     listings st' =
       <[listingId :=
           Listing.mk (Listing.lender listing) (Listing.tokenId listing)
             newPricePerUnit (newAvailableUnits - rentedUnits) newAvailableUnits
             newMinDuration newMaxDuration (Listing.createdAt listing) true]>
         (listings st) /\
     0 <= newAvailableUnits - rentedUnits /\
     sessions st' = sessions st /\
     eth st' = eth st /\
     forall h i,
       Ledger.balanceOf (token st') h i =
       Ledger.balanceOf (token st) h i
       + credited2 h i (this st) (Listing.tokenId listing) added
       - credited2 h i (sender m) (Listing.tokenId listing) added) /\
  (Listing.lender listing = sender m ->
   Listing.isActive listing = true ->
   paused st = false ->
   0 < newPricePerUnit ->
   minRentalDuration st <= newMinDuration <= newMaxDuration ->
   newMaxDuration <= maxRentalDuration st ->
   Listing.availableUnits listing <= Listing.totalUnits listing ->
   newAvailableUnits < rentedUnits ->
   execute st m (UpdateListing listingId newPricePerUnit newAvailableUnits
                               newMinDuration newMaxDuration)
   = (st, Reverted (ErrorString "Cannot have fewer units than currently rented"))).
Proof.
  intros listing rentedUnits added. split.
  - intros st' H. apply execute_Ok in H. simpl in H.
    pose proof (updateListing_ledger _ _ _ _ _ _ _ _ H) as (He & Hs & Hled).
    apply updateListing_Ok in H. simpl in H.
    fold listing in H, Hled. fold rentedUnits in H.
    destruct H as (_ & Hact & Hle & Hrent & tk & Hst).
    split; [rewrite Hst; simpl; rewrite Hact; reflexivity |].
    split; [lia | split; [exact Hs | split; [exact He |]]].
    intros h i. unfold added.
    destruct (Z.ltb_spec (Listing.totalUnits listing) newAvailableUnits).
    + apply safeTransferFrom_Ok in Hled. destruct Hled as (_ & _ & _ & Hmoved).
      rewrite Hmoved. rewrite Z.max_r by lia. reflexivity.
    + rewrite Hled. rewrite Z.max_l by lia. rewrite !credited2_zero. lia.
  - intros Hlender Hact Hp Hprice Hmin Hmax Hle Hlow.
    apply execute_of_err. simpl.
    unfold updateListing, onlyLender, onlyActiveListing, whenNotPaused.
    fold listing. rewrite Hlender, Z.eqb_refl, Hact, Hp. simpl.
    destruct (Z.ltb_spec 0 newPricePerUnit); [|lia]. simpl.
    destruct (Z.leb_spec (minRentalDuration st) newMinDuration); [|lia]. simpl.
    destruct (Z.leb_spec newMaxDuration (maxRentalDuration st)); [|lia]. simpl.
    destruct (Z.leb_spec newMinDuration newMaxDuration); [|lia]. simpl.
    rewrite sub_fits by exact Hle. simpl.
    destruct (Z.leb_spec (Listing.totalUnits listing
                          - Listing.availableUnits listing) newAvailableUnits);
      [unfold rentedUnits in Hlow; lia | reflexivity].
Qed.

Lemma updateListing_keeps_rented_witness :
  let after := fst (execute Scenario.s2 (mkMsg 1 4000)
                            (UpdateListing 1 3 5 86400 172800)) in
  Listing.availableUnits (listings after !!! 1) = 3 /\
  Ledger.balanceOf (token after) 100 7 = 8 /\
  execute Scenario.s2 (mkMsg 1 4000) (UpdateListing 1 3 1 86400 172800)
  = (Scenario.s2,
     Reverted (ErrorString "Cannot have fewer units than currently rented")).
Proof.
  cbv zeta.
  destruct (updateListing_keeps_rented Scenario.s2 (mkMsg 1 4000)
              1 3 5 86400 172800) as [Hok _].
  destruct (Hok (fst (execute Scenario.s2 (mkMsg 1 4000)
                              (UpdateListing 1 3 5 86400 172800))))
    as (Hl & _ & _ & _ & Htok).
  { unfold execute. destruct (run Scenario.s2 _ _) eqn:E;
      [reflexivity | vm_compute in E; discriminate E]. }
  split; [rewrite Hl, lookup_total_insert_eq; by_compute |].
  split; [rewrite Htok; by_compute |].
  apply (updateListing_keeps_rented Scenario.s2 (mkMsg 1 4000)
           1 3 1 86400 172800); by_compute.
Defined.

(** X7: while the contract is paused, [createListing], [updateListing] and
    [startSession] revert and change nothing, whereas [cancelListing] and
    [endSession] do not read the flag: they succeed or fail as they would
    unpaused, with the same effect, so custody can still be unwound. *)
Theorem pause_blocks_new_business (st : State) (m : Msg) :
  paused st = true ->
  (forall c,
     match c with
     | CreateListing _ _ _ _ _ | UpdateListing _ _ _ _ _
     | StartSession _ _ _ _ => exists e, execute st m c = (st, Reverted e)
     | _ => True
     end) /\
  (forall c,
     match c with
     | CancelListing _ | EndSession _ =>
         run st m c =
         match run (set_paused st false) m c with
         | Ok s => Ok (set_paused s true)
         | Err e => Err e
         end
     | _ => True
     end).
Proof.
  intros Hp. split.
  - intros c. destruct c; try exact I.
    + exists (ErrorString "Pausable: paused"). apply execute_of_err. simpl.
      unfold createListing, whenNotPaused. rewrite Hp. reflexivity.
    + unfold execute. destruct (run st m _) as [s|e] eqn:Hrun; [|eauto].
      simpl in Hrun. apply updateListing_checks in Hrun.
      destruct Hrun as [Hnp _]. congruence.
    + unfold execute. destruct (run st m _) as [s|e] eqn:Hrun; [|eauto].
      simpl in Hrun. inv_ok. apply startSession_Ok in Hrun.
      simpl in Hrun. destruct Hrun as [Hnp _]. congruence.
  - intros c. destruct c; try exact I; simpl.
    + unfold cancelListing, onlyLender, onlyActiveListing. simpl.
      destruct (require (_ =? _) _); simpl; [|reflexivity].
      destruct (require (Listing.isActive _) _); simpl; [|reflexivity].
      destruct (0 <? _); [|destruct st; simpl in *; subst; reflexivity].
      unfold tokenTransfer. simpl.
      destruct (Ledger.safeTransferFrom _ _ _ _ _ _); simpl; [|reflexivity].
      destruct st; simpl in *; subst; reflexivity.
    + unfold endSession, onlyActiveSession. simpl.
      destruct (require (Session.isActive _) _); simpl; [|reflexivity].
      destruct (require (_ <=? _) _); simpl; [|reflexivity].
      unfold tokenTransfer. simpl.
      destruct (Ledger.safeTransferFrom _ _ _ _ _ _); simpl; [|reflexivity].
      destruct (Listing.isActive _); simpl.
      * destruct (add _ _); simpl; [|reflexivity].
        destruct st; simpl in *; subst; reflexivity.
      * destruct st; simpl in *; subst; reflexivity.
Qed.

Lemma pause_blocks_new_business_witness :
  let frozen := fst (execute Scenario.s2 (mkMsg 9 5000) Pause) in
  (exists e,
     execute frozen (Scenario.borrower 6000) (StartSession 1 1 86400 86400)
     = (frozen, Reverted e)) /\
  run frozen (mkMsg 1 6000) (CancelListing 1) =
  match run (set_paused frozen false) (mkMsg 1 6000) (CancelListing 1) with
  | Ok s => Ok (set_paused s true)
  | Err e => Err e
  end.
Proof.
  cbv zeta.
  destruct (pause_blocks_new_business
              (fst (execute Scenario.s2 (mkMsg 9 5000) Pause))
              (mkMsg 1 6000)) as [_ Hopen]; [by_compute |].
  destruct (pause_blocks_new_business
              (fst (execute Scenario.s2 (mkMsg 9 5000) Pause))
              (Scenario.borrower 6000)) as [Hblocked _]; [by_compute |].
  split.
  - exact (Hblocked (StartSession 1 1 86400 86400)).
  - exact (Hopen (CancelListing 1)).
Defined.

End SimpleMore.

Section SimpleCompose.
Import Simple.

(** X8: the engine is a pass-through for Ether.  After a successful
    [startSession] in a reachable state, the engine's own Ether balance is
    what it was, and so is the balance of every account other than the
    borrower, the lender and the platform wallet (the engine being none of
    the three). *)
Theorem startSession_keeps_no_ether (st st' : State) (m : Msg)
    (listingId units duration value : Z) :
  reachable st ->
  execute st m (StartSession listingId units duration value) = (st', Success) ->
  this st <> sender m ->
  this st <> Listing.lender (listings st !!! listingId) ->
  this st <> platformWallet st ->
  ethOf (eth st') (this st) = ethOf (eth st) (this st) /\
  forall a,
    a <> sender m -> a <> Listing.lender (listings st !!! listingId) ->
    a <> platformWallet st ->
    ethOf (eth st') a = ethOf (eth st) a.
Proof.
  intros Hr H Hs Hl Hw. apply execute_Ok in H. simpl in H. inv_ok.
  match goal with
  | Hm : ethMove _ _ _ _ = Ok ?e |- _ =>
      apply ethMove_Ok in Hm; destruct Hm as [_ Hin]
  end.
  apply startSession_Ok in H. simpl in H.
  destruct H as (_ & Hact & Hu & Hd & _ & _ & _ & _ & e & tk & Hflow & _ & ->).
  pose proof (reachable_Inv _ Hr) as HI.
  pose proof (reachable_Configured _ Hr) as [[Hf0 _] _ _].
  pose proof (reachable_Recorded _ Hr) as [Hrec _].
  pose proof (Hrec listingId (inv_listing_range st HI listingId Hact))
    as (Hprice & Hmin & _).
  assert (Hfee : 0 <= Listing.pricePerUnit (listings st !!! listingId)
                      * units * duration * platformFee st / 10000).
  { apply Z.div_pos; [|lia].
    repeat apply Z.mul_nonneg_nonneg; lia. }
  specialize (Hflow Hfee). simpl.
  assert (Hgen : forall a,
            a <> sender m -> a <> Listing.lender (listings st !!! listingId) ->
            a <> platformWallet st ->
            ethOf e a = ethOf (eth st) a).
  { intros a Ha1 Ha2 Ha3. rewrite Hflow, Hin. unfold credited.
    destruct (Z.eqb_spec a (Listing.lender (listings st !!! listingId)));
      [contradiction|].
    destruct (Z.eqb_spec a (platformWallet st)); [contradiction|].
    destruct (Z.eqb_spec a (sender m)); [contradiction|].
    destruct (a =? this st); lia. }
  split; [apply Hgen; assumption | exact Hgen].
Qed.

Lemma startSession_keeps_no_ether_witness :
  ethOf (eth Scenario.s2) 100 = ethOf (eth Scenario.s1) 100.
Proof.
  destruct (startSession_keeps_no_ether Scenario.s1 Scenario.s2
              (Scenario.borrower 2000) 1 2 86400 172800) as [Hengine _].
  - exact reachable_s1.
  - unfold Scenario.s2, execute.
    destruct (run Scenario.s1 _ _) eqn:E;
      [reflexivity | vm_compute in E; discriminate E].
  - vm_compute; discriminate.
  - vm_compute; discriminate.
  - vm_compute; discriminate.
  - exact Hengine.
Defined.

(** X9: listing and cancelling is a round trip on the ledger.  When
    [createListing] has succeeded, the same lender can at once cancel the
    new listing, and afterwards every ledger balance is what it was before
    the listing was created. *)
Theorem create_then_cancel (st st1 : State) (m m' : Msg)
    (tokenId pricePerUnit units minDuration maxDuration : Z) :
  execute st m (CreateListing tokenId pricePerUnit units minDuration maxDuration)
  = (st1, Success) ->
  sender m' = sender m ->
  0 <= Ledger.balanceOf (token st) (this st) tokenId ->
  exists st2,
    execute st1 m' (CancelListing (listingCounter st + 1)) = (st2, Success) /\
    Listing.isActive (listings st2 !!! (listingCounter st + 1)) = false /\
    forall h i,
      Ledger.balanceOf (token st2) h i = Ledger.balanceOf (token st) h i.
Proof.
  intros H Hsame Hheld. apply execute_Ok in H. simpl in H.
  apply createListing_Ok in H.
  destruct H as (_ & Hu & _ & _ & _ & _ & tk & Etk & ->).
  pose proof (safeTransferFrom_Ok _ _ _ _ _ _ _ Etk) as (Hbal & _ & _ & Hin).
  assert (Hback : units <= Ledger.balanceOf tk (this st) tokenId).
  { rewrite Hin. unfold credited2. rewrite !Z.eqb_refl. simpl.
    destruct (Z.eqb_spec (this st) (sender m)) as [Heq|]; simpl;
      [rewrite <- Heq in Hbal |]; lia. }
  destruct (safeTransferFrom_fits tk (this st) (this st) (sender m') tokenId units
              Hback (or_introl eq_refl)) as (tk2 & Etk2).
  pose proof (safeTransferFrom_Ok _ _ _ _ _ _ _ Etk2) as (_ & _ & _ & Hout).
  eexists. split.
  - apply execute_of_run. simpl.
    unfold cancelListing, onlyLender, onlyActiveListing. simpl.
    rewrite lookup_total_insert_eq. simpl.
    rewrite Hsame, Z.eqb_refl. simpl.
    destruct (Z.ltb_spec 0 units); [|lia].
    unfold tokenTransfer. simpl. rewrite <- Hsame, Etk2. simpl. reflexivity.
  - simpl. split; [rewrite lookup_total_insert_eq; reflexivity |].
    intros h i. rewrite Hout, Hin, Hsame. lia.
Qed.

Lemma create_then_cancel_witness :
  exists st2,
    execute Scenario.s1 (mkMsg 1 1200) (CancelListing 1) = (st2, Success) /\
    Ledger.balanceOf (token st2) 1 7 = 12.
Proof.
  destruct (create_then_cancel Scenario.s0 Scenario.s1 Scenario.lender
              (mkMsg 1 1200) 7 1 10 86400 172800) as (st2 & Hc & _ & Hb).
  - unfold Scenario.s1, execute.
    destruct (run Scenario.s0 _ _) eqn:E;
      [reflexivity | vm_compute in E; discriminate E].
  - reflexivity.
  - by_compute.
  - exists st2. split; [exact Hc |]. rewrite Hb. by_compute.
Defined.

(** X10: renting and returning.  When [startSession] has succeeded for a
    borrower who has approved the engine, the borrower can close the new
    session once it is due; afterwards the listing's [availableUnits] is
    what it was before the rental, the session is inactive, and on the
    ledger the rented units have left the engine and reached the lender:
    they do not come back into the engine's custody. *)
Theorem start_then_end (st st1 : State) (m m' : Msg)
    (listingId units duration value : Z) :
  reachable st -> uint256 (timestamp m) ->
  uint256 listingId -> uint256 units -> uint256 duration -> uint256 value ->
  execute st m (StartSession listingId units duration value) = (st1, Success) ->
  sender m' = sender m ->
  timestamp m + duration <= timestamp m' ->
  sender m <> this st ->
  0 <= Ledger.balanceOf (token st) (sender m)
         (Listing.tokenId (listings st !!! listingId)) ->
  Ledger.isApprovedForAll (token st) (sender m) (this st) = true ->
  let listing := listings st !!! listingId in
  exists st2,
    execute st1 m' (EndSession (sessionCounter st + 1)) = (st2, Success) /\
    Session.isActive (sessions st2 !!! (sessionCounter st + 1)) = false /\
    Listing.availableUnits (listings st2 !!! listingId)
      = Listing.availableUnits listing /\
    forall h i,
      Ledger.balanceOf (token st2) h i =
      Ledger.balanceOf (token st) h i
      + credited2 h i (Listing.lender listing) (Listing.tokenId listing) units
      - credited2 h i (this st) (Listing.tokenId listing) units.
Proof.
  intros Hr Hts Hv1 Hv2 Hv3 Hv4 H Hsame Hdue Hself Hheld Happr listing.
  fold listing in Hheld.
  assert (Hr1 : reachable st1).
  { replace st1 with (fst (execute st m (StartSession listingId units duration value)))
      by (rewrite H; reflexivity).
    apply reachable_call; [exact Hr | exact Hts | simpl; auto]. }
  apply execute_Ok in H. simpl in H. inv_ok.
  apply startSession_Ok in H. simpl in H. fold listing in H.
  destruct H as (_ & Hact & Hu & _ & _ & _ & _ & _ & e & tk & _ & Etk & Hst1).
  pose proof (safeTransferFrom_Ok _ _ _ _ _ _ _ Etk) as (_ & _ & Happrs & Hout).
  destruct (endSession_due st1 m' (sessionCounter st + 1) (reachable_Inv _ Hr1))
    as (st2 & Hrun & Hs & Ht & _ & Hl).
  - subst st1. simpl. rewrite lookup_total_insert_eq. reflexivity.
  - subst st1. simpl. rewrite lookup_total_insert_eq. simpl. exact Hdue.
  - subst st1. simpl. rewrite ?lookup_total_insert_eq. simpl.
    rewrite ?lookup_total_insert_eq. simpl. fold listing.
    rewrite Hout, Hsame. unfold credited2. rewrite !Z.eqb_refl. simpl.
    destruct (Z.eqb_spec (sender m) (this st)); [contradiction|]. simpl. lia.
  - subst st1. simpl. unfold Ledger.isApprovedForAll in *.
    rewrite Happrs, Hsame. exact Happr.
  - exists st2. split; [apply execute_of_run; exact Hrun |].
    subst st1. simpl in *.
    rewrite ?lookup_total_insert_eq in *. simpl in *.
    rewrite ?lookup_total_insert_eq in *. simpl in *.
    fold listing in Hl, Ht. rewrite Hact in Hl.
    split; [rewrite Hs, lookup_total_insert_eq; reflexivity |].
    split; [rewrite Hl, lookup_total_insert_eq; simpl; lia |].
    intros h i. rewrite Ht, Hout, Hsame.
    unfold credited2.
    destruct ((h =? sender m) && (i =? Listing.tokenId listing)); lia.
Qed.

Lemma start_then_end_witness :
  exists st2,
    execute (fst (execute (Scenario.approve_borrower Scenario.s1)
                          (Scenario.borrower 2000)
                          (StartSession 1 2 86400 172800)))
            (Scenario.borrower 88400) (EndSession 1) = (st2, Success) /\
    Ledger.balanceOf (token st2) 100 7 = 8 /\
    Listing.availableUnits (listings st2 !!! 1) = 10.
Proof.
  destruct (start_then_end (Scenario.approve_borrower Scenario.s1)
              (fst (execute (Scenario.approve_borrower Scenario.s1)
                            (Scenario.borrower 2000)
                            (StartSession 1 2 86400 172800)))
              (Scenario.borrower 2000) (Scenario.borrower 88400)
              1 2 86400 172800) as (st2 & Hc & _ & Ha & Hb).
  - apply reachable_approve, reachable_s1.
  - by_compute.
  - by_compute.
  - by_compute.
  - by_compute.
  - by_compute.
  - unfold execute.
    destruct (run (Scenario.approve_borrower Scenario.s1) _ _) eqn:E;
      [reflexivity | vm_compute in E; discriminate E].
  - reflexivity.
  - by_compute.
  - vm_compute; discriminate.
  - by_compute.
  - by_compute.
  - exists st2. split; [exact Hc |].
    split; [rewrite Hb; by_compute | rewrite Ha; by_compute].
Defined.

End SimpleCompose.

(** ** Second body: pages, cancellation, availability *)

Section ProratedMore.
Import Prorated.

Lemma activeIn_app (st : State) (ids1 ids2 : list Z) :
  activeIn st (ids1 ++ ids2) = activeIn st ids1 ++ activeIn st ids2.
Proof.
  unfold activeIn. rewrite List.filter_app, map_app. reflexivity.
Qed.



Lemma prorated_createListing_Ok (st st' : State) (m : Msg)
    (tokenId pricePerUnit units : Z) :
  createListing st m tokenId pricePerUnit units = Ok st' ->
  0 < units /\ 0 < pricePerUnit /\
  listingCounter st + 1 <= MAX_UINT256 /\
  st' = push_userListing
          (set_listing (set_listingCounter st (listingCounter st + 1))
             (listingCounter st + 1)
             (Listing.mk (sender m) tokenId pricePerUnit units true))
          (sender m) (listingCounter st + 1).
Proof.
  unfold createListing. intros H. inv_ok. subst st'. boolify.
  repeat split; assumption.
Qed.

Lemma activeIn_ext (st st' : State) (ids : list Z) :
  (forall id, id ∈ ids -> listings st' !!! id = listings st !!! id) ->
  activeIn st' ids = activeIn st ids.
Proof.
  unfold activeIn, activeAt. induction ids as [|i ids IH]; intros Hsame; simpl.
  - reflexivity.
  - rewrite (Hsame i) by left.
    destruct (Listing.isActive (listings st !!! i)); simpl;
      rewrite ?(Hsame i) by left;
      rewrite IH by (intros id Hid; apply Hsame; right; exact Hid);
      reflexivity.
Qed.

(** X12: a new listing shows up at the end of the full page.  After a
    successful [createListing], the page that covers all ids returns what
    it returned before, followed by the new listing with [isActive = true],
    the lender as caller and all [units] available. *)
Theorem createListing_then_page (st st' : State) (m : Msg)
    (tokenId pricePerUnit units : Z) :
  0 <= listingCounter st -> listingCounter st + 1 < MAX_UINT256 ->
  execute st m (CreateListing tokenId pricePerUnit units) = (st', Success) ->
  exists r,
    getActiveListings st 0 (listingCounter st) = Ok r /\
    getActiveListings st' 0 (listingCounter st') =
      Ok (r ++ [Listing.mk (sender m) tokenId pricePerUnit units true]).
Proof.
  intros Hc Hmax H. unfold execute in H.
  destruct (run st m _) as [s|] eqn:Hrun; [|discriminate].
  injection H as <-. simpl in Hrun.
  apply prorated_createListing_Ok in Hrun.
  destruct Hrun as (_ & _ & _ & Hs).
  assert (Hlc : listingCounter s = listingCounter st + 1) by (subst s; reflexivity).
  assert (Hls : listings s =
                <[listingCounter st + 1 :=
                    Listing.mk (sender m) tokenId pricePerUnit units true]>
                  (listings st)) by (subst s; reflexivity).
  clear Hs.
  rewrite (getActiveListings_total st 0 (listingCounter st)) by lia.
  eexists. split; [reflexivity|].
  rewrite (getActiveListings_total s 0 (listingCounter s)) by (rewrite ?Hlc; lia).
  rewrite Hlc. f_equal.
  replace (Z.min (0 + (listingCounter st + 1)) (listingCounter st + 1) - 0)
    with (listingCounter st + 1) by lia.
  replace (Z.min (0 + listingCounter st) (listingCounter st) - 0)
    with (listingCounter st) by lia.
  rewrite (seqZ_app (0 + 1) (listingCounter st) 1) by lia.
  rewrite activeIn_app. f_equal.
  - apply activeIn_ext. intros id Hid. apply elem_of_seqZ in Hid.
    rewrite Hls, lookup_total_insert_ne by lia. reflexivity.
  - replace (seqZ (0 + 1 + listingCounter st) 1) with [listingCounter st + 1]
      by (rewrite (seqZ_step _ 1), seqZ_empty by lia; f_equal; lia).
    unfold activeIn, activeAt. simpl.
    rewrite Hls, lookup_total_insert_eq. simpl.
    rewrite lookup_total_insert_eq. reflexivity.
Qed.

Lemma createListing_then_page_witness :
  exists r,
    getActiveListings (Scenario.p0 0) 0 0 = Ok r /\
    getActiveListings (Scenario.p1 0) 0 1 = Ok (r ++ [Listing.mk 1 7 1 10 true]).
Proof.
  destruct (createListing_then_page (Scenario.p0 0) (Scenario.p1 0)
              Scenario.lender 7 1 10) as (r & H0 & H1).
  - by_compute.
  - by_compute.
  - unfold Scenario.p1, execute.
    destruct (run (Scenario.p0 0) _ _) eqn:E;
      [reflexivity | vm_compute in E; discriminate E].
  - exists r. split; [exact H0 | exact H1].
Defined.

Lemma prorated_pay_pos (st st' : State) (to : address) (q : Z) :
  (if 0 <? q then pay st to q else Ok st) = Ok st' ->
  0 <= q ->
  exists e,
    st' = set_eth st e /\
    forall a, ethOf e a = ethOf (eth st) a + credited a to q - credited a (this st) q.
Proof.
  intros H Hq. destruct (Z.ltb_spec 0 q).
  - apply prorated_pay_Ok in H. destruct H as (e & E & ->).
    apply ethMove_Ok in E. destruct E as [_ E]. eauto.
  - injection H as <-. exists (eth st). split; [destruct st; reflexivity |].
    intros a. replace q with 0 by lia. rewrite !credited_zero. lia.
Qed.

Lemma distributePayment_Ok (st st' : State) (lender : address) (amount : Z) :
  _distributePayment st lender amount = Ok st' ->
  0 <= amount * platformFee st / 10000 ->
  exists e,
    st' = set_eth st e /\
    forall a,
      ethOf e a =
      ethOf (eth st) a
      + credited a (platformWallet st) (amount * platformFee st / 10000)
      + credited a lender (amount - amount * platformFee st / 10000)
      - credited a (this st) amount.
Proof.
  unfold _distributePayment. intros H Hp. inv_ok.
  match goal with
  | Hf : feeSplit _ _ = Ok ?fl |- _ =>
      destruct fl as [p l]; apply feeSplit_Ok in Hf;
      destruct Hf as (-> & -> & Hle & _)
  end.
  simpl fst in *; simpl snd in *.
  match goal with
  | H1 : (if 0 <? _ then pay st _ _ else _) = Ok ?s |- _ =>
      apply prorated_pay_pos in H1; [destruct H1 as (e1 & -> & E1) | exact Hp]
  end.
  apply prorated_pay_pos in H; [|lia].
  destruct H as (e2 & -> & E2). simpl in *.
  exists e2. split; [reflexivity|].
  intros a. rewrite E2, E1.
  pose proof (credited_plus a (this st) (amount * platformFee st / 10000)
                (amount - amount * platformFee st / 10000)) as Hc.
  replace (amount * platformFee st / 10000
           + (amount - amount * platformFee st / 10000)) with amount in Hc by lia.
  lia.
Qed.

Lemma prorated_pay_if_shape (st st' : State) (b : bool) (to : address) (v : Z) :
  (if b then pay st to v else Ok st) = Ok st' ->
  exists e, st' = set_eth st e.
Proof.
  destruct b; intros H.
  - apply prorated_pay_Ok in H. destruct H as (e & _ & ->). eauto.
  - injection H as <-. exists (eth st). destruct st; reflexivity.
Qed.

Lemma distributePayment_shape (st st' : State) (lender : address) (amount : Z) :
  _distributePayment st lender amount = Ok st' ->
  exists e, st' = set_eth st e.
Proof.
  unfold _distributePayment. intros H. inv_ok.
  match goal with
  | H1 : (if 0 <? fst _ then _ else _) = Ok ?s |- _ =>
      apply prorated_pay_if_shape in H1; destruct H1 as (e1 & ->)
  end.
  apply prorated_pay_if_shape in H. destruct H as (e2 & ->).
  exists e2. reflexivity.
Qed.

Lemma prorated_startSession_Ok (st st' : State) (m : Msg)
    (listingId units duration value : Z) :
  startSession st m listingId units duration value = Ok st' ->
  let listing := listings st !!! listingId in
  let totalPrice := Listing.pricePerUnit listing * units * duration in
  let fee := totalPrice * platformFee st / 10000 in
  Listing.isActive listing = true /\
  0 < units <= Listing.availableUnits listing /\
  0 < duration /\
  totalPrice <= MAX_UINT256 /\
  totalPrice <= value /\
  exists tk e,
    Ledger.safeTransferFrom (token st) (this st) (Listing.lender listing)
      (this st) (Listing.tokenId listing) units = Ok tk /\
    (0 <= fee ->
     forall a,
       ethOf e a =
       ethOf (eth st) a + credited a (platformWallet st) fee
       + credited a (Listing.lender listing) (totalPrice - fee)
       + credited a (sender m) (value - totalPrice)
       - credited a (this st) value) /\
    st' = set_eth
            (push_userSession
               (set_session
                  (set_sessionCounter
                     (set_listing (set_token st tk) listingId
                        (Listing.set_availableUnits listing
                           (Listing.availableUnits listing - units)))
                     (sessionCounter st + 1))
                  (sessionCounter st + 1)
                  (Session.mk (sender m) listingId units (timestamp m)
                              (timestamp m + duration) true))
               (sender m) (sessionCounter st + 1))
            e.
Proof.
  unfold startSession, onlyActiveListing. intros H. inv_ok.
  match goal with
  | Ht : tokenTransfer _ _ _ _ _ = Ok _ |- _ =>
      apply prorated_tokenTransfer_Ok in Ht; destruct Ht as (tk & Etk & ->)
  end.
  match goal with
  | Hd : _distributePayment _ _ _ = Ok ?s5 |- _ =>
      rename Hd into Hdist; rename s5 into st5
  end.
  boolify. simpl in *.
  repeat split; try assumption; try lia.
  exists tk, (eth st').
  split; [exact Etk |].
  destruct (distributePayment_shape _ _ _ _ Hdist) as (e2 & Hst5).
  assert (Hend : exists r,
            0 <= r /\
            r = value - Listing.pricePerUnit (listings st !!! listingId)
                        * units * duration /\
            st' = set_eth st5 (eth st') /\
            forall a, ethOf (eth st') a =
                      ethOf (eth st5) a + credited a (sender m) r
                      - credited a (this st) r).
  { exists (value - Listing.pricePerUnit (listings st !!! listingId)
                    * units * duration).
    split; [lia | split; [reflexivity |]].
    destruct (Z.ltb_spec
                (Listing.pricePerUnit (listings st !!! listingId) * units * duration)
                value) as [Hlt|Hge].
    - inv_ok. apply prorated_pay_Ok in H. destruct H as (e3 & Hmove & ->).
      apply ethMove_Ok in Hmove. destruct Hmove as [_ Hmove].
      subst st5. simpl in *. split; [reflexivity | exact Hmove].
    - injection H as <-. subst st5. simpl. split; [reflexivity |].
      intros a.
      replace (value - Listing.pricePerUnit (listings st !!! listingId)
                       * units * duration) with 0 by lia.
      rewrite !credited_zero. lia. }
  destruct Hend as (r & Hr0 & Hr & Hshape & Hflow).
  split.
  - intros Hfee a.
    apply distributePayment_Ok in Hdist; [|exact Hfee].
    destruct Hdist as (e2' & Hst5' & Hsplit). simpl in *.
    rewrite Hflow, Hst5'. simpl. rewrite Hsplit, Hr.
    pose proof (credited_plus a (this st)
      (Listing.pricePerUnit (listings st !!! listingId) * units * duration)
      (value - Listing.pricePerUnit (listings st !!! listingId) * units
               * duration)) as Hc.
    replace (Listing.pricePerUnit (listings st !!! listingId) * units * duration
             + (value - Listing.pricePerUnit (listings st !!! listingId) * units
                        * duration)) with value in Hc by lia.
    lia.
  - rewrite Hshape, Hst5. reflexivity.
Qed.

End ProratedMore.

(** ** Second body: sessions *)

Section ProratedSessions.
Import Prorated.

(** X13: [startSession] of the second body.  A successful call means the
    listing is active, [0 < units <= availableUnits], [duration > 0] and the
    payment covers [totalPrice]; it pulls [units] from the lender into the
    engine (so the lender must hold them and have approved the engine), not
    towards the borrower; it lowers [availableUnits] by [units], records the
    session, pays the fee split of [totalPrice] to platform wallet and
    lender and returns the excess to the borrower. *)
Theorem prorated_startSession_effects (st st' : State) (m : Msg)
    (listingId units duration value : Z) :
  0 <= platformFee st ->
  0 <= Listing.pricePerUnit (listings st !!! listingId) ->
  execute st m (StartSession listingId units duration value) = (st', Success) ->
  let listing := listings st !!! listingId in
  let totalPrice := Listing.pricePerUnit listing * units * duration in
  let fee := totalPrice * platformFee st / 10000 in
  (Listing.isActive listing = true /\
   0 < units <= Listing.availableUnits listing /\
   0 < duration /\ totalPrice <= value) /\
  (units <= Ledger.balanceOf (token st) (Listing.lender listing)
                             (Listing.tokenId listing) /\
   (this st = Listing.lender listing \/
    Ledger.isApprovedForAll (token st) (Listing.lender listing) (this st) = true)) /\
  (forall h i,
     Ledger.balanceOf (token st') h i =
     Ledger.balanceOf (token st) h i
     + credited2 h i (this st) (Listing.tokenId listing) units
     - credited2 h i (Listing.lender listing) (Listing.tokenId listing) units) /\
  listings st' =
    <[listingId := Listing.set_availableUnits listing
                     (Listing.availableUnits listing - units)]> (listings st) /\
  sessionCounter st' = sessionCounter st + 1 /\
  sessions st' =
    <[sessionCounter st + 1 :=
        Session.mk (sender m) listingId units (timestamp m)
                   (timestamp m + duration) true]> (sessions st) /\
  (forall a,
     ethOf (eth st') a =
     ethOf (eth st) a - credited a (sender m) value
     + credited a (platformWallet st) fee
     + credited a (Listing.lender listing) (totalPrice - fee)
     + credited a (sender m) (value - totalPrice)).
Proof.
  intros Hf Hp H listing totalPrice fee.
  unfold execute in H.
  destruct (run st m _) as [s|] eqn:Hrun; [|discriminate].
  injection H as <-. simpl in Hrun. inv_ok.
  match goal with
  | Hm : ethMove _ _ _ _ = Ok ?e |- _ =>
      apply ethMove_Ok in Hm; destruct Hm as [_ Hin]
  end.
  apply prorated_startSession_Ok in Hrun. simpl in Hrun.
  fold listing in Hrun. fold totalPrice in Hrun. fold fee in Hrun.
  destruct Hrun as (Hact & Hu & Hd & _ & Hpay & tk & e & Etk & Hflow & ->).
  apply safeTransferFrom_Ok in Etk. destruct Etk as (Hbal & Hauth & _ & Hmoved).
  assert (Hfee : 0 <= fee).
  { unfold fee. apply Z.div_pos; [|lia].
    apply Z.mul_nonneg_nonneg; [|exact Hf].
    unfold totalPrice. repeat apply Z.mul_nonneg_nonneg; [exact Hp | lia | lia]. }
  simpl.
  split; [auto |].
  split; [split; [exact Hbal | exact Hauth] |].
  split; [exact Hmoved |].
  split; [reflexivity | split; [reflexivity | split; [reflexivity |]]].
  intros a. rewrite (Hflow Hfee a), Hin. lia.
Qed.

Lemma prorated_startSession_effects_witness :
  Ledger.balanceOf (token (Scenario.p2 0)) 100 7 = 2 /\
  Ledger.balanceOf (token (Scenario.p2 0)) 2 7 = 0 /\
  ethOf (eth (Scenario.p2 0)) 1 = 190.
Proof.
  destruct (prorated_startSession_effects (Scenario.p1 0) (Scenario.p2 0)
              (Scenario.borrower 1000) 1 2 100 200)
    as (_ & _ & Htok & _ & _ & _ & Heth).
  - by_compute.
  - by_compute.
  - unfold Scenario.p2, execute.
    destruct (run (Scenario.p1 0) _ _) eqn:E;
      [reflexivity | vm_compute in E; discriminate E].
  - rewrite !Htok, Heth. by_compute.
Defined.

(** X14: in the second body a session closed at or after its [endTime] is
    settled without any payment: no Ether balance changes; the units go
    from the engine back to the lender; the session becomes inactive and the
    listing, in particular its [availableUnits], stays as it is. *)
Theorem prorated_endSession_on_time (st st' : State) (m : Msg) (sessionId : Z) :
  execute st m (EndSession sessionId) = (st', Success) ->
  let session := sessions st !!! sessionId in
  let listing := listings st !!! Session.listingId session in
  Session.endTime session <= timestamp m ->
  eth st' = eth st /\
  listings st' = listings st /\
  sessions st' = <[sessionId := Session.set_isActive session false]> (sessions st) /\
  forall h i,
    Ledger.balanceOf (token st') h i =
    Ledger.balanceOf (token st) h i
    + credited2 h i (Listing.lender listing) (Listing.tokenId listing)
                (Session.units session)
    - credited2 h i (this st) (Listing.tokenId listing) (Session.units session).
Proof.
  intros H session listing Hdue.
  unfold execute in H.
  destruct (run st m _) as [s|] eqn:Hrun; [|discriminate].
  injection H as <-. simpl in Hrun.
  unfold endSession in Hrun. fold session in Hrun. inv_ok.
  match goal with
  | Ha : (if _ <? timestamp m then _ else _) = Ok ?ad |- _ =>
      assert (Had : ad = Session.endTime session - Session.startTime session)
        by (destruct (Z.ltb_spec (Session.endTime session) (timestamp m));
            inv_ok; lia);
      clear Ha
  end.
  match goal with
  | Ht : tokenTransfer _ _ _ _ _ = Ok _ |- _ =>
      apply prorated_tokenTransfer_Ok in Ht; destruct Ht as (tk & Etk & ->)
  end.
  subst. rewrite Z.ltb_irrefl in Hrun. injection Hrun as <-.
  simpl in *. fold listing in Etk.
  apply safeTransferFrom_Ok in Etk. destruct Etk as (_ & _ & _ & Hmoved).
  repeat split. exact Hmoved.
Qed.

Lemma prorated_endSession_on_time_witness :
  let after := fst (execute (Scenario.p2 0) (Scenario.borrower 1100)
                            (EndSession 1)) in
  eth after = eth (Scenario.p2 0) /\
  Ledger.balanceOf (token after) 1 7 = 10.
Proof.
  cbv zeta.
  destruct (prorated_endSession_on_time (Scenario.p2 0)
              (fst (execute (Scenario.p2 0) (Scenario.borrower 1100)
                            (EndSession 1)))
              (Scenario.borrower 1100) 1) as (He & _ & _ & Htok).
  - unfold execute.
    destruct (run (Scenario.p2 0) _ _) eqn:E;
      [reflexivity | vm_compute in E; discriminate E].
  - by_compute.
  - split; [exact He | rewrite Htok; by_compute].
Defined.

(** X15: in the second body the terms of a listing on record are fixed and
    its [availableUnits] never grows: whatever the call, lender, token id
    and price stay, and [availableUnits] afterwards is at most what it was.
    Units rented once are not offered again, even after the session is
    closed. *)
Theorem prorated_availability_never_grows (st st' : State) (m : Msg) (c : Call) :
  run st m c = Ok st' ->
  forall id,
    1 <= id <= listingCounter st ->
    Listing.lender (listings st' !!! id) = Listing.lender (listings st !!! id) /\
    Listing.tokenId (listings st' !!! id) = Listing.tokenId (listings st !!! id) /\
    Listing.pricePerUnit (listings st' !!! id)
      = Listing.pricePerUnit (listings st !!! id) /\
    Listing.availableUnits (listings st' !!! id)
      <= Listing.availableUnits (listings st !!! id).
Proof.
  intros H id Hid. destruct c; simpl in H.
  - apply prorated_createListing_Ok in H. destruct H as (_ & _ & _ & ->).
    simpl. rewrite lookup_total_insert_ne by lia. repeat split; lia.
  - unfold cancelListing in H. inv_ok. subst st'. simpl.
    destruct (decide (id = listingId)) as [->|Hne].
    + rewrite lookup_total_insert_eq. simpl. repeat split; lia.
    + rewrite lookup_total_insert_ne by congruence. repeat split; lia.
  - inv_ok. apply prorated_startSession_Ok in H. simpl in H.
    destruct H as (_ & Hu & _ & _ & _ & tk & e & _ & _ & ->). simpl.
    destruct (decide (id = listingId)) as [->|Hne].
    + rewrite lookup_total_insert_eq. simpl. repeat split; lia.
    + rewrite lookup_total_insert_ne by congruence. repeat split; lia.
  - apply prorated_endSession_Ok in H. simpl in H.
    destruct H as (_ & _ & _ & ->). repeat split; lia.
  - unfold updatePlatformFee in H. inv_ok. subst st'. simpl. repeat split; lia.
  - unfold updatePlatformWallet in H. inv_ok. subst st'. simpl.
    repeat split; lia.
Qed.

Lemma prorated_availability_never_grows_witness :
  Listing.availableUnits
    (listings (fst (execute (Scenario.p2 0) (Scenario.borrower 1100)
                            (EndSession 1))) !!! 1)
  <= Listing.availableUnits (listings (Scenario.p2 0) !!! 1).
Proof.
  destruct (run (Scenario.p2 0) (Scenario.borrower 1100) (EndSession 1))
    as [s|e] eqn:E; [|vm_compute in E; discriminate E].
  destruct (prorated_availability_never_grows (Scenario.p2 0) s
              (Scenario.borrower 1100) (EndSession 1) E 1) as (_ & _ & _ & Ha);
    [by_compute |].
  unfold execute. rewrite E. exact Ha.
Defined.

(** X16: cancelling in the second body.  A successful [cancelListing]
    only clears [isActive]: the ledger, the Ether balances and the sessions
    stay as they are (no units were taken at listing time, none are
    returned).  From then on [startSession] on that listing reverts, and so
    does a second [cancelListing]. *)
Theorem prorated_cancel_is_final (st st' : State) (m : Msg) (listingId : Z) :
  execute st m (CancelListing listingId) = (st', Success) ->
  Listing.lender (listings st !!! listingId) = sender m /\
  token st' = token st /\ eth st' = eth st /\ sessions st' = sessions st /\
  listings st' =
    <[listingId := Listing.set_isActive (listings st !!! listingId) false]>
      (listings st) /\
  (forall m' units duration value,
     exists e,
       execute st' m' (StartSession listingId units duration value)
       = (st', Reverted e)) /\
  (forall m',
     exists e, execute st' m' (CancelListing listingId) = (st', Reverted e)).
Proof.
  intros H. unfold execute in H.
  destruct (run st m _) as [s|] eqn:Hrun; [|discriminate].
  injection H as <-. simpl in Hrun.
  unfold cancelListing, onlyLender, onlyActiveListing in Hrun. inv_ok.
  subst s. boolify. simpl.
  split; [assumption |].
  split; [reflexivity | split; [reflexivity | split; [reflexivity |]]].
  split; [reflexivity |]. split.
  - intros m' units duration value. unfold execute. simpl.
    destruct (ethMove _ _ _ _) as [e0|err]; simpl; [|eauto].
    unfold startSession, onlyActiveListing. simpl.
    rewrite lookup_total_insert_eq. simpl. eauto.
  - intros m'. unfold execute. simpl.
    unfold cancelListing, onlyLender, onlyActiveListing. simpl.
    rewrite lookup_total_insert_eq. simpl.
    destruct (_ =? sender m'); simpl; eauto.
Qed.

Lemma prorated_cancel_is_final_witness :
  let after := fst (execute (Scenario.p2 0) (mkMsg 1 1050) (CancelListing 1)) in
  token after = token (Scenario.p2 0) /\
  exists e,
    execute after (Scenario.borrower 1060) (StartSession 1 1 10 10)
    = (after, Reverted e).
Proof.
  cbv zeta.
  destruct (prorated_cancel_is_final (Scenario.p2 0)
              (fst (execute (Scenario.p2 0) (mkMsg 1 1050) (CancelListing 1)))
              (mkMsg 1 1050) 1) as (_ & Htok & _ & _ & _ & Hstart & _).
  - unfold execute.
    destruct (run (Scenario.p2 0) _ _) eqn:E;
      [reflexivity | vm_compute in E; discriminate E].
  - split; [exact Htok | apply Hstart].
Defined.

End ProratedSessions.

(** ** Second body: [getUserSessions] *)

(** With fuel for every index below [bound], the loop runs to completion
    over [i .. bound - 1]. *)
Lemma for_below_foldlM {A : Type} (body : Z -> A -> result A) (bound : Z) :
  bound <= MAX_UINT256 ->
  forall (fuel : nat) (i : Z) (acc : A),
    (Z.to_nat (bound - i) <= fuel)%nat ->
    for_below fuel i bound body acc = foldlM body acc (seqZ i (bound - i)).
Proof.
  intros Hb fuel; induction fuel as [|fuel IH]; intros i acc Hfuel; simpl.
  - destruct (Z.ltb_spec i bound) as [Hlt|Hge]; [lia|].
    rewrite seqZ_empty by lia. reflexivity.
  - destruct (Z.ltb_spec i bound) as [Hlt|Hge].
    + rewrite (seqZ_step i (bound - i)) by lia. simpl.
      destruct (body i acc) as [acc'|e]; simpl; [|reflexivity].
      rewrite add_fits by lia. simpl.
      rewrite IH by lia. f_equal. f_equal. lia.
    + rewrite seqZ_empty by lia. reflexivity.
Qed.

Section UserSessions.
Import Prorated ProratedQueries.

Lemma at_index_app (pre : list Z) (x : Z) (rest : list Z) :
  at_index (pre ++ x :: rest) (Z.of_nat (length pre)) = Ok x.
Proof.
  unfold at_index. rewrite length_app. simpl.
  destruct (Z.leb_spec 0 (Z.of_nat (length pre))); [|lia].
  destruct (Z.ltb_spec (Z.of_nat (length pre))
              (Z.of_nat (length pre + S (length rest)))); [|lia].
  simpl. rewrite Nat2Z.id.
  rewrite app_nth2 by lia. rewrite Nat.sub_diag. reflexivity.
Qed.

(** A loop over the indices of an array whose body reads the element is a
    loop over the elements. *)
Lemma foldlM_indices {A : Type} (all : list Z)
    (body g : Z -> A -> result A) :
  (forall i x a, at_index all i = Ok x -> body i a = g x a) ->
  forall (ids pre : list Z) (acc : A),
    all = pre ++ ids ->
    foldlM body acc (seqZ (Z.of_nat (length pre)) (Z.of_nat (length ids)))
    = foldlM g acc ids.
Proof.
  intros Hbody ids; induction ids as [|x ids IH]; intros pre acc Hall.
  - reflexivity.
  - rewrite seqZ_step by (simpl; lia). simpl foldlM.
    rewrite (Hbody _ x) by (rewrite Hall; apply at_index_app).
    destruct (g x acc) as [acc'|e]; simpl; [|reflexivity].
    specialize (IH (pre ++ [x]) acc').
    rewrite length_app in IH. simpl length in IH.
    replace (Z.of_nat (length pre) + 1) with (Z.of_nat (length pre + 1)) by lia.
    replace (Z.of_nat (S (length ids)) - 1) with (Z.of_nat (length ids)) by lia.
    apply IH. rewrite <- app_assoc. exact Hall.
Qed.

Variable st : State.

Lemma openSessionsOf_length ids :
  (length (openSessionsOf st ids) <= length ids)%nat.
Proof.
  unfold openSessionsOf. rewrite length_map.
  induction ids as [|i ids IH]; simpl; [lia|].
  destruct (Session.isActive (sessions st !!! i)); simpl; lia.
Qed.

Lemma count_sessions ids : forall c : Z,
  c + Z.of_nat (length ids) <= MAX_UINT256 ->
  foldlM (countSession st) c ids = Ok (c + Z.of_nat (length (openSessionsOf st ids))).
Proof.
  induction ids as [|i ids IH]; intros c Hc; simpl.
  - f_equal; lia.
  - simpl in Hc. unfold countSession at 1. unfold openSessionsOf in *.
    simpl. destruct (Session.isActive (sessions st !!! i)); simpl.
    + rewrite add_fits by lia. simpl. rewrite IH by lia. f_equal; lia.
    + rewrite IH by lia. reflexivity.
Qed.

Lemma store_session_next (pre : list Session.t) (k : nat) (v : Session.t) :
  ProratedQueries.store (pre ++ replicate (S k) Session.zero)
                        (Z.of_nat (length pre)) v =
  Ok ((pre ++ [v]) ++ replicate k Session.zero).
Proof.
  unfold ProratedQueries.store.
  rewrite length_app, length_replicate.
  destruct (Z.leb_spec 0 (Z.of_nat (length pre))); [|lia].
  destruct (Z.ltb_spec (Z.of_nat (length pre))
              (Z.of_nat (length pre + S k))); [|lia].
  simpl. rewrite Nat2Z.id.
  rewrite insert_app_r_alt by lia.
  rewrite Nat.sub_diag. simpl. rewrite <- app_assoc. reflexivity.
Qed.

Lemma fill_sessions ids : forall (pre : list Session.t) (k : nat),
  (length (openSessionsOf st ids) <= k)%nat ->
  Z.of_nat (length pre + k) <= MAX_UINT256 ->
  foldlM (fillSession st) (pre ++ replicate k Session.zero, Z.of_nat (length pre)) ids =
  Ok (pre ++ openSessionsOf st ids ++
        replicate (k - length (openSessionsOf st ids)) Session.zero,
      Z.of_nat (length pre + length (openSessionsOf st ids))).
Proof.
  induction ids as [|i ids IH]; intros pre k Hk Hmax; simpl.
  - rewrite Nat.sub_0_r, Nat.add_0_r. reflexivity.
  - unfold openSessionsOf in *. simpl in *.
    destruct (Session.isActive (sessions st !!! i)) eqn:Hact; simpl in *.
    + destruct k as [|k]; [lia|].
      rewrite store_session_next. simpl.
      rewrite add_fits by lia. simpl.
      replace (Z.of_nat (length pre) + 1)
        with (Z.of_nat (length (pre ++ [sessions st !!! i])))
        by (rewrite length_app; simpl; lia).
      rewrite IH; [| lia | rewrite length_app; simpl; lia].
      rewrite length_app; simpl. rewrite <- !app_assoc. simpl.
      f_equal. f_equal. lia.
    + apply IH; assumption.
Qed.

(** X17: [getUserSessions(user)] returns, without reverting, exactly the
    sessions of [userSessions[user]] that are active, in the order of the
    index and as they are stored; its length is the number of those
    sessions.  The length of a storage array is a [uint256]. *)
Theorem getUserSessions_active (user : address) :
  let sessionIds := default [] (userSessions st !! user) in
  Z.of_nat (length sessionIds) <= MAX_UINT256 ->
  getUserSessions st user = Ok (openSessionsOf st sessionIds) /\
  Forall (fun s => Session.isActive s = true) (openSessionsOf st sessionIds).
Proof.
  intros ids Hlen. split.
  - unfold getUserSessions. fold ids.
    rewrite (for_below_foldlM _ (Z.of_nat (length ids)) Hlen) by lia.
    rewrite Z.sub_0_r.
    rewrite (foldlM_indices ids _ (countSession st)) with (pre := [])
      by (reflexivity || (intros i x a Hx; rewrite Hx; reflexivity)).
    rewrite count_sessions by lia.
    cbn [length]. change (Z.of_nat 0) with 0. rewrite Z.add_0_l.
    cbn [bind]. rewrite Nat2Z.id.
    rewrite (for_below_foldlM _ (Z.of_nat (length ids)) Hlen) by lia.
    rewrite Z.sub_0_r.
    rewrite (foldlM_indices ids _ (fillSession st)) with (pre := []).
    + cbn [length]. change (Z.of_nat 0) with 0.
      pose proof (openSessionsOf_length ids) as Hact.
      pose proof (fill_sessions ids [] (length (openSessionsOf st ids))) as Hfill.
      simpl in Hfill. change (Z.of_nat 0) with 0 in Hfill.
      rewrite Hfill by lia. clear Hfill.
      simpl. rewrite Nat.sub_diag. simpl. rewrite app_nil_r. reflexivity.
    + intros i x [res index] Hx. rewrite Hx. simpl.
      destruct (Session.isActive (sessions st !!! x)); reflexivity.
    + reflexivity.
  - unfold openSessionsOf. apply List.Forall_forall. intros s Hs.
    apply in_map_iff in Hs. destruct Hs as (sid & <- & Hin).
    apply filter_In in Hin. tauto.
Qed.

End UserSessions.

Lemma getUserSessions_active_witness :
  ProratedQueries.getUserSessions (Scenario.p2 0) 2
  = Ok [Prorated.Session.mk 2 1 2 1000 1100 true].
Proof.
  destruct (getUserSessions_active (Scenario.p2 0) 2) as [H _].
  - vm_compute. discriminate.
  - rewrite H. vm_compute. reflexivity.
Defined.
